(** * RobotsSystem: the point-mass plant of [plants/robots/robots_sys.py]

    A shallow embedding of the PyTorch module [RobotsSystem]: its constructor,
    the state-dependent matrix [A_nonlin], the one-step maps
    [noiseless_forward] and [forward], and the closed-loop [rollout].

    Tensors are modelled by their shape, their strides and their entries in
    logical (row-major) order.  Entries live in an abstract scalar type
    carrying the arithmetic the program uses; every law of arithmetic a result
    depends on is listed in [ScalarLaws], so the results hold for the real
    numbers and for the exact rationals [Qc] used to run the model.  Rounding
    of floating-point numbers is not modelled.  Python exceptions are values of
    [exn], and the controller is an object with its own state.  The recording
    of gradients is modelled by the gradient mode and the flag
    [requires_grad], in [g_rollout]; [rollout] is [g_rollout] with the flags
    left out. *)

From Stdlib Require Import List Arith Lia Bool ZArith QArith Qcanon.
Import ListNotations.
Local Close Scope Qc_scope.
Local Close Scope Q_scope.
Local Open Scope nat_scope.

Set Implicit Arguments.

(* ================================================================== *)
(** ** Scalars *)

(** The arithmetic of tensor entries and of Python floats: numeric literals,
    [+], [-], [*], [/], unary minus and the square root taken by [torch.norm]. *)
Class Scalar (S : Type) : Type := {
  lit : Q -> S;
  sadd : S -> S -> S;
  ssub : S -> S -> S;
  smul : S -> S -> S;
  sdiv : S -> S -> S;
  sopp : S -> S;
  ssqrt : S -> S
}.

(** The laws of arithmetic used by the results below. *)
Class ScalarLaws (S : Type) {Sc : Scalar S} : Prop := {
  sadd_0_l : forall a, sadd (lit 0%Q) a = a;
  sadd_0_r : forall a, sadd a (lit 0%Q) = a;
  ssub_diag : forall a, ssub a a = lit 0%Q;
  smul_0_l : forall a, smul (lit 0%Q) a = lit 0%Q;
  smul_0_r : forall a, smul a (lit 0%Q) = lit 0%Q;
  smul_1_r : forall a, smul a (lit 1%Q) = a;
  smul_comm : forall a b, smul a b = smul b a;
  ssqrt_0 : ssqrt (lit 0%Q) = lit 0%Q
}.
Arguments ScalarLaws S {Sc}.

(** Exact rationals: the instance on which the model is run.  The square root
    is exact on squares of rationals and rounds down otherwise. *)
Definition Qc_sqrt (q : Qc) : Qc :=
  let n := Qnum (this q) in
  let d := Zpos (Qden (this q)) in
  Q2Qc (Qmake (Z.sqrt (n * d)) (Qden (this q))).

#[export] Instance Qc_Scalar : Scalar Qc := {
  lit := Q2Qc;
  sadd := Qcplus;
  ssub := Qcminus;
  smul := Qcmult;
  sdiv := Qcdiv;
  sopp := Qcopp;
  ssqrt := Qc_sqrt
}.

(* ================================================================== *)
(** ** Exceptions *)

Inductive exn : Type :=
| AssertionError
| IndexError
| RuntimeError
| TypeError
| UnboundLocalError.

Inductive result (A : Type) : Type :=
| Ok (a : A)
| Raise (e : exn).
Arguments Raise {A} e.

Definition bind {A B : Type} (c : result A) (k : A -> result B) : result B :=
  match c with
  | Ok a => k a
  | Raise e => Raise e
  end.

Notation "x <- c ;; k" := (bind c (fun x => k))
  (at level 61, c at next level, right associativity).

Definition assert (b : bool) : result unit :=
  if b then Ok tt else Raise AssertionError.

(* ================================================================== *)
(** ** Lists *)

Definition size_of (s : list nat) : nat := fold_right Nat.mul 1 s.

(** [chunks k n d]: the first [n] consecutive blocks of [k] entries of [d]. *)
Fixpoint chunks {A : Type} (k n : nat) (d : list A) : list (list A) :=
  match n with
  | 0 => []
  | S n' => firstn k d :: chunks k n' (skipn k d)
  end.

Fixpoint map2 {A B C : Type} (f : A -> B -> C) (l : list A) (l' : list B) : list C :=
  match l, l' with
  | a :: t, b :: t' => f a b :: map2 f t t'
  | _, _ => []
  end.

Fixpoint list_eqb (a b : list nat) : bool :=
  match a, b with
  | [], [] => true
  | x :: a', y :: b' => (x =? y) && list_eqb a' b'
  | _, _ => false
  end.

(* ================================================================== *)
(** ** Tensors *)

Record tensor (S : Type) : Type := mkT {
  shape : list nat;
  strides : list nat;
  data : list S
}.

Definition numel {S} (t : tensor S) : nat := size_of (shape t).

(** Strides of a freshly allocated tensor. *)
Fixpoint contiguous (s : list nat) : list nat :=
  match s with
  | [] => []
  | _ :: r => size_of (map (Nat.max 1) r) :: contiguous r
  end.

Definition fresh {S} (s : list nat) (d : list S) : tensor S :=
  mkT s (contiguous s) d.

(** [t.shape[i]] *)
Definition shape_at {S} (t : tensor S) (i : nat) : result nat :=
  match nth_error (shape t) i with
  | Some n => Ok n
  | None => Raise IndexError
  end.

(** *** Shape inference of [view] and [reshape]

    A requested size lists non-negative extents and at most one [-1], whose
    extent is inferred from the number of entries. *)
Definition known_size (spec : list Z) : nat :=
  size_of (map Z.to_nat (filter (fun z => negb (z =? -1)%Z) spec)).

Definition infer_size (spec : list Z) (n : nat) : result (list nat) :=
  let holes := length (filter (fun z => (z =? -1)%Z) spec) in
  let known := known_size spec in
  if existsb (fun z => (z <? -1)%Z) spec then Raise RuntimeError
  else if 1 <? holes then Raise RuntimeError
  else if (n =? known)
          || ((holes =? 1) && (0 <? known) && (n mod known =? 0)) then
    if (holes =? 1) && (known =? 0) then Raise RuntimeError
    else Ok (map (fun z => if (z =? -1)%Z then n / known else Z.to_nat z) spec)
  else Raise RuntimeError.

(** *** Strides of a view

    [view] never copies: the new shape must be expressible with strides over
    the same memory.  The old dimensions are scanned from the last to the
    first and cut into chunks that are contiguous in memory; each chunk has to
    be filled exactly by a run of new dimensions. *)
Fixpoint fill_chunk (vs : list nat) (view_numel tensor_numel base : nat)
    (acc : list nat) : list nat * nat * list nat :=
  match vs with
  | [] => ([], view_numel, acc)
  | d :: vs' =>
      if (view_numel <? tensor_numel) || (d =? 1)
      then fill_chunk vs' (view_numel * d) tensor_numel base (view_numel * base :: acc)
      else (vs, view_numel, acc)
  end.

Fixpoint scan_chunks (olds : list (nat * nat)) (vs : list nat)
    (tensor_numel view_numel base : nat) (acc : list nat) : option (list nat) :=
  match olds with
  | [] => match vs with [] => Some acc | _ :: _ => None end
  | (sz, _) :: rest =>
      let tn := tensor_numel * sz in
      let chunk_end :=
        match rest with
        | [] => true
        | (sz', st') :: _ => negb (sz' =? 1) && negb (st' =? tn * base)
        end in
      if chunk_end then
        let '(vs', vn, acc') := fill_chunk vs view_numel tn base acc in
        if vn =? tn then
          match rest with
          | [] => scan_chunks rest vs' tn vn base acc'
          | (_, st') :: _ => scan_chunks rest vs' 1 1 st' acc'
          end
        else None
      else scan_chunks rest vs tn view_numel base acc
  end.

Definition compute_stride (oldshape oldstride newshape : list nat) : option (list nat) :=
  match oldshape with
  | [] => Some (map (fun _ => 1) newshape)
  | _ :: _ =>
      if size_of oldshape =? 0 then
        if list_eqb oldshape newshape then Some oldstride
        else Some (contiguous newshape)
      else
        scan_chunks (rev (combine oldshape oldstride)) (rev newshape)
                    1 1 (last oldstride 1) []
  end.

(** [t.view(spec)] *)
Definition view {S} (spec : list Z) (t : tensor S) : result (tensor S) :=
  s <- infer_size spec (numel t) ;;
  match compute_stride (shape t) (strides t) s with
  | Some st => Ok (mkT s st (data t))
  | None => Raise RuntimeError
  end.

(** [t.reshape(spec)]: a view when one exists, a copy otherwise. *)
Definition reshape {S} (spec : list Z) (t : tensor S) : result (tensor S) :=
  s <- infer_size spec (numel t) ;;
  match compute_stride (shape t) (strides t) s with
  | Some st => Ok (mkT s st (data t))
  | None => Ok (fresh s (data t))
  end.

(** [t.detach().clone()]: the same values, cut from the autograd graph. *)
Definition detach_clone {S} (t : tensor S) : tensor S := t.

(* ================================================================== *)
(** ** The tensor operations the module calls

    Each operation is modelled at the ranks at which [RobotsSystem] calls it:
    the weight of [linear] is a matrix, [diag] takes a vector, [bmm],
    [transpose12] and [kron] act on a batch of matrices.  Results of
    arithmetic are freshly allocated, hence contiguous.  At ranks the module
    never reaches, the library may accept what the model reports as an error. *)

Section Torch.
Context {S : Type} {Sc : Scalar S}.

Definition zero : S := lit 0%Q.
Definition one : S := lit 1%Q.

(** [torch.tensor(rows)] for a nested list of depth two. *)
Definition of_rows (rows : list (list S)) : tensor S :=
  fresh [length rows; length (hd [] rows)] (concat rows).

(** [torch.tensor(v)] for a flat list. *)
Definition of_list (v : list S) : tensor S := fresh [length v] v.

(** [torch.zeros(s)] and [torch.ones(s)] *)
Definition zeros (s : list nat) : tensor S := fresh s (repeat zero (size_of s)).
Definition ones (s : list nat) : tensor S := fresh s (repeat one (size_of s)).

(** The rows of the diagonal matrix with diagonal [v]. *)
Definition diag_rows (v : list S) : list (list S) :=
  map (fun i => map (fun j => if i =? j then nth i v zero else zero)
                    (seq 0 (length v)))
      (seq 0 (length v)).

(** [torch.eye(n)] *)
Definition eye (n : nat) : tensor S := fresh [n; n] (concat (diag_rows (repeat one n))).

(** [torch.diag(v)] for a vector [v]. *)
Definition diag (v : tensor S) : result (tensor S) :=
  match shape v with
  | [n] => Ok (fresh [n; n] (concat (diag_rows (data v))))
  | _ => Raise RuntimeError
  end.

(** [torch.cat((a, b), dim)]: same rank, same extents off [dim].  (The
    library also lets an empty vector of shape [(0,)] through; the logs of
    [rollout] are never one.) *)
Definition cat (dim : nat) (a b : tensor S) : result (tensor S) :=
  let sa := shape a in
  let sb := shape b in
  match nth_error sa dim, nth_error sb dim with
  | Some na, Some nb =>
      if (length sa =? length sb)
         && list_eqb (firstn dim sa) (firstn dim sb)
         && list_eqb (skipn (Datatypes.S dim) sa) (skipn (Datatypes.S dim) sb)
      then
        let outer := size_of (firstn dim sa) in
        let inner := size_of (skipn (Datatypes.S dim) sa) in
        Ok (fresh (firstn dim sa ++ (na + nb) :: skipn (Datatypes.S dim) sa)
                  (concat (map2 (@app S)
                                (chunks (na * inner) outer (data a))
                                (chunks (nb * inner) outer (data b)))))
      else Raise RuntimeError
  | _, _ => Raise RuntimeError
  end.

(** [t[:, lo:hi, :]]: three indices need three dimensions; the bounds of a
    slice are clamped to the extent. *)
Definition slice1 (lo hi : nat) (t : tensor S) : result (tensor S) :=
  match shape t with
  | n0 :: n1 :: (_ :: _) as rest =>
      let lo' := Nat.min lo n1 in
      let hi' := Nat.min hi n1 in
      let inner := size_of rest in
      Ok (mkT (n0 :: (hi' - lo') :: rest) (strides t)
              (concat (map (fun blk => firstn ((hi' - lo') * inner) (skipn (lo' * inner) blk))
                           (chunks (n1 * inner) n0 (data t)))))
  | _ => Raise IndexError
  end.

(** [t.repeat(n, 1, 1)]: the tensor is read with three dimensions and tiled
    [n] times along the first. *)
Definition repeat3 (n : nat) (t : tensor S) : result (tensor S) :=
  match shape t with
  | [] => Ok (fresh [n; 1; 1] (concat (repeat (data t) n)))
  | [c] => Ok (fresh [n; 1; c] (concat (repeat (data t) n)))
  | [b; c] => Ok (fresh [n; b; c] (concat (repeat (data t) n)))
  | [a; b; c] => Ok (fresh [n * a; b; c] (concat (repeat (data t) n)))
  | _ => Raise RuntimeError
  end.

(** *** Broadcasting *)

Definition pad_shape (r : nat) (s : list nat) : list nat :=
  repeat 1 (r - length s) ++ s.

Fixpoint broadcast_dims (a b : list nat) : option (list nat) :=
  match a, b with
  | [], [] => Some []
  | x :: a', y :: b' =>
      match broadcast_dims a' b' with
      | None => None
      | Some r =>
          if x =? y then Some (x :: r)
          else if x =? 1 then Some (y :: r)
          else if y =? 1 then Some (x :: r)
          else None
      end
  | _, _ => None
  end.

Definition broadcast_shapes (a b : list nat) : option (list nat) :=
  let r := Nat.max (length a) (length b) in
  broadcast_dims (pad_shape r a) (pad_shape r b).

(** Entries of a tensor of shape [src] read at shape [tgt]: a dimension of
    extent one is repeated. *)
Fixpoint expand (src tgt : list nat) (d : list S) : list S :=
  match src, tgt with
  | n :: src', m :: tgt' =>
      if n =? m
      then concat (map (expand src' tgt') (chunks (size_of src') n d))
      else concat (repeat (expand src' tgt' d) m)
  | _, _ => d
  end.

Definition pointwise (op : S -> S -> S) (a b : tensor S) : result (tensor S) :=
  match broadcast_shapes (shape a) (shape b) with
  | None => Raise RuntimeError
  | Some s =>
      Ok (fresh s (map2 op (expand (pad_shape (length s) (shape a)) s (data a))
                           (expand (pad_shape (length s) (shape b)) s (data b))))
  end.

(** [a + b], [a - b], [a * b] on tensors. *)
Definition add := pointwise sadd.
Definition sub := pointwise ssub.
Definition mul := pointwise smul.

(** [c * t] and [t * c] for a Python float [c]. *)
Definition scale_l (c : S) (t : tensor S) : tensor S :=
  fresh (shape t) (map (fun a => smul c a) (data t)).
Definition scale_r (t : tensor S) (c : S) : tensor S :=
  fresh (shape t) (map (fun a => smul a c) (data t)).

(** *** Linear algebra *)

Definition sum_list (v : list S) : S := fold_left sadd v zero.
Definition dot (u v : list S) : S := sum_list (map2 smul u v).

(** The columns of a matrix given by its rows. *)
Definition columns (p : nat) (rows : list (list S)) : list (list S) :=
  map (fun j => map (fun r => nth j r zero) rows) (seq 0 p).

(** [F.linear(x, w)]: every row of [x] is multiplied by the transpose of the
    matrix [w]. *)
Definition linear (x w : tensor S) : result (tensor S) :=
  match shape w, rev (shape x) with
  | [o; i], i' :: lead =>
      if i' =? i then
        Ok (fresh (rev (o :: lead))
                  (concat (map (fun r => map (dot r) (chunks i o (data w)))
                               (chunks i (size_of lead) (data x)))))
      else Raise RuntimeError
  | _, _ => Raise RuntimeError
  end.

(** [t.transpose(1, 2)] *)
Definition transpose12 (t : tensor S) : result (tensor S) :=
  match shape t with
  | [b; n; m] =>
      Ok (mkT [b; m; n]
              (match strides t with [s0; s1; s2] => [s0; s2; s1] | st => st end)
              (concat (map (fun blk => concat (columns m (chunks m n blk)))
                           (chunks (n * m) b (data t)))))
  | _ => Raise IndexError
  end.

(** [torch.bmm(a, b)]: one matrix product per batch entry. *)
Definition bmm (a b : tensor S) : result (tensor S) :=
  match shape a, shape b with
  | [ba; n; m], [bb; m'; p] =>
      if (ba =? bb) && (m =? m') then
        Ok (fresh [ba; n; p]
                  (concat (map2 (fun ma mb =>
                                   concat (map (fun r => map (dot r) (columns p (chunks p m mb)))
                                               (chunks m n ma)))
                                (chunks (n * m) ba (data a))
                                (chunks (m * p) ba (data b)))))
      else Raise RuntimeError
  | _, _ => Raise RuntimeError
  end.

(** [torch.norm(t, dim=-1, keepdim=True)]: the Euclidean norm of every row. *)
Definition norm2 (v : list S) : S := ssqrt (sum_list (map (fun a => smul a a) v)).

Definition norm_last (t : tensor S) : result (tensor S) :=
  match rev (shape t) with
  | d :: lead =>
      Ok (fresh (rev (1 :: lead)) (map norm2 (chunks d (size_of lead) (data t))))
  | [] => Raise IndexError
  end.

(** [torch.kron(a, b)] of a batch of matrices [a] with one matrix [b]. *)
Definition kron_rows (ma mb : list (list S)) : list (list S) :=
  concat (map (fun ra =>
                 map (fun rb => concat (map (fun x => map (fun y => smul x y) rb) ra)) mb)
              ma).

Definition kron (a b : tensor S) : result (tensor S) :=
  match shape a, shape b with
  | [ba; n; m], [p; q] =>
      Ok (fresh [ba; n * p; m * q]
                (concat (map (fun blk => concat (kron_rows (chunks m n blk)
                                                           (chunks q p (data b))))
                             (chunks (n * m) ba (data a)))))
  | _, _ => Raise RuntimeError
  end.

(** [t.squeeze(dim=-1)] *)
Definition squeeze_last (t : tensor S) : result (tensor S) :=
  match rev (shape t) with
  | 1 :: lead => Ok (fresh (rev lead) (data t))
  | _ :: _ => Ok t
  | [] => Raise IndexError
  end.

(** [torch.diag_embed(t, offset=0, dim1=-2, dim2=-1)] *)
Definition diag_embed (t : tensor S) : result (tensor S) :=
  match rev (shape t) with
  | n :: lead =>
      Ok (fresh (rev (n :: n :: lead))
                (concat (map (fun v => concat (diag_rows v))
                             (chunks n (size_of lead) (data t)))))
  | [] => Raise IndexError
  end.

End Torch.

(* ================================================================== *)
(** ** The plant *)

Section Plant.
Context {S : Type} {Sc : Scalar S}.

(** The attributes of a [RobotsSystem] object. *)
Record RobotsSystem : Type := mkRobotsSystem {
  linear_plant : bool;
  xbar : tensor S;
  x_init : tensor S;
  u_init : tensor S;
  state_dim : nat;
  in_dim : nat;
  h : S;
  mass : S;
  k : S;
  b : S;
  b2 : option S;
  B : tensor S;
  A_lin : tensor S;
  mask : tensor S
}.

(** Lines 46-54: [A_lin = eye(4) + h * A2], with [A2] assembled from four
    2x2 blocks by [torch.cat]. *)
Definition build_A_lin (h mass k b : S) : result (tensor S) :=
  let _A1 := eye 4 in
  top <- cat 1 (zeros [2; 2]) (eye 2) ;;
  dk <- diag (of_list [sdiv (sopp k) mass; sdiv (sopp k) mass]) ;;
  db <- diag (of_list [sdiv (sopp b) mass; sdiv (sopp b) mass]) ;;
  bottom <- cat 1 dk db ;;
  _A2 <- cat 0 top bottom ;;
  add _A1 (scale_l h _A2).

(** [RobotsSystem.__init__(xbar, linear_plant, x_init, u_init, k)] *)
Definition __init__ (xbar : tensor S) (linear_plant : bool)
    (x_init u_init : option (tensor S)) (k : S) : result RobotsSystem :=
  xbar <- reshape [1; -1]%Z xbar ;;
  x_init <- match x_init with
            | None => Ok (detach_clone xbar)
            | Some x0 => reshape [1; -1]%Z x0
            end ;;
  u_init <- match u_init with
            | None => n <- shape_at xbar 1 ;; Ok (zeros [1; n / 2])
            | Some u0 => _ <- reshape [1; -1]%Z u0 ;; Ok u0
            end ;;
  let state_dim := 4 in
  let in_dim := 2 in
  nx <- shape_at xbar 1 ;;
  ok <- (if nx =? state_dim
         then n0 <- shape_at x_init 1 ;; Ok (n0 =? state_dim)
         else Ok false) ;;
  _ <- assert ok ;;
  nu <- shape_at u_init 1 ;;
  _ <- assert (nu =? in_dim) ;;
  let h := lit 0.05%Q in
  let mass := lit 1%Q in
  let b := lit 1%Q in
  let b2 := if linear_plant then None else Some (lit 0.1%Q) in
  let m := mass in
  let B := scale_r (of_rows [[zero; zero];
                             [zero; zero];
                             [sdiv one m; zero];
                             [zero; sdiv one m]]) h in
  A_lin <- build_A_lin h mass k b ;;
  let mask := of_rows [[zero; zero]; [one; one]] in
  Ok (mkRobotsSystem linear_plant xbar x_init u_init state_dim in_dim
                     h mass k b b2 B A_lin mask).

(** [RobotsSystem.A_nonlin(x)] *)
Definition A_nonlin (self : RobotsSystem) (x : tensor S) : result (tensor S) :=
  _ <- assert (negb (linear_plant self)) ;;
  xv <- view [-1; 2; 2]%Z x ;;
  xm <- mul xv (mask self) ;;
  A3 <- norm_last xm ;;
  A3 <- kron A3 (ones [2; 1]) ;;
  c <- match b2 self with
       | Some f => Ok (sdiv (sopp f) (mass self))
       | None => Raise TypeError
       end ;;
  A3 <- squeeze_last A3 ;;
  A3 <- diag_embed A3 ;;
  let A3 := scale_l c A3 in
  add (A_lin self) (scale_l (h self) A3).

(** [RobotsSystem.noiseless_forward(t, x, u)] *)
Definition noiseless_forward (self : RobotsSystem) (t : nat) (x u : tensor S)
    : result (tensor S) :=
  x <- view [-1; 1; Z.of_nat (state_dim self)]%Z x ;;
  u <- view [-1; 1; Z.of_nat (in_dim self)]%Z u ;;
  if linear_plant self then
    dx <- sub x (xbar self) ;;
    fx <- linear dx (A_lin self) ;;
    fu <- linear u (B self) ;;
    f <- add fx fu ;;
    add f (xbar self)
  else
    dx <- sub x (xbar self) ;;
    A <- A_nonlin self x ;;
    At <- transpose12 A ;;
    fx <- bmm dx At ;;
    fu <- linear u (B self) ;;
    f <- add fx fu ;;
    add f (xbar self).

(** [RobotsSystem.forward(t, x, u, w)] *)
Definition forward (self : RobotsSystem) (t : nat) (x u w : tensor S)
    : result (tensor S) :=
  f <- noiseless_forward self t x u ;;
  wv <- view [-1; 1; Z.of_nat (state_dim self)]%Z w ;;
  add f wv.

(* ------------------------------------------------------------------ *)
(** *** The controller and the simulation loop *)

(** A controller is an object with a state of its own, [reset()] and
    [__call__(t, x)]. *)
Record controller (C : Type) : Type := mkController {
  reset : C -> C;
  call : nat -> tensor S -> C -> tensor S * C
}.

(** Computations that may raise and that act on the controller: the state of
    the controller survives an exception. *)
Definition Action (C A : Type) : Type := C -> result A * C.

Definition ret {C A} (a : A) : Action C A := fun c => (Ok a, c).

Definition bindM {C A B'} (m : Action C A) (f : A -> Action C B') : Action C B' :=
  fun c => match m c with
           | (Ok a, c') => f a c'
           | (Raise e, c') => (Raise e, c')
           end.

Definition lift {C A} (r : result A) : Action C A := fun c => (r, c).

Definition do_reset {C} (ctl : controller C) : Action C unit :=
  fun c => (Ok tt, reset ctl c).

Definition do_call {C} (ctl : controller C) (t : nat) (x : tensor S) : Action C (tensor S) :=
  fun c => let (u, c') := call ctl t x c in (Ok u, c').

(** [with torch.no_grad(): body] switches off the recording of gradients
    while [body] runs.  Here, where a controller is a function of [t], of the
    values of [x] and of its own state, nothing is left of it; the mode and
    a controller that consults it are in the section on the gradient mode
    below, with [with_no_grad]. *)
Definition no_grad {C A} (body : Action C A) : Action C A := body.

(** Reading a local variable that may not have been assigned. *)
Definition local {C A} (v : option A) : Action C A :=
  match v with
  | Some a => ret a
  | None => lift (Raise UnboundLocalError)
  end.

(** The local variables [x], [u], [x_log], [u_log] of [rollout]. *)
Record locals : Type := mkLocals {
  l_x : tensor S;
  l_u : tensor S;
  l_x_log : option (tensor S);
  l_u_log : option (tensor S)
}.

Fixpoint for_range {C} (ts : list nat) (body : nat -> locals -> Action C locals)
    (l : locals) : Action C locals :=
  match ts with
  | [] => ret l
  | t :: ts' => bindM (body t l) (for_range ts' body)
  end.

Notation "x <-- c ;; k" := (bindM c (fun x => k))
  (at level 61, c at next level, right associativity).

(** The body shared by the two loops of [rollout], lines 125-132 and
    136-143. *)
Definition loop_body {C} (self : RobotsSystem) (ctl : controller C)
    (data : tensor S) (t : nat) (l : locals) : Action C locals :=
  w <-- lift (slice1 t (t + 1) data) ;;
  x <-- lift (forward self t (l_x l) (l_u l) w) ;;
  u <-- do_call ctl t x ;;
  if t =? 0 then
    ret (mkLocals x u (Some x) (Some u))
  else
    xl <-- local (l_x_log l) ;;
    x_log <-- lift (cat 1 xl x) ;;
    ul <-- local (l_u_log l) ;;
    u_log <-- lift (cat 1 ul u) ;;
    ret (mkLocals x u (Some x_log) (Some u_log)).

(** [RobotsSystem.rollout(controller, data, train)], which returns the tuple
    [(x_log, None, u_log)]. *)
Definition rollout {C} (self : RobotsSystem) (ctl : controller C)
    (data : tensor S) (train : bool)
    : Action C (tensor S * option (tensor S) * tensor S) :=
  _ <-- do_reset ctl ;;
  n <-- lift (shape_at data 0) ;;
  x <-- lift (repeat3 n (detach_clone (x_init self))) ;;
  n <-- lift (shape_at data 0) ;;
  u <-- lift (repeat3 n (detach_clone (u_init self))) ;;
  l <-- (if train then
           T <-- lift (shape_at data 1) ;;
           for_range (seq 0 T) (loop_body self ctl data) (mkLocals x u None None)
         else
           no_grad (
             T <-- lift (shape_at data 1) ;;
             for_range (seq 0 T) (loop_body self ctl data) (mkLocals x u None None))) ;;
  _ <-- do_reset ctl ;;
  x_log <-- local (l_x_log l) ;;
  u_log <-- local (l_u_log l) ;;
  ret (x_log, None, u_log).

End Plant.

Arguments RobotsSystem S : clear implicits.
Arguments controller S C : clear implicits.
Arguments locals S : clear implicits.

(* ================================================================== *)
(** ** Batches, rows and matrices *)

(** Every row has [k] entries. *)
Definition uniform {A : Type} (k : nat) (rows : list (list A)) : Prop :=
  Forall (fun r => length r = k) rows.

(** [t] is a batch: one block of shape [s] per entry of [rows]. *)
Definition batched {S : Type} (s : list nat) (rows : list (list S)) (t : tensor S) : Prop :=
  shape t = length rows :: s /\ data t = concat rows /\ uniform (size_of s) rows.

(** Two tensors with the same shape and the same entries. *)
Definition same_values {S : Type} (a b : tensor S) : Prop :=
  shape a = shape b /\ data a = data b.

Section Matrices.
Context {S : Type} {Sc : Scalar S}.

(** The rows of a two-dimensional tensor. *)
Definition rows_of (t : tensor S) : list (list S) :=
  match shape t with
  | [n; m] => chunks m n (data t)
  | _ => []
  end.

Definition vadd (u v : list S) : list S := map2 sadd u v.
Definition vsub (u v : list S) : list S := map2 ssub u v.

(** The product of a matrix with a column vector. *)
Definition matvec (M : list (list S)) (v : list S) : list S :=
  map (fun row => dot row v) M.

Definition madd (M N : list (list S)) : list (list S) := map2 vadd M N.
Definition mscale (c : S) (M : list (list S)) : list (list S) :=
  map (map (fun a => smul c a)) M.

(** The 4x4 matrix made of four 2x2 blocks. *)
Definition block_matrix (tl tr bl br : list (list S)) : list (list S) :=
  map2 (@app S) tl tr ++ map2 (@app S) bl br.

Definition zero_block : list (list S) := [[zero; zero]; [zero; zero]].
Definition scalar_block (c : S) : list (list S) := [[c; zero]; [zero; c]].
Definition identity (n : nat) : list (list S) := diag_rows (repeat one n).

(** [A2] of the specification: zero and identity on top, the spring block
    [-k/m I] and the damping block [-b/m I] below. *)
Definition A2_blocks (mass k b : S) : list (list S) :=
  block_matrix zero_block (scalar_block one)
               (scalar_block (sdiv (sopp k) mass))
               (scalar_block (sdiv (sopp b) mass)).

Definition entry (M : list (list S)) (i j : nat) : S := nth j (nth i M []) zero.

(** *** One batch entry of [A_nonlin]

    Lines 60-65 for one state [[x0; x1; x2; x3]]: the state is cut into the
    pairs [(x0, x1)] and [(x2, x3)], the pairs are multiplied by the rows of
    the mask, the norm of each masked pair is taken, and each norm is written
    twice. *)
Definition pair_norms (self : RobotsSystem S) (x : list S) : list S :=
  map norm2 (chunks 2 2 (map2 smul x (data (mask self)))).

Definition friction_speed (self : RobotsSystem S) (x : list S) : list S :=
  concat (kron_rows (chunks 1 2 (pair_norms self x)) [[one]; [one]]).

(** [-self.b2 / self.mass]; zero stands for a missing [b2]. *)
Definition friction_gain (self : RobotsSystem S) : S :=
  match b2 self with
  | Some f => sdiv (sopp f) (mass self)
  | None => zero
  end.

(** Lines 66-68: the correction [A3], a diagonal matrix. *)
Definition correction (self : RobotsSystem S) (x : list S) : list (list S) :=
  mscale (friction_gain self) (diag_rows (friction_speed self x)).

(** The matrix [A(x)] of the dynamics. *)
Definition A_of (self : RobotsSystem S) (x : list S) : list (list S) :=
  if linear_plant self then rows_of (A_lin self)
  else madd (rows_of (A_lin self)) (mscale (h self) (correction self x)).

(** The affine map [A(x) (x - xbar) + B u + xbar] of the specification. *)
Definition affine_step (self : RobotsSystem S) (x u : list S) : list S :=
  vadd (vadd (matvec (A_of self x) (vsub x (data (xbar self))))
             (matvec (rows_of (B self)) u))
       (data (xbar self)).

End Matrices.

Section Dynamics.
Context {S : Type} {Sc : Scalar S}.

(** The attributes the dynamics read, as the constructor leaves them. *)
Definition canonical_plant (self : RobotsSystem S) : Prop :=
  state_dim self = 4 /\ in_dim self = 2
  /\ shape (xbar self) = [1; 4] /\ length (data (xbar self)) = 4
  /\ shape (A_lin self) = [4; 4] /\ length (data (A_lin self)) = 16
  /\ shape (B self) = [4; 2] /\ length (data (B self)) = 8
  /\ shape (mask self) = [2; 2] /\ length (data (mask self)) = 4
  /\ (linear_plant self = false -> exists f, b2 self = Some f).

(** One batch entry of [noiseless_forward], in the order the program
    computes it: the row [x - xbar] times the transpose of [A(x)], plus the
    row [u] times the transpose of [B], plus [xbar]. *)
Definition dynamics_row (self : RobotsSystem S) (x u : list S) : list S :=
  map2 sadd
       (map2 sadd (map (dot (map2 ssub x (data (xbar self)))) (A_of self x))
                  (map (dot u) (rows_of (B self))))
       (data (xbar self)).

(** One batch entry of [forward]. *)
Definition forward_row (self : RobotsSystem S) (x u w : list S) : list S :=
  map2 sadd (dynamics_row self x u) w.

End Dynamics.

Section FrictionReadings.
Context {S : Type} {Sc : Scalar S}.

(** The speed of the point mass: the norm of the velocity [(x2, x3)]. *)
Definition speed (x : list S) : S := norm2 [nth 2 x zero; nth 3 x zero].

(** The diagonal of the friction term: nothing on the two position rows, the
    speed on the two velocity rows. *)
Definition friction_diag (x : list S) : list S :=
  [zero; zero; speed x; speed x].

(** [A_lin + h * (-b2/m) diag(s)] for a diagonal [s]. *)
Definition nonlinear_matrix (self : RobotsSystem S) (s : list S) : list (list S) :=
  madd (rows_of (A_lin self))
       (mscale (h self) (mscale (friction_gain self) (diag_rows s))).

(** A 2-vector (position, velocity) with the position masked out. *)
Definition velocity_only (p v : S) : list S := map2 smul [p; v] [zero; one].

(** The diagonal as the specification words it, the state being read as one
    (position, velocity) pair per axis: the scalar of an axis is the norm of
    its velocity-only pair and sits on the two rows of the pair. *)
Definition claimed_diag_pairs (x : list S) : list S :=
  let s0 := norm2 (velocity_only (nth 0 x zero) (nth 1 x zero)) in
  let s1 := norm2 (velocity_only (nth 2 x zero) (nth 3 x zero)) in
  [s0; s0; s1; s1].

(** The same words with the layout [A_lin] and [B] use, positions in rows 0
    and 1 and velocities in rows 2 and 3: axis [a] owns rows [a] and [2 + a]. *)
Definition claimed_diag_axes (x : list S) : list S :=
  let s0 := norm2 (velocity_only (nth 0 x zero) (nth 2 x zero)) in
  let s1 := norm2 (velocity_only (nth 1 x zero) (nth 3 x zero)) in
  [s0; s1; s0; s1].

End FrictionReadings.

Section ClosedLoop.
Context {S : Type} {Sc : Scalar S} {C : Type}.

(** A controller that answers a batch of [n] states with a batch of [n]
    inputs. *)
Definition controller_ok (n : nat) (ctl : controller S C) : Prop :=
  forall t x c,
    shape x = [n; 1; 4] -> length (data x) = n * 4 ->
    shape (fst (call ctl t x c)) = [n; 1; 2]
    /\ length (strides (fst (call ctl t x c))) = 3
    /\ length (data (fst (call ctl t x c))) = n * 2.

(** The closed loop in the words of the specification: for each time step in
    order, advance the plant with the current noise slice, then ask the
    controller for the next input at the new state.  The result lists the
    pairs (state, input) of the successive steps. *)
Fixpoint closed_loop (self : RobotsSystem S) (ctl : controller S C)
    (data : tensor S) (ts : list nat) (x u : tensor S) (c : C)
    : list (tensor S * tensor S) :=
  match ts with
  | [] => []
  | t :: ts' =>
      match w <- slice1 t (t + 1) data ;; forward self t x u w with
      | Raise _ => []
      | Ok x' =>
          let (u', c') := call ctl t x' c in
          (x', u') :: closed_loop self ctl data ts' x' u' c'
      end
  end.

(** Entry [t] of a log holds the values of [x]. *)
Definition recorded (log : tensor S) (t : nat) (x : tensor S) : Prop :=
  exists s, slice1 t (t + 1) log = Ok s /\ same_values s x.

(** Entry [i] of a batch, [log[i:i+1]]. *)
Definition select0 (i : nat) (t : tensor S) : tensor S :=
  match shape t with
  | n :: rest =>
      mkT (Nat.min (Datatypes.S i) n - Nat.min i n :: rest) (strides t)
          (firstn ((Nat.min (Datatypes.S i) n - Nat.min i n) * size_of rest)
                  (skipn (Nat.min i n * size_of rest) (data t)))
  | [] => t
  end.

End ClosedLoop.

Section Logs.
Context {S : Type}.

(** The entries of a log made of the steps [steps], each a batch of [n] rows
    of [d] entries: for every entry of the batch, its rows in time order. *)
Definition stack (d n : nat) (steps : list (tensor S)) : list (list S) :=
  fold_left (fun acc x => map2 (@app S) acc (chunks d n (data x)))
            steps (repeat [] n).

(** The state of the loop of [rollout] after [j >= 1] steps, [done] being the
    pairs (state, input) of the steps made so far. *)
Definition loop_inv (n j : nat) (l : locals S) (done : list (tensor S * tensor S)) : Prop :=
  shape (l_x l) = [n; 1; 4] /\ length (strides (l_x l)) = 3
  /\ length (data (l_x l)) = n * 4
  /\ shape (l_u l) = [n; 1; 2] /\ length (strides (l_u l)) = 3
  /\ length (data (l_u l)) = n * 2
  /\ (exists xl, l_x_log l = Some xl
        /\ batched [j; 4] (stack 4 n (map fst done)) xl
        /\ forall t xt ut, nth_error done t = Some (xt, ut) -> recorded xl t xt)
  /\ (exists ul, l_u_log l = Some ul
        /\ batched [j; 2] (stack 2 n (map snd done)) ul
        /\ forall t xt ut, nth_error done t = Some (xt, ut) -> recorded ul t ut)
  /\ length done = j.

End Logs.

Section Arguments.
Context {S : Type} {Sc : Scalar S}.

(** Constructor arguments as the constructor documents them: tensors whose
    entries agree with their shape, and an initial input, when one is given,
    of shape [(1, in_dim)]. *)
Definition plain_arguments (xbar0 : tensor S) (xi ui : option (tensor S)) : Prop :=
  length (data xbar0) = numel xbar0
  /\ (forall x0, xi = Some x0 -> length (data x0) = numel x0)
  /\ (forall u0, ui = Some u0 -> shape u0 = [1; 2] /\ length (data u0) = 2).

End Arguments.

Section ZeroInput.
Context {S : Type} {Sc : Scalar S} {C : Type}.

(** A controller that answers every batch of [n] states with zero inputs. *)
Definition answers_zero (n : nat) (ctl : controller S C) : Prop :=
  forall t x c,
    shape x = [n; 1; 4] -> length (data x) = n * 4 ->
    shape (fst (call ctl t x c)) = [n; 1; 2]
    /\ length (strides (fst (call ctl t x c))) = 3
    /\ data (fst (call ctl t x c)) = repeat zero (n * 2).

End ZeroInput.

Section BatchOfTwo.
Context {S : Type} {Sc : Scalar S} {C : Type}.

(** [x] is a batch of two rows of [d] entries, [x0] holds the first row alone
    and [x1] the second. *)
Definition halves (d : nat) (x x0 x1 : tensor S) : Prop :=
  exists a b,
    length a = d /\ length b = d
    /\ shape x = [2; 1; d] /\ data x = a ++ b
    /\ shape x0 = [1; 1; d] /\ data x0 = a
    /\ shape x1 = [1; 1; d] /\ data x1 = b.

(** A batch-pointwise controller: on a batch of two states it answers, entry
    by entry, what it answers on each state alone.  [R c c0 c1] relates the
    state of the controller on the batch with its states on the two entries. *)
Definition batch_pointwise (ctl : controller S C) (R : C -> C -> C -> Prop) : Prop :=
  (forall c c0 c1, R c c0 c1 -> R (reset ctl c) (reset ctl c0) (reset ctl c1))
  /\ (forall t x x0 x1 c c0 c1,
        R c c0 c1 -> halves 4 x x0 x1 ->
        halves 2 (fst (call ctl t x c)) (fst (call ctl t x0 c0)) (fst (call ctl t x1 c1))
        /\ R (snd (call ctl t x c)) (snd (call ctl t x0 c0)) (snd (call ctl t x1 c1))).

(** Three runs of the closed loop that agree entry by entry. *)
Inductive coupled : list (tensor S * tensor S) -> list (tensor S * tensor S)
                    -> list (tensor S * tensor S) -> Prop :=
| coupled_nil : coupled [] [] []
| coupled_cons x u x0 u0 x1 u1 l l0 l1 :
    halves 4 x x0 x1 -> halves 2 u u0 u1 -> coupled l l0 l1 ->
    coupled ((x, u) :: l) ((x0, u0) :: l0) ((x1, u1) :: l1).

End BatchOfTwo.

Section LogRows.
Context {S : Type}.

(** The rows a log holds at time [t]. *)
Definition rows_at (d t : nat) (Xs : list (list S)) : list (list S) :=
  map (fun blk => firstn d (skipn (t * d) blk)) Xs.

End LogRows.

(* ================================================================== *)
(** ** What the constructor accepts *)

Section Acceptance.
Context {S : Type}.

(** The exception [__init__] ends with, if any, read off the shapes of its
    arguments: the two assertions of lines 32 and 33, and the index [1] taken
    of the shape of [u_init] on line 33. *)
Definition init_verdict (xbar0 : tensor S) (xi ui : option (tensor S)) : option exn :=
  if (numel xbar0 =? 4)
     && match xi with Some x0 => numel x0 =? 4 | None => true end
  then match ui with
       | None => None
       | Some u0 =>
           match nth_error (shape u0) 1 with
           | None => Some IndexError
           | Some n => if n =? 2 then None else Some AssertionError
           end
       end
  else Some AssertionError.

End Acceptance.

(* ================================================================== *)
(** ** One step, entry by entry *)

Section ExplicitStep.
Context {S : Type} {Sc : Scalar S}.

(** The factor of the velocity deviation in the new velocity:
    [1 + h (-b/m)], to which the nonlinear plant adds [h ((-b2/m) speed)]. *)
Definition damping (self : RobotsSystem S) (x : list S) : S :=
  let d := sadd one (smul (h self) (sdiv (sopp (b self)) (mass self))) in
  if linear_plant self then d
  else sadd d (smul (h self) (smul (friction_gain self) (speed x))).

(** One explicit Euler step of the point mass around [xbar], for a state
    [(p0, p1, v0, v1)] and an input [(u0, u1)]: with [e = x - xbar], the new
    position is [e_p + e_v h + xbar_p] and the new velocity is
    [e_p (h (-k/m)) + e_v damping + u ((1/m) h) + xbar_v]. *)
Definition explicit_step (self : RobotsSystem S) (x u : list S) : list S :=
  let xb i := nth i (data (xbar self)) zero in
  let e i := ssub (nth i x zero) (xb i) in
  let spring := smul (h self) (sdiv (sopp (k self)) (mass self)) in
  let gain := smul (sdiv one (mass self)) (h self) in
  [ sadd (sadd (e 0) (smul (e 2) (h self))) (xb 0);
    sadd (sadd (e 1) (smul (e 3) (h self))) (xb 1);
    sadd (sadd (sadd (smul (e 0) spring) (smul (e 2) (damping self x)))
               (smul (nth 0 u zero) gain))
         (xb 2);
    sadd (sadd (sadd (smul (e 1) spring) (smul (e 3) (damping self x)))
               (smul (nth 1 u zero) gain))
         (xb 3) ].

End ExplicitStep.

(* ================================================================== *)
(** ** The two products of a step *)

Section StepParts.
Context {S : Type} {Sc : Scalar S}.

(** The first product of lines 87 and 90: the deviation from [xbar] times the
    transpose of [A_lin], or of [A_nonlin(x)] in nonlinear mode. *)
Definition state_term (self : RobotsSystem S) (x : tensor S) : result (tensor S) :=
  dx <- sub x (xbar self) ;;
  if linear_plant self then linear dx (A_lin self)
  else
    A <- A_nonlin self x ;;
    At <- transpose12 A ;;
    bmm dx At.

(** One batch entry of the two products. *)
Definition state_row (self : RobotsSystem S) (x : list S) : list S :=
  map (dot (map2 ssub x (data (xbar self)))) (A_of self x).

Definition input_row (self : RobotsSystem S) (u : list S) : list S :=
  map (dot u) (rows_of (B self)).

(** The rows two batches pair up when they are broadcast against each other:
    entry by entry when the sizes agree, a batch of one against every entry of
    the other otherwise. *)
Definition pair_rows {A B : Type} (l : list A) (l' : list B) : option (list (A * B)) :=
  if length l =? length l' then Some (combine l l')
  else match l, l' with
       | [a], _ => Some (map (fun b => (a, b)) l')
       | _, [b] => Some (map (fun a => (a, b)) l)
       | _, _ => None
       end.

End StepParts.

(* ================================================================== *)
(** ** What the controller goes through *)

Section Trace.
Context {S : Type} {C : Type}.

(** A call of [controller.reset()], or a call [controller(t, x)]. *)
Inductive event : Type :=
| Reset_event
| Call_event (t : nat) (x : tensor S).

(** The controller [ctl], keeping a record of the calls it receives beside
    its own state; its answers are those of [ctl]. *)
Definition traced (ctl : controller S C) : controller S (C * list event) :=
  mkController
    (fun c => (reset ctl (fst c), snd c ++ [Reset_event]))
    (fun t x c => (fst (call ctl t x (fst c)),
                   (snd (call ctl t x (fst c)), snd c ++ [Call_event t x]))).

(** [a'] computes what [a] computes, beside a record that [a] does not
    keep. *)
Definition same_run {A : Type} (a : Action C A)
    (a' : Action (C * list event) A) : Prop :=
  forall c tr, a c = (fst (a' (c, tr)), fst (snd (a' (c, tr)))).

(** The record [tr] a run of [rollout] may leave when it ends with [r], the
    record being [tr0] before: one reset; calls at the times [0, 1, 2, ...],
    no more than the horizon; and a second reset, which is there when the run
    returns or raises [UnboundLocalError], and missing when a step raised. *)
Definition disciplined {A : Type} (horizon : result nat) (tr0 : list event)
    (r : result A) (tr : list event) : Prop :=
  exists xs,
    (forall T, horizon = Ok T -> length xs <= T)
    /\ ((tr = tr0 ++ Reset_event :: map2 Call_event (seq 0 (length xs)) xs
                  ++ [Reset_event]
         /\ (r = Raise UnboundLocalError \/ exists v, r = Ok v))
        \/ (tr = tr0 ++ Reset_event :: map2 Call_event (seq 0 (length xs)) xs
            /\ exists e, r = Raise e)).

End Trace.

Arguments event S : clear implicits.

(* ================================================================== *)
(** ** One entry of a batch run *)

Section BatchEntry.
Context {S : Type} {Sc : Scalar S} {C : Type}.

(** [xi] holds entry [i] alone of the batch [x] of [n] rows of [d] entries. *)
Definition entry_of (d n i : nat) (x xi : tensor S) : Prop :=
  shape x = [n; 1; d] /\ length (data x) = n * d
  /\ shape xi = [1; 1; d] /\ data xi = firstn d (skipn (i * d) (data x)).

(** A controller that answers entry [i] of a batch of [n] states as it
    answers that state alone.  [R c ci] relates the state of the controller on
    the batch with its state on the entry. *)
Definition entrywise (n i : nat) (ctl : controller S C) (R : C -> C -> Prop) : Prop :=
  (forall c ci, R c ci -> R (reset ctl c) (reset ctl ci))
  /\ (forall t x xi c ci,
        R c ci -> entry_of 4 n i x xi ->
        entry_of 2 n i (fst (call ctl t x c)) (fst (call ctl t xi ci))
        /\ R (snd (call ctl t x c)) (snd (call ctl t xi ci))).

(** The steps of a batch run and of the run of its entry [i]. *)
Definition entry_steps (n i : nat) (p q : tensor S * tensor S) : Prop :=
  entry_of 4 n i (fst p) (fst q) /\ entry_of 2 n i (snd p) (snd q).

End BatchEntry.

(* ================================================================== *)
(** ** Dimensions that follow each other in memory *)

Section Chains.

(** Old dimensions, innermost first, that lie one after the other in
    memory: the stride of each is the number of entries of those before it. *)
Fixpoint chain (tn : nat) (olds : list (nat * nat)) : Prop :=
  match olds with
  | [] => True
  | (sz, _) :: rest =>
      match rest with
      | [] => True
      | (_, st') :: _ => st' = tn * sz /\ chain (tn * sz) rest
      end
  end.

Definition sizes (olds : list (nat * nat)) : list nat := map fst olds.

End Chains.

(* ================================================================== *)
(** ** The gradient mode *)

(** [rollout] above computes values and leaves the recording of gradients
    out: its [no_grad] is the identity.  This section puts the recording
    back, as far as a program can observe it: the gradient mode of the
    library ([torch.is_grad_enabled()]), which [with torch.no_grad():]
    switches off and puts back, and the flag [requires_grad] of every tensor.
    A controller is called with the mode in force and sees the flag of the
    state it is given, as a Python controller does. *)

Section Autograd.
Context {S : Type} {Sc : Scalar S}.

(** A tensor with its flag [requires_grad]. *)
Record gtensor : Type := mkG {
  value : tensor S;
  requires_grad : bool
}.

(** The result of a differentiable operation requires a gradient when the
    mode is on and one of the operands does.  The library computes the same
    numbers whether it records or not: the mode reaches a value only through
    a program that reads it, which in [rollout] is the controller. *)
Definition tracked (mode : bool) (operands : list bool) (v : tensor S) : gtensor :=
  mkG v (mode && existsb (fun r => r) operands).

(** [t.detach().clone()] *)
Definition g_detach_clone (t : tensor S) : gtensor := mkG (detach_clone t) false.

(** [t.repeat(n, 1, 1)] *)
Definition g_repeat3 (mode : bool) (n : nat) (t : gtensor) : result gtensor :=
  v <- repeat3 n (value t) ;;
  Ok (tracked mode [requires_grad t] v).

(** [t[:, lo:hi, :]] *)
Definition g_slice1 (mode : bool) (lo hi : nat) (t : gtensor) : result gtensor :=
  v <- slice1 lo hi (value t) ;;
  Ok (tracked mode [requires_grad t] v).

(** [torch.cat((a, b), dim)] *)
Definition g_cat (mode : bool) (dim : nat) (a b : gtensor) : result gtensor :=
  v <- cat dim (value a) (value b) ;;
  Ok (tracked mode [requires_grad a; requires_grad b] v).

(** [self.forward(t, x, u, w)]: every operation of [forward] is
    differentiable, and its operands are [x], [u], [w], constants, and the
    buffers of the plant, of which [xbar] is a reshape of the tensor given to
    the constructor: [buffers] tells whether that tensor required a
    gradient. *)
Definition g_forward (buffers mode : bool) (self : RobotsSystem S) (t : nat)
    (x u w : gtensor) : result gtensor :=
  v <- forward self t (value x) (value u) (value w) ;;
  Ok (tracked mode [buffers; requires_grad x; requires_grad u; requires_grad w] v).

(** A controller that may consult the gradient mode, the first argument of
    [g_reset] and [g_call], and the flag of the state it is given.  It reads
    the mode; it does not switch it. *)
Record grad_controller (C : Type) : Type := mkGradController {
  g_reset : bool -> C -> C;
  g_call : bool -> nat -> gtensor -> C -> gtensor * C
}.

(** The state a computation acts on: the gradient mode and the controller. *)
Definition world (C : Type) : Type := (bool * C)%type.

Definition is_grad_enabled {C} : Action (world C) bool :=
  fun w => (Ok (fst w), w).

Definition g_do_reset {C} (ctl : grad_controller C) : Action (world C) unit :=
  fun w => (Ok tt, (fst w, g_reset ctl (fst w) (snd w))).

Definition g_do_call {C} (ctl : grad_controller C) (t : nat) (x : gtensor)
    : Action (world C) gtensor :=
  fun w => let (u, c') := g_call ctl (fst w) t x (snd w) in (Ok u, (fst w, c')).

(** [with torch.no_grad(): body]: the mode is switched off on entry and the
    mode found on entry is put back on exit, also when [body] raises. *)
Definition with_no_grad {C A} (body : Action (world C) A) : Action (world C) A :=
  fun w => let (r, w') := body (false, snd w) in (r, (fst w, snd w')).

(** The local variables [x], [u], [x_log], [u_log] of [rollout]. *)
Record glocals : Type := mkGLocals {
  gl_x : gtensor;
  gl_u : gtensor;
  gl_x_log : option gtensor;
  gl_u_log : option gtensor
}.

Fixpoint g_for_range {C} (ts : list nat) (body : nat -> glocals -> Action C glocals)
    (l : glocals) : Action C glocals :=
  match ts with
  | [] => ret l
  | t :: ts' => bindM (body t l) (g_for_range ts' body)
  end.

Notation "x <-- c ;; k" := (bindM c (fun x => k))
  (at level 61, c at next level, right associativity).

(** The body of the two loops of [rollout], lines 125-132 and 136-143, in
    the mode in force. *)
Definition g_loop_body {C} (buffers : bool) (self : RobotsSystem S)
    (ctl : grad_controller C) (data : gtensor) (t : nat) (l : glocals)
    : Action (world C) glocals :=
  mode <-- is_grad_enabled ;;
  w <-- lift (g_slice1 mode t (t + 1) data) ;;
  x <-- lift (g_forward buffers mode self t (gl_x l) (gl_u l) w) ;;
  u <-- g_do_call ctl t x ;;
  if t =? 0 then
    ret (mkGLocals x u (Some x) (Some u))
  else
    xl <-- local (gl_x_log l) ;;
    x_log <-- lift (g_cat mode 1 xl x) ;;
    ul <-- local (gl_u_log l) ;;
    u_log <-- lift (g_cat mode 1 ul u) ;;
    ret (mkGLocals x u (Some x_log) (Some u_log)).

(** [RobotsSystem.rollout(controller, data, train)] with the gradient mode:
    with [train] the loop runs in the mode of the caller, without it the loop
    runs under [torch.no_grad()]. *)
Definition g_rollout {C} (buffers : bool) (self : RobotsSystem S)
    (ctl : grad_controller C) (data : gtensor) (train : bool)
    : Action (world C) (gtensor * option gtensor * gtensor) :=
  _ <-- g_do_reset ctl ;;
  mode <-- is_grad_enabled ;;
  n <-- lift (shape_at (value data) 0) ;;
  x <-- lift (g_repeat3 mode n (g_detach_clone (x_init self))) ;;
  n <-- lift (shape_at (value data) 0) ;;
  u <-- lift (g_repeat3 mode n (g_detach_clone (u_init self))) ;;
  l <-- (if train then
           T <-- lift (shape_at (value data) 1) ;;
           g_for_range (seq 0 T) (g_loop_body buffers self ctl data)
                       (mkGLocals x u None None)
         else
           with_no_grad (
             T <-- lift (shape_at (value data) 1) ;;
             g_for_range (seq 0 T) (g_loop_body buffers self ctl data)
                         (mkGLocals x u None None))) ;;
  _ <-- g_do_reset ctl ;;
  x_log <-- local (gl_x_log l) ;;
  u_log <-- local (gl_u_log l) ;;
  ret (x_log, None, u_log).

(** The numbers of what [g_rollout] returns: the values of the two logs, or
    the exception. *)
Definition values (r : result (gtensor * option gtensor * gtensor))
    : result (tensor S * option (tensor S) * tensor S) :=
  match r with
  | Ok (x_log, _, u_log) => Ok (value x_log, None, value u_log)
  | Raise e => Raise e
  end.

(** A controller that does not look at the gradient mode nor at the flag of
    the state: the value of its answer and its next state are those it gives
    with the mode off to the state without the flag. *)
Definition grad_blind {C} (ctl : grad_controller C) : Prop :=
  forall (mode : bool) (t : nat) (x : gtensor) (c : C),
    value (fst (g_call ctl mode t x c))
    = value (fst (g_call ctl false t (mkG (value x) false) c))
    /\ snd (g_call ctl mode t x c)
       = snd (g_call ctl false t (mkG (value x) false) c).

(** The controller of the value-level [rollout] that a controller is when
    [reset] is called in the mode [mode] and the flags are left out. *)
Definition forget {C} (mode : bool) (ctl : grad_controller C) : controller S C :=
  mkController (g_reset ctl mode)
               (fun t x c =>
                  (value (fst (g_call ctl false t (mkG x false) c)),
                   snd (g_call ctl false t (mkG x false) c))).

(** The value-level reading of a computation with the gradient mode: started
    in the mode [mode], [a] returns what [a0] returns once [f] has removed
    the flags, leaves the controller as [a0] does, and leaves the mode as it
    found it. *)
Definition map_result {A B} (f : A -> B) (r : result A) : result B :=
  match r with
  | Ok a => Ok (f a)
  | Raise e => Raise e
  end.

Definition erases {C A A0} (mode : bool) (a0 : Action C A0) (a : Action (world C) A)
    (f : A -> A0) : Prop :=
  forall c : C,
    a0 c = (map_result f (fst (a (mode, c))), snd (snd (a (mode, c))))
    /\ fst (snd (a (mode, c))) = mode.

Definition erase_locals (l : glocals) : locals S :=
  mkLocals (value (gl_x l)) (value (gl_u l))
           (option_map value (gl_x_log l)) (option_map value (gl_u_log l)).

Definition erase_logs (r : gtensor * option gtensor * gtensor)
    : tensor S * option (tensor S) * tensor S :=
  (value (fst (fst r)), None, value (snd r)).

End Autograd.

Arguments gtensor S : clear implicits.
Arguments glocals S : clear implicits.
Arguments grad_controller S C : clear implicits.

(* ================================================================== *)
(** ** Inputs on which the model is run *)

Definition qc (x : Q) : Qc := Q2Qc x.

(** An equilibrium at position [(1, 2)], at rest. *)
Definition demo_xbar : tensor Qc := of_list [qc 1; qc 2; qc 0; qc 0].

(** A controller that answers zero and counts its resets and its calls. *)
Definition zero_controller : controller Qc (nat * nat) :=
  mkController (fun c => (Datatypes.S (fst c), snd c))
               (fun _ x c => (zeros [hd 0 (shape x); 1; 2], (fst c, Datatypes.S (snd c)))).

Definition demo_states : list (list Qc) :=
  [[qc 1; qc 2; qc 3; qc 4]; [qc 0; qc 1; qc 0; qc 2]].
Definition demo_inputs : list (list Qc) := [[qc 1; qc 0]; [qc 0; qc 1]].

(** Two states at rest, and noise for two entries. *)
Definition demo_rest_states : list (list Qc) :=
  [[qc 1; qc 2; qc 0; qc 0]; [qc 3; qc 1; qc 0; qc 0]].
Definition demo_noise_rows : list (list Qc) :=
  [[qc 1; qc 0; qc 0; qc 1]; [qc 0; qc 2; qc 1; qc 0]].

(** A controller that answers zero, counts its calls, and forgets the count
    when it is reset. *)
Definition forgetful_controller : controller Qc nat :=
  mkController (fun _ => 0)
               (fun _ x c => (zeros [hd 0 (shape x); 1; 2], Datatypes.S c)).

(** A controller that answers zero and counts its calls; its answer requires
    a gradient whenever gradients are recorded, as the output of a
    parametrised policy does. *)
Definition steady_controller : grad_controller Qc nat :=
  mkGradController
    (fun _ _ => 0)
    (fun mode _ x c => (mkG (zeros [hd 0 (shape (value x)); 1; 2]) mode, Datatypes.S c)).

(** A controller that pushes with force one on both axes while gradients are
    recorded, and does not push otherwise:
    [torch.ones(n, 1, 2) if torch.is_grad_enabled() else torch.zeros(n, 1, 2)]. *)
Definition moody_controller : grad_controller Qc unit :=
  mkGradController
    (fun _ c => c)
    (fun mode _ x c =>
       (mkG (if mode then ones [hd 0 (shape (value x)); 1; 2]
             else zeros [hd 0 (shape (value x)); 1; 2]) false, c)).

(* ================================================================== *)
(** * Facts *)

(** ** Lists cut into rows *)

Section ListFacts.
Context {A : Type}.

Lemma chunks_length (k n : nat) (d : list A) : length (chunks k n d) = n.
Proof. revert d; induction n as [|n IH]; intros d; simpl; [reflexivity | now rewrite IH]. Qed.

Lemma chunks_concat (k : nat) (rows : list (list A)) (rest : list A) :
  uniform k rows ->
  chunks k (length rows) (concat rows ++ rest) = rows.
Proof.
  induction 1 as [|r rows Hr _ IH]; simpl; [reflexivity|].
  rewrite <- app_assoc, <- Hr, firstn_app, firstn_all, Nat.sub_diag.
  simpl. rewrite app_nil_r, skipn_app, skipn_all, Nat.sub_diag. simpl.
  rewrite Hr. now rewrite IH.
Qed.

Lemma chunks_concat_exact (k n : nat) (rows : list (list A)) :
  uniform k rows -> n = length rows ->
  chunks k n (concat rows) = rows.
Proof.
  intros U ->. rewrite <- (app_nil_r (concat rows)). now apply chunks_concat.
Qed.

Lemma concat_uniform_length (k : nat) (rows : list (list A)) :
  uniform k rows -> length (concat rows) = length rows * k.
Proof.
  induction 1 as [|r rows Hr _ IH]; simpl; [reflexivity|].
  rewrite length_app, IH, Hr. reflexivity.
Qed.

Lemma chunks_uniform (k n : nat) (d : list A) :
  length d = n * k -> uniform k (chunks k n d).
Proof.
  revert d; induction n as [|n IH]; intros d Hd; simpl; constructor.
  - rewrite length_firstn. simpl in Hd. lia.
  - apply IH. rewrite length_skipn. simpl in Hd. lia.
Qed.

Lemma concat_chunks (k n : nat) (d : list A) :
  length d = n * k -> concat (chunks k n d) = d.
Proof.
  revert d; induction n as [|n IH]; intros d Hd; simpl.
  - destruct d; [reflexivity | discriminate].
  - rewrite IH.
    + apply firstn_skipn.
    + rewrite length_skipn. simpl in Hd. lia.
Qed.

Lemma concat_repeat_map {X : Type} (d : list A) (xs : list X) :
  concat (repeat d (length xs)) = concat (map (fun _ => d) xs).
Proof. induction xs as [|x xs IH]; simpl; [reflexivity | now rewrite IH]. Qed.

End ListFacts.

Section Map2Facts.
Context {A B C : Type}.

Lemma map2_app (f : A -> B -> C) (l1 l2 : list A) (m1 m2 : list B) :
  length l1 = length m1 ->
  map2 f (l1 ++ l2) (m1 ++ m2) = map2 f l1 m1 ++ map2 f l2 m2.
Proof.
  revert m1; induction l1 as [|a l1 IH]; intros [|b m1] H; simpl in *;
    try discriminate; [reflexivity|].
  f_equal. apply IH. lia.
Qed.

Lemma map2_length (f : A -> B -> C) (l : list A) (m : list B) :
  length l = length m -> length (map2 f l m) = length l.
Proof.
  revert m; induction l as [|a l IH]; intros [|b m] H; simpl in *;
    try discriminate; [reflexivity|].
  f_equal. apply IH. lia.
Qed.

(** Broadcasting one row against a batch of rows. *)
Lemma map2_concat_row (f : A -> B -> C) (rows : list (list A)) (d : list B) :
  uniform (length d) rows ->
  map2 f (concat rows) (concat (map (fun _ => d) rows))
  = concat (map (fun r => map2 f r d) rows).
Proof.
  induction 1 as [|r rows Hr _ IH]; simpl; [reflexivity|].
  rewrite map2_app by exact Hr. now rewrite IH.
Qed.

Lemma map2_row_concat (f : A -> B -> C) (d : list A) (rows : list (list B)) :
  uniform (length d) rows ->
  map2 f (concat (map (fun _ => d) rows)) (concat rows)
  = concat (map (fun r => map2 f d r) rows).
Proof.
  induction 1 as [|r rows Hr _ IH]; simpl; [reflexivity|].
  rewrite map2_app by (symmetry; exact Hr). now rewrite IH.
Qed.

(** Two batches of rows, entry by entry. *)
Lemma map2_concat_concat (f : A -> B -> C) (k : nat)
    (r1 : list (list A)) (r2 : list (list B)) :
  uniform k r1 -> uniform k r2 -> length r1 = length r2 ->
  map2 f (concat r1) (concat r2) = concat (map2 (map2 f) r1 r2).
Proof.
  intros U1; revert r2; induction U1 as [|a r1 Ha _ IH];
    intros [|b r2] U2 H; simpl in *; try discriminate; [reflexivity|].
  inversion U2; subst.
  rewrite map2_app by congruence. rewrite IH; auto.
Qed.

End Map2Facts.

Section ChunkFacts.
Context {A : Type}.

Lemma chunks_app (k m p : nat) (r rest : list A) :
  length r = m * k ->
  chunks k (m + p) (r ++ rest) = chunks k m r ++ chunks k p rest.
Proof.
  revert r; induction m as [|m IH]; intros r Hr; simpl in *.
  - destruct r; [reflexivity | discriminate].
  - rewrite firstn_app, skipn_app.
    replace (k - length r) with 0 by lia. simpl.
    rewrite app_nil_r. f_equal.
    rewrite IH by (rewrite length_skipn; lia). reflexivity.
Qed.

Lemma chunks_nested (k m n : nat) (rows : list (list A)) :
  uniform (m * k) rows -> n = length rows ->
  chunks k (n * m) (concat rows) = concat (map (chunks k m) rows).
Proof.
  intros U ->. induction U as [|r rows Hr _ IH]; simpl; [reflexivity|].
  rewrite chunks_app by exact Hr. now rewrite IH.
Qed.

Lemma uniform_map {X : Type} (k k' : nat) (f : list X -> list A) (rows : list (list X)) :
  (forall r, length r = k -> length (f r) = k') ->
  uniform k rows -> uniform k' (map f rows).
Proof.
  intros Hf U. induction U; simpl; constructor; auto.
Qed.

Lemma uniform_repeat (k n : nat) (r : list A) :
  length r = k -> uniform k (repeat r n).
Proof. intros H. induction n; simpl; constructor; auto. Qed.

Lemma concat_map_map {X Y : Type} (f : A -> Y) (g : X -> list A) (l : list X) :
  map f (concat (map g l)) = concat (map (fun x => map f (g x)) l).
Proof.
  induction l as [|x l IH]; simpl; [reflexivity|].
  now rewrite map_app, IH.
Qed.

Lemma concat_concat_map {X : Type} (g : X -> list (list A)) (l : list X) :
  concat (concat (map g l)) = concat (map (fun x => concat (g x)) l).
Proof.
  induction l as [|x l IH]; simpl; [reflexivity|].
  now rewrite concat_app, IH.
Qed.

End ChunkFacts.

Lemma uniform_map2 {A B C : Type} (k : nat) (f : list A -> list B -> list C)
    (r1 : list (list A)) (r2 : list (list B)) (k1 k2 : nat) :
  (forall a b, length a = k1 -> length b = k2 -> length (f a b) = k) ->
  uniform k1 r1 -> uniform k2 r2 -> uniform k (map2 f r1 r2).
Proof.
  intros Hf U1; revert r2; induction U1 as [|a r1 Ha _ IH];
    intros r2 U2; destruct U2; simpl; constructor; auto.
  apply IH; assumption.
Qed.

Lemma map2_map_l {A A' B C : Type} (f : A' -> B -> C) (g : A -> A')
    (l : list A) (m : list B) :
  map2 f (map g l) m = map2 (fun a b => f (g a) b) l m.
Proof.
  revert m; induction l as [|a l IH]; intros [|b m]; simpl; try reflexivity.
  now rewrite IH.
Qed.

Lemma map2_map_r {A B B' C : Type} (f : A -> B' -> C) (g : B -> B')
    (l : list A) (m : list B) :
  map2 f l (map g m) = map2 (fun a b => f a (g b)) l m.
Proof.
  revert m; induction l as [|a l IH]; intros [|b m]; simpl; try reflexivity.
  now rewrite IH.
Qed.

Lemma map_map2 {A B C D : Type} (g : C -> D) (f : A -> B -> C)
    (l : list A) (m : list B) :
  map g (map2 f l m) = map2 (fun a b => g (f a b)) l m.
Proof.
  revert m; induction l as [|a l IH]; intros [|b m]; simpl; try reflexivity.
  now rewrite IH.
Qed.

Lemma map2_map2_l {A B C D E : Type} (f : C -> D -> E) (g : A -> B -> C)
    (l : list A) (m : list B) (d : list D) :
  map2 f (map2 g l m) d
  = map2 (fun ab x => f (g (fst ab) (snd ab)) x) (combine l m) d.
Proof.
  revert m d; induction l as [|a l IH]; intros [|b m] [|x d]; simpl; try reflexivity.
  now rewrite IH.
Qed.

Lemma map2_ext_in {A B C : Type} (f g : A -> B -> C) (l : list A) (m : list B) :
  (forall a b, In a l -> In b m -> f a b = g a b) ->
  map2 f l m = map2 g l m.
Proof.
  revert m; induction l as [|a l IH]; intros [|b m] H; simpl; try reflexivity.
  f_equal; [apply H; now left | apply IH; intros; apply H; now right].
Qed.

(** ** Broadcasting *)

Section TorchFacts.
Context {S : Type} {Sc : Scalar S}.

Lemma list_eqb_refl (s : list nat) : list_eqb s s = true.
Proof. induction s as [|x s IH]; simpl; [reflexivity | now rewrite Nat.eqb_refl]. Qed.

Lemma list_eqb_eq (a b : list nat) : list_eqb a b = true -> a = b.
Proof.
  revert b; induction a as [|x a IH]; intros [|y b]; simpl; try discriminate; auto.
  intros H. apply andb_prop in H as [H1 H2].
  apply Nat.eqb_eq in H1. f_equal; auto.
Qed.

Lemma expand_same (s : list nat) (d : list S) :
  length d = size_of s -> expand s s d = d.
Proof.
  revert d; induction s as [|n s IH]; intros d Hd; simpl; [reflexivity|].
  rewrite Nat.eqb_refl.
  simpl in Hd.
  assert (U : uniform (size_of s) (chunks (size_of s) n d)) by (apply chunks_uniform; lia).
  rewrite <- (concat_chunks (size_of s) n d) at 2 by lia.
  f_equal.
  induction U as [|r rows Hr _ IHU]; simpl; [reflexivity|].
  rewrite IH by exact Hr. now rewrite IHU.
Qed.

Lemma expand_lead1 (n : nat) (s : list nat) (d : list S) :
  length d = size_of s ->
  expand (1 :: s) (n :: s) d = concat (repeat d n).
Proof.
  intros Hd.
  change (expand (1 :: s) (n :: s) d)
    with (if 1 =? n
          then concat (map (expand s s) (chunks (size_of s) 1 d))
          else concat (repeat (expand s s d) n)).
  destruct (Nat.eqb_spec 1 n) as [<-|_].
  - cbn [chunks map concat repeat].
    rewrite <- Hd, firstn_all, expand_same by exact Hd. reflexivity.
  - rewrite expand_same by exact Hd. reflexivity.
Qed.

Lemma broadcast_dims_refl (s : list nat) : broadcast_dims s s = Some s.
Proof.
  induction s as [|x s IH]; simpl; [reflexivity|].
  now rewrite IH, Nat.eqb_refl.
Qed.

Lemma broadcast_dims_lead1_r (n : nat) (s : list nat) :
  broadcast_dims (n :: s) (1 :: s) = Some (n :: s).
Proof.
  simpl. rewrite broadcast_dims_refl.
  destruct n as [|[|n]]; reflexivity.
Qed.

Lemma broadcast_dims_lead1_l (n : nat) (s : list nat) :
  broadcast_dims (1 :: s) (n :: s) = Some (n :: s).
Proof.
  simpl. rewrite broadcast_dims_refl.
  destruct n as [|[|n]]; reflexivity.
Qed.

Lemma pad_shape_same (s : list nat) : pad_shape (length s) s = s.
Proof. unfold pad_shape. now rewrite Nat.sub_diag. Qed.

Lemma pad_shape_one (s : list nat) : pad_shape (Datatypes.S (length s)) s = 1 :: s.
Proof.
  unfold pad_shape.
  replace (Datatypes.S (length s) - length s) with 1 by lia. reflexivity.
Qed.

(** Two tensors of one shape. *)
Lemma pointwise_same (op : S -> S -> S) (a b : tensor S) :
  shape b = shape a ->
  length (data a) = size_of (shape a) -> length (data b) = size_of (shape a) ->
  pointwise op a b = Ok (fresh (shape a) (map2 op (data a) (data b))).
Proof.
  intros Hs Ha Hb. unfold pointwise, broadcast_shapes.
  rewrite Hs, Nat.max_id, pad_shape_same, broadcast_dims_refl.
  rewrite pad_shape_same, !expand_same by assumption. reflexivity.
Qed.

(** A batch and one item: [(n, ...) op (...)]. *)
Lemma pointwise_item_r (op : S -> S -> S) (a b : tensor S) (n : nat) (s : list nat) :
  shape a = n :: s -> shape b = s ->
  length (data a) = n * size_of s -> length (data b) = size_of s ->
  pointwise op a b
  = Ok (fresh (n :: s) (map2 op (data a) (concat (repeat (data b) n)))).
Proof.
  intros Ha Hb La Lb. unfold pointwise, broadcast_shapes.
  rewrite Ha, Hb.
  rewrite (Nat.max_l (length (n :: s)) (length s)) by (cbn [length]; lia).
  rewrite pad_shape_same.
  cbn [length]. rewrite pad_shape_one, broadcast_dims_lead1_r.
  cbn [length]. rewrite pad_shape_one.
  change (Datatypes.S (length s)) with (length (n :: s)).
  rewrite pad_shape_same, expand_same, expand_lead1 by (try change (size_of (n :: s)) with (n * size_of s); assumption).
  reflexivity.
Qed.

Lemma pointwise_item_l (op : S -> S -> S) (a b : tensor S) (n : nat) (s : list nat) :
  shape a = s -> shape b = n :: s ->
  length (data a) = size_of s -> length (data b) = n * size_of s ->
  pointwise op a b
  = Ok (fresh (n :: s) (map2 op (concat (repeat (data a) n)) (data b))).
Proof.
  intros Ha Hb La Lb. unfold pointwise, broadcast_shapes.
  rewrite Ha, Hb.
  rewrite (Nat.max_r (length s) (length (n :: s))) by (cbn [length]; lia).
  rewrite pad_shape_same.
  cbn [length]. rewrite pad_shape_one, broadcast_dims_lead1_l.
  cbn [length]. rewrite pad_shape_one.
  change (Datatypes.S (length s)) with (length (n :: s)).
  rewrite pad_shape_same, expand_same, expand_lead1 by (try change (size_of (n :: s)) with (n * size_of s); assumption).
  reflexivity.
Qed.

End TorchFacts.

(** ** Views *)

Lemma prod_batch (n d : nat) : size_of [n; 1; d] = n * d.
Proof. unfold size_of; simpl. lia. Qed.

Lemma infer_size_batch (n d : nat) :
  0 < d -> infer_size [-1; 1; Z.of_nat d]%Z (n * d) = Ok [n; 1; d].
Proof.
  intros Hd.
  assert (E1 : (Z.of_nat d =? -1)%Z = false) by (apply Z.eqb_neq; lia).
  assert (E2 : (Z.of_nat d <? -1)%Z = false) by (apply Z.ltb_ge; lia).
  assert (K : known_size [-1; 1; Z.of_nat d]%Z = d).
  { unfold known_size. simpl filter. rewrite E1. simpl.
    rewrite Nat2Z.id. change (Pos.to_nat 1) with 1. lia. }
  assert (F : filter (fun z => (z =? -1)%Z) [-1; 1; Z.of_nat d]%Z = [(-1)%Z]).
  { simpl filter. now rewrite E1. }
  assert (X : existsb (fun z => (z <? -1)%Z) [-1; 1; Z.of_nat d]%Z = false).
  { simpl existsb. now rewrite E2. }
  assert (T1 : (0 <? d) = true) by (apply Nat.ltb_lt; lia).
  assert (T2 : (d =? 0) = false) by (apply Nat.eqb_neq; lia).
  unfold infer_size. rewrite K, F, X.
  change (length [(-1)%Z]) with 1.
  change (1 <? 1) with false. change (1 =? 1) with true.
  rewrite T1, T2, Nat.Div0.mod_mul, Nat.eqb_refl, orb_true_r.
  cbn [andb map].
  rewrite E1. change ((-1 =? -1)%Z) with true. change ((1 =? -1)%Z) with false.
  cbn iota. rewrite Nat.div_mul by lia. rewrite Nat2Z.id. reflexivity.
Qed.

Ltac bool_to_prop :=
  repeat match goal with
         | H : _ || _ = true |- _ => apply orb_true_iff in H; destruct H as [H|H]
         | H : _ || _ = false |- _ => apply orb_false_iff in H; destruct H
         | H : _ && _ = true |- _ => apply andb_true_iff in H; destruct H
         | H : _ && _ = false |- _ => apply andb_false_iff in H; destruct H as [H|H]
         | H : negb _ = true |- _ => apply negb_true_iff in H
         | H : negb _ = false |- _ => apply negb_false_iff in H
         | H : (_ =? _) = true |- _ => apply Nat.eqb_eq in H
         | H : (_ =? _) = false |- _ => apply Nat.eqb_neq in H
         | H : (_ <? _) = true |- _ => apply Nat.ltb_lt in H
         | H : (_ <? _) = false |- _ => apply Nat.ltb_ge in H
         end.

Ltac run_scan :=
  repeat (cbn [scan_chunks fill_chunk];
          match goal with
          | |- context [if ?c then _ else _] => destruct c eqn:?
          end);
  cbn [scan_chunks fill_chunk];
  first [ eexists; split; reflexivity
        | exfalso; bool_to_prop; nia ].

Lemma compute_stride_batch (n d s0 s1 s2 : nat) :
  0 < d ->
  exists st, compute_stride [n; 1; d] [s0; s1; s2] [n; 1; d] = Some st
             /\ length st = 3.
Proof.
  intros Hd. unfold compute_stride.
  rewrite prod_batch, list_eqb_refl.
  destruct (Nat.eqb_spec (n * d) 0) as [_|Hn]; [eexists; split; reflexivity|].
  assert (0 < n) by (destruct n; simpl in Hn; lia).
  cbn [rev combine app last].
  run_scan.
Qed.

Lemma compute_stride_pairs (n s0 s1 s2 : nat) :
  exists st, compute_stride [n; 1; 4] [s0; s1; s2] [n; 2; 2] = Some st
             /\ length st = 3.
Proof.
  unfold compute_stride.
  rewrite prod_batch.
  destruct (Nat.eqb_spec (n * 4) 0) as [_|Hn].
  { destruct (list_eqb _ _); eexists; split; reflexivity. }
  assert (0 < n) by (destruct n; simpl in Hn; lia).
  cbn [rev combine app last].
  run_scan.
Qed.

(** ** Operations on batches *)

Section BatchFacts.
Context {S : Type} {Sc : Scalar S}.

Lemma batched_fresh (s : list nat) (rows : list (list S)) :
  uniform (size_of s) rows -> batched s rows (fresh (length rows :: s) (concat rows)).
Proof. intros U. repeat split; assumption. Qed.

Lemma batched_length (s : list nat) (rows : list (list S)) (t : tensor S) :
  batched s rows t -> length (data t) = length rows * size_of s.
Proof. intros (_ & -> & U). now apply concat_uniform_length. Qed.

Lemma view_batch (d : nat) (rows : list (list S)) (t : tensor S) :
  0 < d -> batched [1; d] rows t -> length (strides t) = 3 ->
  exists st, view [-1; 1; Z.of_nat d]%Z t = Ok (mkT [length rows; 1; d] st (data t))
             /\ length st = 3.
Proof.
  intros Hd (Hs & _ & _) Hst. unfold view, numel. rewrite Hs.
  rewrite prod_batch, infer_size_batch by exact Hd. cbn [bind].
  destruct (strides t) as [|s0 [|s1 [|s2 [|? ?]]]]; try discriminate.
  destruct (compute_stride_batch (length rows) s0 s1 s2 Hd) as (st & -> & L).
  now exists st.
Qed.

Lemma infer_size_pairs (n : nat) :
  infer_size [-1; 2; 2]%Z (n * 4) = Ok [n; 2; 2].
Proof.
  unfold infer_size, known_size. cbn [filter existsb map size_of fold_right length
    negb Z.eqb Z.ltb Z.compare Pos.eqb Pos.compare Pos.compare_cont orb andb Z.to_nat Pos.to_nat
    Pos.iter_op Nat.add Nat.mul Nat.ltb Nat.leb Nat.eqb].
  rewrite Nat.Div0.mod_mul, Nat.div_mul by lia.
  rewrite orb_true_r. reflexivity.
Qed.

Lemma view_pairs (rows : list (list S)) (t : tensor S) :
  batched [1; 4] rows t -> length (strides t) = 3 ->
  exists st, view [-1; 2; 2]%Z t = Ok (mkT [length rows; 2; 2] st (data t)).
Proof.
  intros (Hs & _ & _) Hst. unfold view, numel. rewrite Hs.
  rewrite prod_batch, infer_size_pairs. cbn [bind].
  destruct (strides t) as [|s0 [|s1 [|s2 [|? ?]]]]; try discriminate.
  destruct (compute_stride_pairs (length rows) s0 s1 s2) as (st & -> & L).
  now exists st.
Qed.

(** Pointwise operations on batches. *)
Lemma pointwise_batch_item (op : S -> S -> S) (s : list nat)
    (rows : list (list S)) (a b : tensor S) :
  batched s rows a -> shape b = s -> length (data b) = size_of s ->
  pointwise op a b
  = Ok (fresh (length rows :: s) (concat (map (fun r => map2 op r (data b)) rows))).
Proof.
  intros Ha Hb Lb. pose proof (batched_length Ha) as La.
  destruct Ha as (Hs & Hd & U).
  rewrite (pointwise_item_r op a b Hs Hb La Lb).
  rewrite Hd, concat_repeat_map, map2_concat_row by (now rewrite Lb).
  reflexivity.
Qed.

Lemma pointwise_item_batch (op : S -> S -> S) (s : list nat)
    (rows : list (list S)) (a b : tensor S) :
  shape a = s -> length (data a) = size_of s -> batched s rows b ->
  pointwise op a b
  = Ok (fresh (length rows :: s) (concat (map (fun r => map2 op (data a) r) rows))).
Proof.
  intros Ha La Hb. pose proof (batched_length Hb) as Lb.
  destruct Hb as (Hs & Hd & U).
  rewrite (pointwise_item_l op a b Ha Hs La Lb).
  rewrite Hd, concat_repeat_map, map2_row_concat by (now rewrite La).
  reflexivity.
Qed.

Lemma pointwise_batch_batch (op : S -> S -> S) (s : list nat)
    (r1 r2 : list (list S)) (a b : tensor S) :
  batched s r1 a -> batched s r2 b -> length r1 = length r2 ->
  pointwise op a b
  = Ok (fresh (length r1 :: s) (concat (map2 (map2 op) r1 r2))).
Proof.
  intros Ha Hb L. pose proof (batched_length Ha) as La.
  pose proof (batched_length Hb) as Lb.
  destruct Ha as (Hsa & Hda & Ua), Hb as (Hsb & Hdb & Ub).
  rewrite pointwise_same.
  - rewrite Hsa, Hda, Hdb. now rewrite (map2_concat_concat op Ua Ub L).
  - now rewrite Hsa, Hsb, L.
  - rewrite Hsa. exact La.
  - rewrite Hsa, Lb, L. reflexivity.
Qed.

(** [F.linear] on a batch of rows. *)
Lemma linear_batch (i o : nat) (rows : list (list S)) (x w : tensor S) :
  batched [1; i] rows x -> shape w = [o; i] ->
  linear x w
  = Ok (fresh [length rows; 1; o]
              (concat (map (fun r => map (dot r) (chunks i o (data w))) rows))).
Proof.
  intros (Hs & Hd & U) Hw. unfold linear. rewrite Hw, Hs, Hd.
  cbn [rev app]. rewrite Nat.eqb_refl.
  rewrite chunks_concat_exact.
  - reflexivity.
  - revert U. unfold size_of; simpl. now rewrite Nat.add_0_r, Nat.mul_1_r.
  - unfold size_of; simpl. lia.
Qed.

Lemma batched_intro (s : list nat) (rows : list (list S)) (n : nat) (st : list nat) :
  n = length rows -> uniform (size_of s) rows ->
  batched s rows (mkT (n :: s) st (concat rows)).
Proof. intros -> U. repeat split; assumption. Qed.

End BatchFacts.

(** Cutting a list of known length into its entries. *)
Ltac explode l :=
  repeat (destruct l as [|? l]; try discriminate).

(** The side condition of the batch lemmas: a fresh tensor made of [rows]. *)
Ltac batch_side U :=
  unfold fresh; apply batched_intro;
  [rewrite ?length_map; first [reflexivity | congruence | lia] | exact U].

(** ** The state-dependent matrix *)

Section PlantFacts.
Context {S : Type} {Sc : Scalar S}.

Lemma norm_last_batch (m d : nat) (rows : list (list S)) (t : tensor S) :
  batched [m; d] rows t ->
  norm_last t
  = Ok (fresh [length rows; m; 1]
              (concat (map (fun r => map norm2 (chunks d m r)) rows))).
Proof.
  intros (Hs & Hd & U). unfold norm_last. rewrite Hs, Hd. cbn [rev app].
  replace (size_of [m; length rows]) with (length rows * m) by (unfold size_of; simpl; lia).
  rewrite (@chunks_nested S d m (length rows) rows).
  - now rewrite concat_map_map.
  - revert U. unfold size_of; simpl. now rewrite Nat.mul_1_r.
  - reflexivity.
Qed.

Lemma kron_batch (n m p q : nat) (rows : list (list S)) (a b : tensor S) :
  batched [n; m] rows a -> shape b = [p; q] ->
  kron a b
  = Ok (fresh [length rows; n * p; m * q]
              (concat (map (fun blk => concat (kron_rows (chunks m n blk)
                                                         (chunks q p (data b))))
                           rows))).
Proof.
  intros (Hs & Hd & U) Hb. unfold kron. rewrite Hs, Hb, Hd.
  rewrite chunks_concat_exact; [reflexivity| |reflexivity].
  revert U. unfold size_of; simpl. now rewrite Nat.mul_1_r.
Qed.

Lemma diag_embed_batch (n : nat) (rows : list (list S)) (t : tensor S) :
  batched [n] rows t ->
  diag_embed t
  = Ok (fresh [length rows; n; n] (concat (map (fun v => concat (diag_rows v)) rows))).
Proof.
  intros (Hs & Hd & U). unfold diag_embed. rewrite Hs, Hd. cbn [rev app].
  rewrite chunks_concat_exact; [reflexivity| |unfold size_of; simpl; lia].
  revert U. unfold size_of; simpl. now rewrite Nat.mul_1_r.
Qed.

Lemma transpose12_batch (n m : nat) (rows : list (list S)) (t : tensor S) :
  batched [n; m] rows t ->
  exists st,
    transpose12 t
    = Ok (mkT [length rows; m; n] st
              (concat (map (fun blk => concat (columns m (chunks m n blk))) rows))).
Proof.
  intros (Hs & Hd & U). unfold transpose12. rewrite Hs, Hd.
  rewrite chunks_concat_exact; [eexists; reflexivity| |reflexivity].
  revert U. unfold size_of; simpl. now rewrite Nat.mul_1_r.
Qed.

Lemma bmm_batch (n m p : nat) (r1 r2 : list (list S)) (a b : tensor S) :
  batched [n; m] r1 a -> batched [m; p] r2 b -> length r1 = length r2 ->
  bmm a b
  = Ok (fresh [length r1; n; p]
              (concat (map2 (fun ma mb =>
                               concat (map (fun r => map (dot r) (columns p (chunks p m mb)))
                                           (chunks m n ma)))
                            r1 r2))).
Proof.
  intros (Hsa & Hda & Ua) (Hsb & Hdb & Ub) L. unfold bmm.
  rewrite Hsa, Hsb, Hda, Hdb, L, !Nat.eqb_refl. cbn [andb].
  rewrite !chunks_concat_exact; try reflexivity; try (symmetry; exact L).
  - revert Ub. unfold size_of; simpl. now rewrite Nat.mul_1_r.
  - revert Ua. unfold size_of; simpl. now rewrite Nat.mul_1_r.
Qed.

Lemma A_nonlin_batch (self : RobotsSystem S) (xs : list (list S)) (x : tensor S) :
  canonical_plant self -> linear_plant self = false ->
  batched [1; 4] xs x -> length (strides x) = 3 ->
  A_nonlin self x
  = Ok (fresh [length xs; 4; 4] (concat (map (fun r => concat (A_of self r)) xs))).
Proof.
  intros (_ & _ & _ & _ & HA & LA & _ & _ & HM & LM & Hb2) Hlin Hx Hst.
  destruct (Hb2 Hlin) as (f & Hf).
  unfold A_nonlin. rewrite Hlin. cbn [negb assert bind].
  destruct (view_pairs Hx Hst) as (st & ->). cbn [bind].
  destruct Hx as (Hs & Hd & U).
  change (size_of [1; 4]) with 4 in U.
  rewrite Hd.
  set (l1 := map (fun r => map2 smul r (data (mask self))) xs).
  assert (U1 : uniform 4 l1).
  { eapply uniform_map; [|exact U]. intros r Hr.
    rewrite map2_length; [exact Hr | rewrite Hr, LM; reflexivity]. }
  set (l2 := map (fun r => map norm2 (chunks 2 2 r)) l1).
  assert (U2 : uniform 2 l2).
  { eapply uniform_map; [|exact U1]. intros r Hr.
    rewrite length_map, chunks_length. reflexivity. }
  set (l3 := map (fun blk => concat (kron_rows (chunks 1 2 blk)
                                              (chunks 1 2 (data (ones [2; 1]))))) l2).
  assert (U3 : uniform 4 l3).
  { eapply uniform_map; [|exact U2]. intros r Hr. explode r. reflexivity. }
  set (g := fun v : list S =>
              map (fun a => smul (h self) a)
                  (map (fun a => smul (sdiv (sopp f) (mass self)) a)
                       (concat (diag_rows v)))).
  assert (U4 : uniform 16 (map g l3)).
  { eapply uniform_map; [|exact U3]. intros r Hr. explode r. reflexivity. }
  assert (N1 : length l1 = length xs) by (unfold l1; now rewrite length_map).
  assert (N2 : length l2 = length xs) by (unfold l2; now rewrite length_map).
  assert (N3 : length l3 = length xs) by (unfold l3; now rewrite length_map).
  unfold mul. erewrite pointwise_batch_item with (s := [2; 2]);
    [|batch_side U|exact HM|exact LM].
  cbn [bind]. fold l1.
  erewrite norm_last_batch; [|batch_side U1].
  cbn [bind]. fold l2.
  erewrite kron_batch with (p := 2) (q := 1); [|batch_side U2|reflexivity].
  cbn [bind]. fold l3. rewrite Hf. cbn [bind].
  unfold squeeze_last. cbn [shape fresh rev app Nat.mul Nat.add data bind].
  erewrite diag_embed_batch with (n := 4); [|batch_side U3].
  cbn [bind].
  unfold add, scale_l. cbn [shape data fresh].
  rewrite !concat_map_map. fold g.
  erewrite pointwise_item_batch with (s := [4; 4]); [|exact HA|exact LA|batch_side U4].
  unfold l3, l2, l1, g.
  rewrite !length_map, !map_map.
  f_equal. f_equal. f_equal.
  apply map_ext_in. intros r Hr.
  pose proof (proj1 (Forall_forall _ _) U r Hr) as L. cbv beta in L.
  unfold A_of, correction, friction_speed, pair_norms, friction_gain, rows_of.
  rewrite Hlin, Hf, HA.
  destruct (data (A_lin self)) as [|a0 lA]; [discriminate|].
  explode lA.
  destruct (data (mask self)) as [|m0 lM]; [discriminate|].
  explode lM. explode r.
  reflexivity.
Qed.

End PlantFacts.

(** ** One step of the plant *)

Section StepFacts.
Context {S : Type} {Sc : Scalar S}.

Lemma map2_map_same {X A B C : Type} (f : A -> B -> C) (g : X -> A) (g' : X -> B)
    (l : list X) :
  map2 f (map g l) (map g' l) = map (fun x => f (g x) (g' x)) l.
Proof. induction l as [|x l IH]; simpl; [reflexivity | now rewrite IH]. Qed.

Lemma noiseless_forward_batch (self : RobotsSystem S) (t : nat)
    (xs us : list (list S)) (x u : tensor S) :
  canonical_plant self ->
  batched [1; 4] xs x -> length (strides x) = 3 ->
  batched [1; 2] us u -> length (strides u) = 3 ->
  length xs = length us ->
  noiseless_forward self t x u
  = Ok (fresh [length xs; 1; 4] (concat (map2 (dynamics_row self) xs us))).
Proof.
  intros CP Hx Sx Hu Su L.
  pose proof CP as (Hsd & Hid & Hxb & Lxb & HA & LA & HB & LB & HM & LM & Hb2).
  unfold noiseless_forward. rewrite Hsd, Hid.
  destruct (view_batch (d := 4) ltac:(lia) Hx Sx) as (stx & -> & Lstx).
  destruct (view_batch (d := 2) ltac:(lia) Hu Su) as (stu & -> & Lstu).
  cbn [bind].
  pose proof Hx as (_ & Dx & Ux). pose proof Hu as (_ & Du & Uu).
  change (size_of [1; 4]) with 4 in Ux. change (size_of [1; 2]) with 2 in Uu.
  rewrite Dx, Du.
  set (dxs := map (fun r => map2 ssub r (data (xbar self))) xs).
  assert (Udx : uniform 4 dxs).
  { eapply uniform_map; [|exact Ux]. intros r Hr.
    rewrite map2_length; [exact Hr | rewrite Hr, Lxb; reflexivity]. }
  assert (Ndx : length dxs = length xs) by (unfold dxs; now rewrite length_map).
  set (fus := map (fun r => map (dot r) (chunks 2 4 (data (B self)))) us).
  assert (Ufu : uniform 4 fus).
  { eapply uniform_map; [|exact Uu]. intros r Hr.
    rewrite length_map, chunks_length. reflexivity. }
  assert (Nfu : length fus = length xs) by (unfold fus; now rewrite length_map).
  assert (Efu : linear (mkT [length us; 1; 2] stu (concat us)) (B self)
                = Ok (fresh [length xs; 1; 4] (concat fus))).
  { erewrite linear_batch with (i := 2) (o := 4); [|batch_side Uu|exact HB].
    now rewrite L. }
  unfold sub, add.
  erewrite pointwise_batch_item with (s := [1; 4]);
    [|batch_side Ux|exact Hxb|exact Lxb].
  fold dxs. cbn [bind].
  destruct (linear_plant self) eqn:Hlin.
  - (* linear plant *)
    set (fxs := map (fun r => map (dot r) (chunks 4 4 (data (A_lin self)))) dxs).
    assert (Ufx : uniform 4 fxs).
    { eapply uniform_map; [|exact Udx]. intros r Hr.
      rewrite length_map, chunks_length. reflexivity. }
    assert (Nfx : length fxs = length xs) by (unfold fxs; now rewrite length_map).
    erewrite linear_batch with (i := 4) (o := 4); [|batch_side Udx|exact HA].
    rewrite Ndx. fold fxs. cbn [bind]. rewrite Efu. cbn [bind].
    erewrite pointwise_batch_batch with (s := [1; 4]);
      [|batch_side Ufx|batch_side Ufu|idtac].
    2:{ congruence. }
    rewrite Nfx. cbn [bind].
    erewrite pointwise_batch_item with (s := [1; 4]); [| |exact Hxb|exact Lxb].
    2:{ unfold fresh. apply batched_intro.
        - rewrite map2_length; congruence.
        - eapply uniform_map2; [|exact Ufx|exact Ufu].
          intros a b Ha Hb. rewrite map2_length; [exact Ha | now rewrite Ha, Hb]. }
    rewrite map2_length by congruence. rewrite Nfx.
    f_equal. f_equal. f_equal.
    unfold fxs, fus, dxs.
    rewrite map_map2, !map_map, map2_map_l, map2_map_r.
    apply map2_ext_in. intros a b _ _.
    unfold dynamics_row, A_of, rows_of. rewrite Hlin, HA, HB. reflexivity.
  - (* nonlinear plant *)
    erewrite A_nonlin_batch; [|exact CP|exact Hlin|batch_side Ux|exact Lstx].
    cbn [bind].
    set (As := map (fun r => concat (A_of self r)) xs).
    assert (UA : uniform 16 As).
    { eapply uniform_map; [|exact Ux]. intros r Hr.
      unfold A_of, rows_of, correction, friction_speed, pair_norms.
      rewrite Hlin, HA.
      destruct (data (A_lin self)) as [|a0 lA]; [discriminate|]. explode lA.
      destruct (data (mask self)) as [|m0 lM]; [discriminate|]. explode lM.
      explode r. reflexivity. }
    assert (NA : length As = length xs) by (unfold As; now rewrite length_map).
    destruct (@transpose12_batch S Sc 4 4 As (fresh [length xs; 4; 4] (concat As)))
      as (stT & ->); [batch_side UA|].
    cbn [bind].
    set (Ats := map (fun blk => concat (columns 4 (chunks 4 4 blk))) As).
    assert (UAt : uniform 16 Ats).
    { eapply uniform_map; [|exact UA]. intros r Hr. explode r. reflexivity. }
    assert (NAt : length Ats = length xs) by (unfold Ats; now rewrite length_map).
    erewrite bmm_batch with (n := 1) (m := 4) (p := 4);
      [|batch_side Udx|batch_side UAt|congruence].
    cbn [bind]. rewrite Efu. cbn [bind].
    set (fxs := map2 _ dxs Ats).
    assert (Ufx : uniform 4 fxs).
    { unfold fxs. eapply uniform_map2; [|exact Udx|exact UAt].
      intros a b Ha Hb. explode a. explode b. reflexivity. }
    assert (Nfx : length fxs = length xs) by (unfold fxs; rewrite map2_length; congruence).
    rewrite Ndx.
    erewrite pointwise_batch_batch with (s := [1; 4]);
      [|batch_side Ufx|batch_side Ufu|congruence].
    rewrite Nfx. cbn [bind].
    erewrite pointwise_batch_item with (s := [1; 4]); [| |exact Hxb|exact Lxb].
    2:{ unfold fresh. apply batched_intro.
        - rewrite map2_length; congruence.
        - eapply uniform_map2; [|exact Ufx|exact Ufu].
          intros a b Ha Hb. rewrite map2_length; [exact Ha | now rewrite Ha, Hb]. }
    rewrite map2_length by congruence. rewrite Nfx.
    f_equal. f_equal. f_equal.
    unfold fxs, fus, dxs, Ats, As.
    rewrite map_map, map2_map_same.
    rewrite map_map2, map2_map_l, map2_map_r.
    apply map2_ext_in. intros a b Ha _.
    pose proof (proj1 (Forall_forall _ _) Ux a Ha) as La. cbv beta in La.
    unfold dynamics_row. f_equal. f_equal; [|unfold rows_of; now rewrite HB].
    unfold A_of, rows_of, correction, friction_speed, pair_norms.
    rewrite Hlin, HA.
    destruct (data (A_lin self)) as [|a0 lA]; [discriminate|]. explode lA.
    destruct (data (mask self)) as [|m0 lM]; [discriminate|]. explode lM.
    destruct (data (xbar self)) as [|x0 lx]; [discriminate|]. explode lx.
    explode a. reflexivity.
Qed.

End StepFacts.

(** ** Slices and logs *)

Section LoopFacts.
Context {S : Type} {Sc : Scalar S}.

Lemma dynamics_row_length (self : RobotsSystem S) (x u : list S) :
  canonical_plant self -> length x = 4 -> length u = 2 ->
  length (dynamics_row self x u) = 4.
Proof.
  intros (_ & _ & _ & Lxb & HA & LA & HB & LB & HM & LM & _) Hx Hu.
  unfold dynamics_row, A_of, rows_of, correction, friction_speed, pair_norms.
  rewrite HA, HB.
  destruct (data (A_lin self)) as [|a0 lA]; [discriminate|]. explode lA.
  destruct (data (B self)) as [|b0 lB]; [discriminate|]. explode lB.
  destruct (data (mask self)) as [|m0 lM]; [discriminate|]. explode lM.
  destruct (data (xbar self)) as [|x0 lx]; [discriminate|]. explode lx.
  explode x. explode u.
  destruct (linear_plant self); reflexivity.
Qed.

Lemma forward_batch (self : RobotsSystem S) (t : nat)
    (xs us ws : list (list S)) (x u w : tensor S) :
  canonical_plant self ->
  batched [1; 4] xs x -> length (strides x) = 3 ->
  batched [1; 2] us u -> length (strides u) = 3 ->
  batched [1; 4] ws w -> length (strides w) = 3 ->
  length xs = length us -> length xs = length ws ->
  forward self t x u w
  = Ok (fresh [length xs; 1; 4]
              (concat (map2 (map2 sadd) (map2 (dynamics_row self) xs us) ws))).
Proof.
  intros CP Hx Sx Hu Su Hw Sw L1 L2.
  unfold forward.
  rewrite (noiseless_forward_batch t CP Hx Sx Hu Su L1). cbn [bind].
  destruct CP as (Hsd & CP'). rewrite Hsd.
  destruct (view_batch (d := 4) ltac:(lia) Hw Sw) as (stw & -> & Lstw).
  cbn [bind].
  pose proof Hx as (_ & _ & Ux). pose proof Hu as (_ & _ & Uu).
  pose proof Hw as (_ & Dw & Uw).
  change (size_of [1; 4]) with 4 in Ux, Uw. change (size_of [1; 2]) with 2 in Uu.
  assert (Uf : uniform 4 (map2 (dynamics_row self) xs us)).
  { clear - Ux Uu Hsd CP'. revert us Uu.
    induction Ux as [|a xs Ha _ IH]; intros us Uu; destruct Uu; simpl; constructor.
    - apply dynamics_row_length; [split; assumption|assumption|assumption].
    - apply IH. assumption. }
  assert (Nf : length (map2 (dynamics_row self) xs us) = length xs)
    by (rewrite map2_length; congruence).
  unfold add. rewrite Dw.
  erewrite pointwise_batch_batch with (s := [1; 4]);
    [|batch_side Uf|batch_side Uw|congruence].
  now rewrite Nf.
Qed.

(** [data[:, t:t+1, :]] of a batch of noise sequences. *)
Lemma slice1_batch (T d t : nat) (ws : list (list S)) (w : tensor S) :
  batched [T; d] ws w -> t < T ->
  slice1 t (t + 1) w
  = Ok (mkT [length ws; 1; d] (strides w)
            (concat (map (fun blk => firstn d (skipn (t * d) blk)) ws))).
Proof.
  intros (Hs & Hd & U) Ht. unfold slice1. rewrite Hs, Hd.
  replace (Nat.min (t + 1) T - Nat.min t T) with 1 by lia.
  replace (Nat.min t T) with t by lia.
  replace (size_of [d]) with d by (unfold size_of; simpl; lia).
  rewrite Nat.mul_1_l, chunks_concat_exact; [reflexivity| |reflexivity].
  revert U. unfold size_of; simpl. now rewrite Nat.mul_1_r.
Qed.

Lemma slice_rows_uniform (T d t : nat) (ws : list (list S)) :
  uniform (T * d) ws -> t < T ->
  uniform d (map (fun blk => firstn d (skipn (t * d) blk)) ws).
Proof.
  intros U Ht. eapply uniform_map; [|exact U]. intros r Hr.
  rewrite length_firstn, length_skipn. nia.
Qed.

(** [torch.cat((log, x), 1)] of a log of [j] steps and one more step. *)
Lemma cat1_batch (j d : nat) (ls rs : list (list S)) (a b : tensor S) :
  batched [j; d] ls a -> batched [1; d] rs b -> length ls = length rs ->
  cat 1 a b
  = Ok (fresh [length ls; j + 1; d] (concat (map2 (@app S) ls rs))).
Proof.
  intros (Hsa & Hda & Ua) (Hsb & Hdb & Ub) L. unfold cat.
  rewrite Hsa, Hsb, Hda, Hdb. cbn [nth_error length firstn skipn].
  rewrite L, !Nat.eqb_refl. cbn [list_eqb andb]. rewrite !Nat.eqb_refl.
  cbn [andb app].
  replace (size_of [length rs]) with (length rs) by (unfold size_of; simpl; lia).
  replace (size_of [d]) with d by (unfold size_of; simpl; lia).
  rewrite !chunks_concat_exact; try reflexivity; try (symmetry; exact L).
  - revert Ub. unfold size_of; simpl. now rewrite Nat.mul_1_r, Nat.add_0_r.
  - revert Ua. unfold size_of; simpl. now rewrite Nat.mul_1_r.
Qed.

Lemma cat1_rows_uniform (j d : nat) (ls rs : list (list S)) :
  uniform (j * d) ls -> uniform d rs ->
  uniform ((j + 1) * d) (map2 (@app S) ls rs).
Proof.
  intros Ul Ur. eapply uniform_map2; [|exact Ul|exact Ur].
  intros a b Ha Hb. rewrite length_app. lia.
Qed.

(** [x.repeat(n, 1, 1)] of a row. *)
Lemma repeat3_row (n d : nat) (t : tensor S) :
  shape t = [1; d] ->
  repeat3 n t = Ok (fresh [n; 1; d] (concat (repeat (data t) n))).
Proof. intros Hs. unfold repeat3. now rewrite Hs. Qed.

End LoopFacts.

(** ** The constructor *)

Section InitFacts.
Context {S : Type} {Sc : Scalar S}.

Lemma infer_size_row (n : nat) : infer_size [1; -1]%Z n = Ok [1; n].
Proof.
  unfold infer_size, known_size.
  cbn [filter existsb map size_of fold_right length negb Z.eqb Z.ltb Z.compare
       Pos.eqb Pos.compare Pos.compare_cont orb andb Z.to_nat Pos.to_nat
       Pos.iter_op Nat.add Nat.mul Nat.ltb Nat.leb Nat.eqb].
  rewrite Nat.mod_1_r, Nat.div_1_r. cbn [Nat.eqb andb]. rewrite orb_true_r.
  reflexivity.
Qed.

Lemma reshape_row (t : tensor S) :
  exists st, reshape [1; -1]%Z t = Ok (mkT [1; numel t] st (data t)).
Proof.
  unfold reshape. rewrite infer_size_row. cbn [bind].
  destruct (compute_stride _ _ _); eexists; reflexivity.
Qed.

Lemma build_A_lin_shape (h0 m0 k0 b0 : S) :
  exists A, build_A_lin h0 m0 k0 b0 = Ok A
            /\ shape A = [4; 4] /\ length (data A) = 16.
Proof. eexists. split; [reflexivity|]. split; reflexivity. Qed.

Lemma bind_ok {A B : Type} (c : result A) (f : A -> result B) (b : B) :
  bind c f = Ok b -> exists a, c = Ok a /\ f a = Ok b.
Proof. destruct c; simpl; [eauto | discriminate]. Qed.

Lemma assert_ok (c : bool) : assert c = Ok tt -> c = true.
Proof. destruct c; [reflexivity | discriminate]. Qed.

(** What a successful construction leaves in the object. *)
Lemma init_ok (xbar0 : tensor S) (lp : bool) (xi ui : option (tensor S)) (k0 : S)
    (self : RobotsSystem S) :
  __init__ xbar0 lp xi ui k0 = Ok self ->
  (length (data xbar0) = numel xbar0 -> canonical_plant self)
  /\ linear_plant self = lp
  /\ data (xbar self) = data xbar0
  /\ shape (x_init self) = [1; 4]
  /\ data (x_init self) = match xi with Some x0 => data x0 | None => data xbar0 end
  /\ u_init self = match ui with Some u0 => u0 | None => zeros [1; 2] end
  /\ build_A_lin (h self) (mass self) k0 (b self) = Ok (A_lin self)
  /\ h self = lit 0.05%Q /\ mass self = lit 1%Q /\ b self = lit 1%Q
  /\ b2 self = (if lp then None else Some (lit 0.1%Q))
  /\ data (mask self) = [zero; zero; one; one]
  /\ (forall x0, xi = Some x0 -> numel x0 = 4).
Proof.
  intros H. unfold __init__ in H.
  destruct (reshape_row xbar0) as (st & E). rewrite E in H. cbn [bind] in H.
  apply bind_ok in H as (x1 & Hx1 & H).
  apply bind_ok in H as (u1 & Hu1 & H).
  unfold shape_at in H at 1. cbn [shape nth_error bind] in H.
  apply bind_ok in H as (ok & Hok & H).
  apply bind_ok in H as ([] & Has & H). apply assert_ok in Has. subst ok.
  apply bind_ok in H as (nu & Hnu & H).
  apply bind_ok in H as ([] & Has & H). apply assert_ok in Has.
  destruct (build_A_lin_shape (lit 0.05%Q) (lit 1%Q) k0 (lit 1%Q)) as (A & EA & SA & LA).
  rewrite EA in H. cbn [bind] in H. injection H as <-.
  cbn [linear_plant xbar x_init u_init state_dim in_dim h mass b b2 B A_lin mask
       shape data].
  destruct (Nat.eqb_spec (numel xbar0) 4) as [N4|]; [|discriminate].
  apply bind_ok in Hok as (n0 & Hn0 & Hok). injection Hok as Hok.
  apply Nat.eqb_eq in Hok. subst n0.
  assert (X1 : shape x1 = [1; 4]
               /\ data x1 = match xi with Some x0 => data x0 | None => data xbar0 end
               /\ (forall x0, xi = Some x0 -> numel x0 = 4)).
  { destruct xi as [x0|].
    - destruct (reshape_row x0) as (st0 & E0). rewrite E0 in Hx1.
      injection Hx1 as <-. cbn [shape data] in *.
      unfold shape_at in Hn0. cbn in Hn0. injection Hn0 as N0.
      split; [now rewrite N0|]. split; [reflexivity|].
      intros ? [= <-]. exact N0.
    - injection Hx1 as <-. unfold detach_clone. cbn [shape data]. rewrite N4.
      split; [reflexivity|]. split; [reflexivity|]. discriminate. }
  destruct X1 as (X1s & X1d & X1n).
  assert (U1 : u1 = match ui with Some u0 => u0 | None => zeros [1; 2] end).
  { destruct ui as [u0|].
    - destruct (reshape_row u0) as (st0 & E0). rewrite E0 in Hu1.
      cbn [bind] in Hu1. now injection Hu1.
    - unfold shape_at in Hu1. cbn [shape nth_error bind] in Hu1.
      injection Hu1 as <-. now rewrite N4. }
  unfold canonical_plant.
  cbn [linear_plant xbar x_init u_init state_dim in_dim h mass b b2 B A_lin mask
       shape data].
  repeat split; try assumption; try reflexivity.
  - now rewrite N4.
  - congruence.
  - intros ->. eexists; reflexivity.
Qed.

Lemma init_ready (xbar0 : tensor S) (lp : bool) (xi ui : option (tensor S)) (k0 : S)
    (self : RobotsSystem S) :
  __init__ xbar0 lp xi ui k0 = Ok self ->
  plain_arguments xbar0 xi ui ->
  canonical_plant self
  /\ shape (x_init self) = [1; 4] /\ length (data (x_init self)) = 4
  /\ shape (u_init self) = [1; 2] /\ length (data (u_init self)) = 2.
Proof.
  intros Hinit (Lx & Lxi & Lui).
  destruct (init_ok _ _ _ _ _ Hinit)
    as (CP & _ & Dxb & Hxi & Dxi & Eui & _ & _ & _ & _ & _ & _ & Nxi).
  pose proof (CP Lx) as CP'.
  split; [exact CP'|]. split; [exact Hxi|]. split; [|].
  - rewrite Dxi. destruct xi as [x0|].
    + rewrite (Lxi x0 eq_refl). now apply Nxi.
    + rewrite <- Dxb. apply CP'.
  - rewrite Eui. destruct ui as [u0|]; [exact (Lui u0 eq_refl)|].
    split; reflexivity.
Qed.

End InitFacts.

(** ** Entries of a log *)

Section LogFacts.
Context {S : Type} {Sc : Scalar S}.

Lemma rows_at_self (d : nat) (rs : list (list S)) :
  uniform d rs -> rows_at d 0 rs = rs.
Proof.
  intros U. unfold rows_at. induction U as [|r rs Hr _ IH]; cbn [map]; [reflexivity|].
  rewrite IH. f_equal. simpl. rewrite <- Hr. apply firstn_all.
Qed.

Lemma rows_at_app_old (j d t : nat) (Ls rs : list (list S)) :
  uniform (j * d) Ls -> length Ls = length rs -> t < j ->
  rows_at d t (map2 (@app S) Ls rs) = rows_at d t Ls.
Proof.
  unfold rows_at.
  intros U; revert rs; induction U as [|l Ls Hl _ IH]; intros [|r rs] Len Ht;
    cbn [map map2 length] in *; try discriminate; [reflexivity|].
  rewrite IH by (auto; lia). f_equal.
  rewrite skipn_app, firstn_app, length_skipn.
  replace (t * d - length l) with 0 by nia.
  replace (d - (length l - t * d)) with 0 by nia.
  simpl. now rewrite app_nil_r.
Qed.

Lemma rows_at_app_new (j d : nat) (Ls rs : list (list S)) :
  uniform (j * d) Ls -> uniform d rs -> length Ls = length rs ->
  rows_at d j (map2 (@app S) Ls rs) = rs.
Proof.
  unfold rows_at.
  intros U; revert rs; induction U as [|l Ls Hl _ IH]; intros [|r rs] Ur Len;
    cbn [map map2 length] in *; try discriminate; [reflexivity|].
  inversion Ur as [|? ? Hr Urs]; subst.
  rewrite IH by (auto; lia). f_equal.
  rewrite skipn_app, Hl, Nat.sub_diag, skipn_all2 by lia. simpl.
  apply firstn_all.
Qed.

Lemma recorded_batched (j d t : nat) (Xs : list (list S)) (log y : tensor S) :
  batched [j; d] Xs log -> t < j ->
  shape y = [length Xs; 1; d] -> data y = concat (rows_at d t Xs) ->
  recorded log t y.
Proof.
  intros Hb Ht Hs Hd. unfold recorded.
  rewrite (slice1_batch Hb Ht). eexists. split; [reflexivity|].
  split; cbn [shape data]; [now rewrite Hs | now rewrite Hd].
Qed.

Lemma recorded_inv (j d t : nat) (Xs : list (list S)) (log y : tensor S) :
  batched [j; d] Xs log -> t < j -> recorded log t y ->
  shape y = [length Xs; 1; d] /\ data y = concat (rows_at d t Xs).
Proof.
  intros Hb Ht (s & Hs & Sh & Da).
  rewrite (slice1_batch Hb Ht) in Hs. injection Hs as <-.
  cbn [shape data] in *. split; [now rewrite <- Sh | now rewrite <- Da].
Qed.

(** A tensor of shape [(n, 1, d)] is a batch of [n] rows. *)
Lemma batched_of_shape (n d : nat) (t : tensor S) :
  shape t = [n; 1; d] -> length (data t) = n * d ->
  batched [1; d] (chunks d n (data t)) t /\ length (chunks d n (data t)) = n.
Proof.
  intros Hs Hl. split; [|apply chunks_length].
  repeat split.
  - now rewrite chunks_length.
  - now rewrite concat_chunks.
  - replace (size_of [1; d]) with d by (unfold size_of; simpl; lia).
    now apply chunks_uniform.
Qed.

End LogFacts.

(** ** The loop of [rollout] *)

Section RolloutFacts.
Context {S : Type} {Sc : Scalar S} {C : Type}.

Lemma step_forward (self : RobotsSystem S) (noise : tensor S) (T n t : nat)
    (ws : list (list S)) (x u : tensor S) :
  canonical_plant self ->
  batched [T; 4] ws noise -> length (strides noise) = 3 -> length ws = n ->
  t < T ->
  shape x = [n; 1; 4] -> length (strides x) = 3 -> length (data x) = n * 4 ->
  shape u = [n; 1; 2] -> length (strides u) = 3 -> length (data u) = n * 2 ->
  exists rows,
    (w <- slice1 t (t + 1) noise ;; forward self t x u w)
    = Ok (fresh [n; 1; 4] (concat rows))
    /\ uniform 4 rows /\ length rows = n
    /\ rows = map2 (map2 sadd)
                   (map2 (dynamics_row self) (chunks 4 n (data x))
                                             (chunks 2 n (data u)))
                   (rows_at 4 t ws).
Proof.
  intros CP Hd Sd Hn Ht Hx Sx Lx Hu Su Lu.
  destruct (batched_of_shape x Hx Lx) as (Bx & Nx).
  destruct (batched_of_shape u Hu Lu) as (Bu & Nu).
  pose proof Hd as (_ & _ & Ud).
  replace (size_of [T; 4]) with (T * 4) in Ud by (unfold size_of; simpl; lia).
  assert (Uw : uniform 4 (rows_at 4 t ws)) by (apply slice_rows_uniform with (T := T); assumption).
  assert (Nw : length (rows_at 4 t ws) = n) by (unfold rows_at; now rewrite length_map).
  rewrite (slice1_batch Hd Ht). cbn [bind].
  erewrite forward_batch with (xs := chunks 4 n (data x))
                              (us := chunks 2 n (data u))
                              (ws := rows_at 4 t ws);
    [ | exact CP | exact Bx | exact Sx | exact Bu | exact Su
      | | exact Sd | congruence | congruence ].
  - rewrite Nx. eexists. split; [reflexivity|]. split; [|split; [|reflexivity]].
    + eapply uniform_map2 with (k1 := 4) (k2 := 4); [| |exact Uw].
      * intros a b Ha Hb. rewrite map2_length; congruence.
      * destruct Bx as (_ & _ & Ux), Bu as (_ & _ & Uu).
        eapply uniform_map2; [|exact Ux|exact Uu].
        intros a b Ha Hb. apply dynamics_row_length; assumption.
    + rewrite map2_length; rewrite map2_length; congruence.
  - unfold rows_at. rewrite <- (length_map (fun blk => firstn 4 (skipn (t * 4) blk)) ws).
    apply batched_intro; [reflexivity|exact Uw].
Qed.

Lemma stack_length (d n : nat) (steps : list (tensor S)) :
  length (stack d n steps) = n.
Proof.
  unfold stack.
  assert (G : forall acc, length acc = n ->
            length (fold_left (fun acc x => map2 (@app S) acc (chunks d n (data x)))
                              steps acc) = n).
  { induction steps as [|x steps IH]; intros acc Ha; simpl; [exact Ha|].
    apply IH. rewrite map2_length; rewrite ?chunks_length; congruence. }
  apply G. apply repeat_length.
Qed.

Lemma stack_snoc (d n : nat) (steps : list (tensor S)) (x : tensor S) :
  stack d n (steps ++ [x])
  = map2 (@app S) (stack d n steps) (chunks d n (data x)).
Proof. unfold stack. now rewrite fold_left_app. Qed.

Lemma map2_app_nil (n : nat) (rows : list (list S)) :
  length rows = n -> map2 (@app S) (repeat [] n) rows = rows.
Proof.
  revert rows; induction n as [|n IH]; intros [|r rows] H; simpl in *;
    try discriminate; [reflexivity|].
  now rewrite IH by lia.
Qed.

Lemma log_append (n j d : nat) (rows : list (list S)) (xl x' : tensor S)
    (done : list (tensor S * tensor S)) (proj : tensor S * tensor S -> tensor S)
    (p : tensor S * tensor S) :
  batched [j; d] (stack d n (map proj done)) xl ->
  batched [1; d] rows x' -> length rows = n ->
  proj p = x' -> length done = j ->
  (forall t q, nth_error done t = Some q -> recorded xl t (proj q)) ->
  exists xl',
    cat 1 xl x' = Ok xl'
    /\ batched [j + 1; d] (stack d n (map proj (done ++ [p]))) xl'
    /\ (forall t q, nth_error (done ++ [p]) t = Some q -> recorded xl' t (proj q)).
Proof.
  intros BX Bx Nx Hp Ld Hrec.
  set (Xs := stack d n (map proj done)) in *.
  assert (NX : length Xs = n) by apply stack_length.
  pose proof BX as (_ & _ & UX). pose proof Bx as (Sx' & Dx' & Ux).
  replace (size_of [j; d]) with (j * d) in UX by (unfold size_of; simpl; lia).
  replace (size_of [1; d]) with d in Ux by (unfold size_of; simpl; lia).
  assert (LL : length Xs = length rows) by congruence.
  assert (ES : stack d n (map proj (done ++ [p])) = map2 (@app S) Xs rows).
  { rewrite map_app. cbn [map]. rewrite stack_snoc. fold Xs. f_equal.
    rewrite Hp, Dx'. now apply chunks_concat_exact. }
  rewrite ES.
  assert (NL : length (map2 (@app S) Xs rows) = n) by (rewrite map2_length; congruence).
  assert (BL : batched [j + 1; d] (map2 (@app S) Xs rows)
                       (fresh [length Xs; j + 1; d] (concat (map2 (@app S) Xs rows)))).
  { unfold fresh. apply batched_intro; [congruence|].
    replace (size_of [j + 1; d]) with ((j + 1) * d) by (unfold size_of; simpl; lia).
    now apply cat1_rows_uniform. }
  exists (fresh [length Xs; j + 1; d] (concat (map2 (@app S) Xs rows))).
  split; [now apply cat1_batch|]. split; [exact BL|].
  intros t q Hq.
  destruct (Nat.lt_ge_cases t j) as [Hlt|Hge].
  - rewrite nth_error_app1 in Hq by lia.
    pose proof (Hrec t q Hq) as Hr.
    eapply recorded_inv in Hr; [|exact BX|exact Hlt]. destruct Hr as (Sq & Dq).
    eapply recorded_batched; [exact BL|lia| |].
    + rewrite Sq. f_equal. congruence.
    + rewrite Dq. f_equal. symmetry. eapply rows_at_app_old; eassumption.
  - rewrite nth_error_app2 in Hq by lia.
    destruct (t - length done) as [|r] eqn:E; [|destruct r; discriminate].
    injection Hq as <-. assert (t = j) by lia. subst t.
    eapply recorded_batched; [exact BL|lia| |].
    + rewrite Hp, Sx'. f_equal. congruence.
    + rewrite Hp, Dx'. f_equal. symmetry. eapply rows_at_app_new; eassumption.
Qed.

Lemma loop_body_next (self : RobotsSystem S) (ctl : controller S C)
    (noise : tensor S) (T n j : nat) (ws : list (list S))
    (l : locals S) (c : C) (done : list (tensor S * tensor S)) :
  canonical_plant self -> controller_ok n ctl ->
  batched [T; 4] ws noise -> length (strides noise) = 3 -> length ws = n ->
  1 <= j -> j < T -> loop_inv n j l done ->
  exists l' x',
    (w <- slice1 j (j + 1) noise ;; forward self j (l_x l) (l_u l) w) = Ok x'
    /\ loop_body self ctl noise j l c = (Ok l', snd (call ctl j x' c))
    /\ l_x l' = x' /\ l_u l' = fst (call ctl j x' c)
    /\ loop_inv n (j + 1) l' (done ++ [(x', fst (call ctl j x' c))]).
Proof.
  intros CP OK Hd Sd Hn Hj HT
    (Hx & Sx & Lx & Hu & Su & Lu & (xl & Exl & BX & RX)
        & (ul & Eul & BU & RU) & Ld).
  edestruct step_forward with (t := j) (x := l_x l) (u := l_u l)
    as (rows & Ef & Ur & Nr & _);
    [exact CP|exact Hd|exact Sd|exact Hn|exact HT
    |exact Hx|exact Sx|exact Lx|exact Hu|exact Su|exact Lu|].
  set (x' := fresh [n; 1; 4] (concat rows)) in *.
  assert (Sx' : shape x' = [n; 1; 4]) by reflexivity.
  assert (Lx' : length (data x') = n * 4).
  { unfold x'. cbn [data fresh]. rewrite (concat_uniform_length Ur). lia. }
  destruct (OK j x' c Sx' Lx') as (Hu' & Su' & Lu').
  destruct (call ctl j x' c) as (u' & c') eqn:Ecall. cbn [fst snd] in *.
  destruct (batched_of_shape u' Hu' Lu') as (Bu' & Nu').
  assert (Bx' : batched [1; 4] rows x').
  { unfold x', fresh. apply batched_intro; [congruence|exact Ur]. }
  destruct (@log_append n j 4 rows xl x' done fst (x', u'))
    as (xl' & Ecx & BX' & RX'); try assumption; try reflexivity.
  { intros t [xt ut] Hq. exact (RX t xt ut Hq). }
  destruct (@log_append n j 2 (chunks 2 n (data u')) ul u' done snd (x', u'))
    as (ul' & Ecu & BU' & RU'); try assumption; try reflexivity.
  { intros t [xt ut] Hq. exact (RU t xt ut Hq). }
  exists (mkLocals x' u' (Some xl') (Some ul')), x'.
  rewrite Ecall. cbn [fst snd].
  split; [exact Ef|]. split; [|split; [reflexivity|split; [reflexivity|]]].
  - unfold loop_body, bindM, lift, do_call, local, ret.
    revert Ef. destruct (slice1 j (j + 1) noise) as [w|e]; cbn [bind]; [|discriminate].
    intros ->. rewrite Ecall.
    destruct (Nat.eqb_spec j 0) as [|_]; [lia|].
    rewrite Exl, Ecx, Eul, Ecu. reflexivity.
  - unfold loop_inv. cbn [l_x l_u l_x_log l_u_log].
    repeat split; try assumption; try reflexivity.
    + exists xl'. repeat split; try apply BX'.
      intros t xt ut Hq. exact (RX' t (xt, ut) Hq).
    + exists ul'. repeat split; try apply BU'.
      intros t xt ut Hq. exact (RU' t (xt, ut) Hq).
    + rewrite length_app. simpl. lia.
Qed.

Lemma loop_body_first (self : RobotsSystem S) (ctl : controller S C)
    (noise : tensor S) (T n : nat) (ws : list (list S))
    (x u : tensor S) (xl ul : option (tensor S)) (c : C) :
  canonical_plant self -> controller_ok n ctl ->
  batched [T; 4] ws noise -> length (strides noise) = 3 -> length ws = n ->
  0 < T ->
  shape x = [n; 1; 4] -> length (strides x) = 3 -> length (data x) = n * 4 ->
  shape u = [n; 1; 2] -> length (strides u) = 3 -> length (data u) = n * 2 ->
  exists l' x',
    (w <- slice1 0 (0 + 1) noise ;; forward self 0 x u w) = Ok x'
    /\ loop_body self ctl noise 0 (mkLocals x u xl ul) c
       = (Ok l', snd (call ctl 0 x' c))
    /\ l_x l' = x' /\ l_u l' = fst (call ctl 0 x' c)
    /\ loop_inv n 1 l' [(x', fst (call ctl 0 x' c))].
Proof.
  intros CP OK Hd Sd Hn HT Hx Sx Lx Hu Su Lu.
  edestruct step_forward with (t := 0) (x := x) (u := u)
    as (rows & Ef & Ur & Nr & _);
    [exact CP|exact Hd|exact Sd|exact Hn|exact HT
    |exact Hx|exact Sx|exact Lx|exact Hu|exact Su|exact Lu|].
  set (x' := fresh [n; 1; 4] (concat rows)) in *.
  assert (Sx' : shape x' = [n; 1; 4]) by reflexivity.
  assert (Lx' : length (data x') = n * 4).
  { unfold x'. cbn [data fresh]. rewrite (concat_uniform_length Ur). lia. }
  destruct (OK 0 x' c Sx' Lx') as (Hu' & Su' & Lu').
  destruct (call ctl 0 x' c) as (u' & c') eqn:Ecall. cbn [fst snd] in *.
  destruct (batched_of_shape u' Hu' Lu') as (Bu' & Nu').
  assert (Bx' : batched [1; 4] rows x').
  { unfold x', fresh. apply batched_intro; [congruence|exact Ur]. }
  assert (Ex : stack 4 n [x'] = rows).
  { unfold stack. cbn [fold_left]. rewrite map2_app_nil by apply chunks_length.
    unfold x'. cbn [data fresh]. now apply chunks_concat_exact. }
  assert (Eu : stack 2 n [u'] = chunks 2 n (data u')).
  { unfold stack. cbn [fold_left]. now rewrite map2_app_nil by apply chunks_length. }
  exists (mkLocals x' u' (Some x') (Some u')), x'.
  rewrite Ecall. cbn [fst snd].
  split; [exact Ef|]. split; [|split; [reflexivity|split; [reflexivity|]]].
  - unfold loop_body, bindM, lift, do_call, local, ret.
    cbn [l_x l_u l_x_log l_u_log].
    revert Ef. destruct (slice1 0 (0 + 1) noise) as [w|e]; cbn [bind]; [|discriminate].
    intros ->. rewrite Ecall. reflexivity.
  - unfold loop_inv. cbn [l_x l_u l_x_log l_u_log map fst snd].
    repeat split; try assumption; try reflexivity.
    + exists x'. rewrite Ex. repeat split; try apply Bx'.
      intros [|[|t]] xt ut Hq; try discriminate. injection Hq as <- <-.
      eapply recorded_batched; [exact Bx'|lia|apply Bx'|].
      rewrite rows_at_self by exact Ur. apply Bx'.
    + exists u'. rewrite Eu. repeat split; try apply Bu'.
      intros [|[|t]] xt ut Hq; try discriminate. injection Hq as <- <-.
      eapply recorded_batched; [exact Bu'|lia|apply Bu'|].
      rewrite rows_at_self; [apply Bu'|].
      apply chunks_uniform. exact Lu'.
Qed.

Lemma for_range_inv (self : RobotsSystem S) (ctl : controller S C)
    (noise : tensor S) (T n : nat) (ws : list (list S)) :
  canonical_plant self -> controller_ok n ctl ->
  batched [T; 4] ws noise -> length (strides noise) = 3 -> length ws = n ->
  forall m j l c done,
    1 <= j -> j + m <= T -> loop_inv n j l done ->
    exists l' c',
      for_range (seq j m) (loop_body self ctl noise) l c = (Ok l', c')
      /\ loop_inv n (j + m) l'
            (done ++ closed_loop self ctl noise (seq j m) (l_x l) (l_u l) c).
Proof.
  intros CP OK Hd Sd Hn. induction m as [|m IH]; intros j l c done Hj HT Inv.
  - exists l, c. split; [reflexivity|].
    cbn [seq closed_loop]. now rewrite app_nil_r, Nat.add_0_r.
  - edestruct loop_body_next with (c := c) (j := j) (l := l)
      as (l1 & x' & Ef & Eb & Ex & Eu & Inv1);
      [exact CP|exact OK|exact Hd|exact Sd|exact Hn|exact Hj|lia|exact Inv|].
    destruct (IH (Datatypes.S j) l1 (snd (call ctl j x' c))
                 (done ++ [(x', fst (call ctl j x' c))]))
      as (l' & c' & Er & Inv'); [lia|lia|now rewrite <- Nat.add_1_r|].
    exists l', c'. split.
    + cbn [seq for_range]. unfold bindM at 1. rewrite Eb. exact Er.
    + cbn [seq closed_loop]. rewrite Ef.
      destruct (call ctl j x' c) as (u' & c1) eqn:Ecall. cbn [fst snd] in *.
      rewrite Ex, Eu in Inv'. rewrite <- app_assoc in Inv'. cbn [app] in Inv'.
      now rewrite Nat.add_succ_r.
Qed.

End RolloutFacts.

(** ** [rollout] *)

Section RolloutMain.
Context {S : Type} {Sc : Scalar S} {C : Type}.

Lemma concat_repeat_length {A : Type} (r : list A) (n : nat) :
  length (concat (repeat r n)) = n * length r.
Proof. induction n as [|n IH]; simpl; [reflexivity|]. rewrite length_app, IH. lia. Qed.

Lemma batched_of_shape3 (n T d : nat) (t : tensor S) :
  shape t = [n; T; d] -> length (data t) = n * (T * d) ->
  batched [T; d] (chunks (T * d) n (data t)) t
  /\ length (chunks (T * d) n (data t)) = n.
Proof.
  intros Hs Hl. split; [|apply chunks_length].
  repeat split.
  - now rewrite chunks_length.
  - now rewrite concat_chunks.
  - replace (size_of [T; d]) with (T * d) by (unfold size_of; simpl; lia).
    now apply chunks_uniform.
Qed.

(** The logs [rollout] returns, step by step. *)
Lemma rollout_trajectory (self : RobotsSystem S) (ctl : controller S C)
    (noise : tensor S) (train : bool) (c0 : C) (n T : nat) :
  canonical_plant self ->
  shape (x_init self) = [1; 4] -> length (data (x_init self)) = 4 ->
  shape (u_init self) = [1; 2] -> length (data (u_init self)) = 2 ->
  controller_ok n ctl ->
  shape noise = [n; T; 4] -> length (strides noise) = 3 ->
  length (data noise) = n * (T * 4) -> 1 <= T ->
  let x0 := fresh [n; 1; 4] (concat (repeat (data (x_init self)) n)) in
  let u0 := fresh [n; 1; 2] (concat (repeat (data (u_init self)) n)) in
  let traj := closed_loop self ctl noise (seq 0 T) x0 u0 (reset ctl c0) in
  exists x_log u_log c',
    rollout self ctl noise train c0 = (Ok (x_log, None, u_log), reset ctl c')
    /\ repeat3 n (x_init self) = Ok x0 /\ repeat3 n (u_init self) = Ok u0
    /\ length traj = T
    /\ batched [T; 4] (stack 4 n (map fst traj)) x_log
    /\ batched [T; 2] (stack 2 n (map snd traj)) u_log
    /\ (forall t xt ut, nth_error traj t = Some (xt, ut) ->
          recorded x_log t xt /\ recorded u_log t ut).
Proof.
  intros CP Hxi Lxi Hui Lui OK Hd Sd Ld HT x0 u0 traj.
  destruct (batched_of_shape3 noise Hd Ld) as (Bd & Nd).
  destruct T as [|T']; [lia|].
  assert (Ex0 : repeat3 n (x_init self) = Ok x0) by (now apply repeat3_row).
  assert (Eu0 : repeat3 n (u_init self) = Ok u0) by (now apply repeat3_row).
  edestruct (@loop_body_first S Sc C self ctl noise (Datatypes.S T') n
               (chunks (Datatypes.S T' * 4) n (data noise))
               x0 u0 None None (reset ctl c0))
    as (l1 & x1 & Ef & Eb & Ex1 & Eu1 & Inv1);
    [exact CP|exact OK|exact Bd|exact Sd|exact Nd|lia
    |reflexivity|reflexivity| |reflexivity|reflexivity| |].
  { unfold x0. cbn [data fresh]. rewrite concat_repeat_length. lia. }
  { unfold u0. cbn [data fresh]. rewrite concat_repeat_length. lia. }
  edestruct (@for_range_inv S Sc C self ctl noise (Datatypes.S T') n
               (chunks (Datatypes.S T' * 4) n (data noise))
               CP OK Bd Sd Nd T' 1 l1 (snd (call ctl 0 x1 (reset ctl c0))))
    as (l' & c' & Er & Inv'); [lia|lia|exact Inv1|].
  assert (Etraj : traj = (x1, fst (call ctl 0 x1 (reset ctl c0)))
                         :: closed_loop self ctl noise (seq 1 T') (l_x l1) (l_u l1)
                              (snd (call ctl 0 x1 (reset ctl c0)))).
  { unfold traj. cbn [seq closed_loop]. rewrite Ef.
    destruct (call ctl 0 x1 (reset ctl c0)) as (u1 & c1). cbn [fst snd].
    now rewrite Ex1, Eu1. }
  cbn [app] in Inv'. rewrite <- Etraj in Inv'.
  destruct Inv' as (_ & _ & _ & _ & _ & _ & (xl & Exl & BX & RX)
                      & (ul & Eul & BU & RU) & Ltraj).
  exists xl, ul, c'.
  split; [|split; [exact Ex0|split; [exact Eu0|split; [exact Ltraj|
           split; [exact BX|split; [exact BU|]]]]]].
  - unfold rollout, no_grad, detach_clone.
    unfold bindM at 1. unfold do_reset at 1.
    unfold bindM at 1. unfold lift at 1. unfold shape_at at 1. rewrite Hd. cbn [nth_error].
    unfold bindM at 1. unfold lift at 1. rewrite Ex0.
    unfold bindM at 1. unfold lift at 1. unfold shape_at at 1. rewrite Hd. cbn [nth_error].
    unfold bindM at 1. unfold lift at 1. rewrite Eu0.
    assert (EL : bindM (lift (shape_at noise 1))
                       (fun T => for_range (seq 0 T) (loop_body self ctl noise)
                                           (mkLocals x0 u0 None None))
                       (reset ctl c0)
                 = (Ok l', c')).
    { unfold bindM at 1. unfold lift at 1. unfold shape_at. rewrite Hd. cbn [nth_error].
      cbn [seq for_range]. unfold bindM at 1. rewrite Eb. exact Er. }
    unfold bindM at 1.
    destruct train; rewrite EL;
      unfold bindM, do_reset, local, ret; rewrite Exl, Eul; reflexivity.
  - intros t xt ut Hq. split; [exact (RX t xt ut Hq)|exact (RU t xt ut Hq)].
Qed.

End RolloutMain.

(* ================================================================== *)
(** * Results *)

Section DynamicsResults.
Context {S : Type} {Sc : Scalar S}.

Lemma map2_smul_comm {L : ScalarLaws S} (u v : list S) :
  map2 smul u v = map2 smul v u.
Proof.
  revert v; induction u as [|a u IH]; intros [|b v]; simpl; try reflexivity.
  now rewrite smul_comm, IH.
Qed.

Lemma dot_comm {L : ScalarLaws S} (u v : list S) : dot u v = dot v u.
Proof. unfold dot. now rewrite map2_smul_comm. Qed.

Lemma dynamics_row_affine {L : ScalarLaws S} (self : RobotsSystem S) (x u : list S) :
  dynamics_row self x u = affine_step self x u.
Proof.
  unfold dynamics_row, affine_step, vadd, vsub, matvec.
  f_equal. f_equal; apply map_ext; intros r; apply dot_comm.
Qed.

(** C1. [noiseless_forward] is the affine map [A(x) (x - xbar) + B u + xbar]
    on every entry of the batch, where [A(x)] is [A_lin] for a plant built
    with [linear_plant] true and [A_lin + h * correction(x)] otherwise. *)
Theorem noiseless_forward_affine {L : ScalarLaws S}
    (xbar0 : tensor S) (lp : bool) (xi ui : option (tensor S)) (k0 : S)
    (self : RobotsSystem S) (t : nat)
    (xs us : list (list S)) (x u : tensor S) :
  __init__ xbar0 lp xi ui k0 = Ok self ->
  length (data xbar0) = numel xbar0 ->
  batched [1; 4] xs x -> length (strides x) = 3 ->
  batched [1; 2] us u -> length (strides u) = 3 ->
  length xs = length us ->
  noiseless_forward self t x u
  = Ok (fresh [length xs; 1; 4] (concat (map2 (affine_step self) xs us)))
  /\ (forall xr, A_of self xr
                 = if lp then rows_of (A_lin self)
                   else madd (rows_of (A_lin self))
                             (mscale (h self) (correction self xr))).
Proof.
  intros Hinit Lx Hx Sx Hu Su Len.
  destruct (init_ok _ _ _ _ _ Hinit) as (CP & Hlp & _).
  split.
  - rewrite (noiseless_forward_batch t (CP Lx) Hx Sx Hu Su Len).
    f_equal. f_equal. f_equal.
    apply map2_ext_in. intros a b _ _. apply dynamics_row_affine.
  - intros xr. unfold A_of. now rewrite Hlp.
Qed.

Lemma norm2_zero_pair {L : ScalarLaws S} (a b : S) :
  norm2 [smul a zero; smul b zero] = zero.
Proof.
  unfold norm2, sum_list, zero. cbn [map fold_left].
  now rewrite !smul_0_r, !sadd_0_l, ssqrt_0.
Qed.

Lemma friction_speed_diag {L : ScalarLaws S} (self : RobotsSystem S) (x : list S) :
  data (mask self) = [zero; zero; one; one] -> length x = 4 ->
  pair_norms self x = [zero; speed x]
  /\ friction_speed self x = friction_diag x.
Proof.
  intros HM Hx. explode x.
  split.
  - unfold pair_norms, speed. rewrite HM. cbn [map2 chunks firstn skipn map nth].
    rewrite norm2_zero_pair. unfold one. now rewrite !smul_1_r.
  - unfold friction_speed, friction_diag, pair_norms, speed. rewrite HM.
    cbn [map2 chunks firstn skipn map nth kron_rows concat app].
    rewrite norm2_zero_pair. unfold one. now rewrite !smul_1_r.
Qed.

(** C2, as amended.  In nonlinear mode [A_nonlin(x)] is
    [A_lin + h * C(x)] with [C(x) = (-b2/m) diag(s)], where [s] comes from the
    position pair [(x0, x1)] and the velocity pair [(x2, x3)] of the state:
    the mask zeroes the position pair, the norm of each masked pair is taken
    (0 and the speed), and each norm is written on the two rows of its pair,
    so [s = (0, 0, speed, speed)]. *)
Theorem A_nonlin_friction {L : ScalarLaws S}
    (xbar0 : tensor S) (xi ui : option (tensor S)) (k0 : S)
    (self : RobotsSystem S) (xs : list (list S)) (x : tensor S) :
  __init__ xbar0 false xi ui k0 = Ok self ->
  length (data xbar0) = numel xbar0 ->
  batched [1; 4] xs x -> length (strides x) = 3 ->
  A_nonlin self x
  = Ok (fresh [length xs; 4; 4]
              (concat (map (fun xr => concat (nonlinear_matrix self (friction_diag xr))) xs)))
  /\ friction_gain self = sdiv (sopp (lit 0.1%Q)) (lit 1%Q)
  /\ (forall xr, In xr xs ->
        pair_norms self xr = [zero; speed xr]
        /\ friction_speed self xr = [zero; zero; speed xr; speed xr]).
Proof.
  intros Hinit Lx Hx Sx.
  destruct (init_ok _ _ _ _ _ Hinit)
    as (CP & Hlp & _ & _ & _ & _ & _ & _ & Hm & _ & Hb2 & HM & _).
  pose proof Hx as (_ & _ & U). change (size_of [1; 4]) with 4 in U.
  assert (R : forall xr, In xr xs -> length xr = 4).
  { intros xr Hin. exact (proj1 (Forall_forall _ _) U xr Hin). }
  split; [|split].
  - rewrite (A_nonlin_batch (CP Lx) Hlp Hx Sx).
    f_equal. f_equal. f_equal. apply map_ext_in. intros xr Hin.
    unfold A_of, nonlinear_matrix, correction. rewrite Hlp.
    now rewrite (proj2 (friction_speed_diag self xr HM (R xr Hin))).
  - unfold friction_gain. now rewrite Hb2, Hm.
  - intros xr Hin. exact (friction_speed_diag self xr HM (R xr Hin)).
Qed.

End DynamicsResults.

Section ConstructionResults.
Context {S : Type} {Sc : Scalar S}.

(** C8. [A_lin] is [I + h A2], [A2] being the block matrix with a zero and an
    identity block on top and the blocks [-k/m I] and [-b/m I] below; the gain
    [k] is read by the bottom-left block only and the damping [b] by the
    bottom-right block only. *)
Theorem A_lin_blocks
    (xbar0 : tensor S) (lp : bool) (xi ui : option (tensor S)) (k0 : S)
    (self : RobotsSystem S) :
  __init__ xbar0 lp xi ui k0 = Ok self ->
  shape (A_lin self) = [4; 4]
  /\ rows_of (A_lin self)
     = madd (identity 4) (mscale (h self) (A2_blocks (mass self) k0 (b self)))
  /\ (forall h0 m0 b0 k1 k2 A1 A2 i j,
         build_A_lin h0 m0 k1 b0 = Ok A1 -> build_A_lin h0 m0 k2 b0 = Ok A2 ->
         i < 4 -> j < 4 -> ~ (2 <= i /\ j < 2) ->
         entry (rows_of A1) i j = entry (rows_of A2) i j)
  /\ (forall h0 m0 k1 b1 b2 A1 A2 i j,
         build_A_lin h0 m0 k1 b1 = Ok A1 -> build_A_lin h0 m0 k1 b2 = Ok A2 ->
         i < 4 -> j < 4 -> ~ (2 <= i /\ 2 <= j) ->
         entry (rows_of A1) i j = entry (rows_of A2) i j).
Proof.
  intros Hinit.
  destruct (init_ok _ _ _ _ _ Hinit) as (_ & _ & _ & _ & _ & _ & HA & _).
  split; [|split; [|split]].
  - injection HA as <-. reflexivity.
  - injection HA as <-. reflexivity.
  - intros h0 m0 b0 k1 k2 A1 A2 i j H1 H2 Hi Hj Hn.
    injection H1 as <-. injection H2 as <-.
    destruct i as [|[|[|[|i]]]]; try lia;
      destruct j as [|[|[|[|j]]]]; try lia; reflexivity.
  - intros h0 m0 k1 b1 b2 A1 A2 i j H1 H2 Hi Hj Hn.
    injection H1 as <-. injection H2 as <-.
    destruct i as [|[|[|[|i]]]]; try lia;
      destruct j as [|[|[|[|j]]]]; try lia; reflexivity.
Qed.

(** C4, on the code.  The reshaped [u_init] is thrown away (line 27), so an
    initial input of shape [(2,)] or [(2, 1)] stops the constructor although
    it has exactly two components, and one of shape [(3, 2)], with six
    components, is accepted.  An [xbar] of three components stops the
    constructor, and an initial input of shape [(1, 2)] is accepted. *)
Theorem init_does_not_reshape_u_init (a0 a1 a2 a3 u0 u1 k0 : S) (lp : bool) :
  __init__ (of_list [a0; a1; a2; a3]) lp None (Some (of_list [u0; u1])) k0
  = Raise IndexError
  /\ __init__ (of_list [a0; a1; a2; a3]) lp None (Some (fresh [2; 1] [u0; u1])) k0
     = Raise AssertionError
  /\ (exists self,
        __init__ (of_list [a0; a1; a2; a3]) lp None
                 (Some (fresh [3; 2] [u0; u1; u0; u1; u0; u1])) k0
        = Ok self)
  /\ __init__ (of_list [a0; a1; a2]) lp None None k0 = Raise AssertionError
  /\ (exists self,
        __init__ (of_list [a0; a1; a2; a3]) lp None (Some (fresh [1; 2] [u0; u1])) k0
        = Ok self).
Proof.
  repeat split; try reflexivity; eexists; reflexivity.
Qed.

Lemma repeat3_rank (n : nat) (t : tensor S) :
  length (shape t) <= 3 -> exists r, repeat3 n t = Ok r.
Proof.
  intros H. unfold repeat3.
  destruct (shape t) as [|a [|b [|c [|d s]]]]; try (eexists; reflexivity).
  simpl in H. lia.
Qed.

(** C10. With a horizon of 0 neither loop runs, the logs are never assigned
    and [rollout] raises at its [return], after the second [reset]. *)
Theorem rollout_empty_horizon {C : Type}
    (xbar0 : tensor S) (lp : bool) (xi ui : option (tensor S)) (k0 : S)
    (self : RobotsSystem S) (ctl : controller S C) (noise : tensor S)
    (train : bool) (c0 : C) (n : nat) (rest : list nat) :
  __init__ xbar0 lp xi ui k0 = Ok self ->
  length (shape (u_init self)) <= 3 ->
  shape noise = n :: 0 :: rest ->
  rollout self ctl noise train c0
  = (Raise UnboundLocalError, reset ctl (reset ctl c0)).
Proof.
  intros Hinit Hu Hd.
  destruct (init_ok _ _ _ _ _ Hinit) as (_ & _ & _ & Hxi & _).
  destruct (repeat3_rank n (x_init self)) as (x & Ex); [rewrite Hxi; simpl; lia|].
  destruct (repeat3_rank n (u_init self) Hu) as (u & Eu).
  unfold rollout, bindM, do_reset, lift, shape_at, no_grad, detach_clone.
  rewrite Hd. cbn [nth_error]. rewrite Ex, Eu.
  destruct train; reflexivity.
Qed.

End ConstructionResults.

(* ------------------------------------------------------------------ *)
(** ** The model run on exact rationals *)

#[export] Instance Qc_Laws : ScalarLaws Qc.
Proof.
  constructor; cbn [lit sadd ssub smul ssqrt Qc_Scalar]; intros.
  - apply Qcplus_0_l.
  - apply Qcplus_0_r.
  - unfold Qcminus. apply Qcplus_opp_r.
  - apply Qcmult_0_l.
  - apply Qcmult_0_r.
  - apply Qcmult_1_r.
  - apply Qcmult_comm.
  - apply Qc_is_canon. reflexivity.
Qed.


Lemma A_lin_blocks_witness :
  exists self,
    __init__ demo_xbar true None None (qc 1) = Ok self
    /\ rows_of (A_lin self)
       = madd (identity 4) (mscale (h self) (A2_blocks (mass self) (qc 1) (b self))).
Proof.
  eexists. split; [reflexivity|].
  apply (A_lin_blocks demo_xbar true None None (qc 1)). reflexivity.
Defined.

Lemma rollout_empty_horizon_witness :
  exists self,
    __init__ demo_xbar true None None (qc 1) = Ok self
    /\ rollout self zero_controller (zeros [2; 0; 4]) false (0, 0)
       = (Raise UnboundLocalError, (2, 0)).
Proof.
  eexists. split; [reflexivity|].
  apply (rollout_empty_horizon demo_xbar true None None (qc 1) zero_controller
           (zeros [2; 0; 4]) false (0, 0) (n := 2) (rest := [4]));
    [reflexivity | simpl; lia | reflexivity].
Defined.

Section LogResults.
Context {S : Type} {Sc : Scalar S} {C : Type}.

(** C3. For a noise tensor of shape [(n, T, 4)] with [T >= 1], [rollout]
    returns the tuple [(x_log, None, u_log)] whose two tensors have the shapes
    [(n, T, 4)] and [(n, T, 2)]; entry [t] of [x_log] is the state obtained by
    advancing the plant with noise slice [t], and entry [t] of [u_log] is the
    answer of the controller to that state. *)
Theorem rollout_returns_logs
    (xbar0 : tensor S) (lp : bool) (xi ui : option (tensor S)) (k0 : S)
    (self : RobotsSystem S) (ctl : controller S C) (noise : tensor S)
    (train : bool) (c0 : C) (n T : nat) :
  __init__ xbar0 lp xi ui k0 = Ok self ->
  plain_arguments xbar0 xi ui ->
  controller_ok n ctl ->
  shape noise = [n; T; 4] -> length (strides noise) = 3 ->
  length (data noise) = n * (T * 4) -> 1 <= T ->
  exists x_log u_log c',
    rollout self ctl noise train c0 = (Ok (x_log, None, u_log), c')
    /\ shape x_log = [n; T; 4] /\ shape u_log = [n; T; 2]
    /\ exists x0 u0,
         repeat3 n (x_init self) = Ok x0 /\ repeat3 n (u_init self) = Ok u0
         /\ length (closed_loop self ctl noise (seq 0 T) x0 u0 (reset ctl c0)) = T
         /\ forall t xt ut,
              nth_error (closed_loop self ctl noise (seq 0 T) x0 u0 (reset ctl c0)) t
              = Some (xt, ut) ->
              recorded x_log t xt /\ recorded u_log t ut.
Proof.
  intros Hinit Args OK Hd Sd Ld HT.
  destruct (init_ready _ _ Hinit Args) as (CP & Hxi & Lxi & Hui & Lui).
  destruct (@rollout_trajectory S Sc C self ctl noise train c0 n T
              CP Hxi Lxi Hui Lui OK Hd Sd Ld HT)
    as (x_log & u_log & c' & Er & Ex0 & Eu0 & Lt & BX & BU & Rec).
  exists x_log, u_log, (reset ctl c'). split; [exact Er|].
  split; [|split].
  - destruct BX as (-> & _). now rewrite stack_length.
  - destruct BU as (-> & _). now rewrite stack_length.
  - eexists _, _. split; [exact Ex0|]. split; [exact Eu0|]. split; [exact Lt|exact Rec].
Qed.

End LogResults.

Section NoiseWidth.
Context {S : Type} {Sc : Scalar S} {C : Type}.

Lemma infer_size_rows4 (N : nat) :
  infer_size [-1; 1; 4]%Z N
  = if N mod 4 =? 0 then Ok [N / 4; 1; 4] else Raise RuntimeError.
Proof.
  unfold infer_size.
  change (known_size [-1; 1; 4]%Z) with 4.
  change (existsb (fun z => (z <? -1)%Z) [-1; 1; 4]%Z) with false.
  change (length (filter (fun z => (z =? -1)%Z) [-1; 1; 4]%Z)) with 1.
  cbn [Nat.ltb Nat.leb Nat.eqb andb map Z.eqb Pos.eqb Z.to_nat].
  change (Pos.to_nat 1) with 1. change (Pos.to_nat 4) with 4.
  destruct (Nat.eqb_spec (N mod 4) 0) as [E|E].
  - now rewrite orb_true_r.
  - destruct (Nat.eqb_spec N 4) as [->|_]; [now elim E|reflexivity].
Qed.


Lemma repeat_batched (n d : nat) (r : list S) :
  length r = d ->
  batched [1; d] (repeat r n) (fresh [n; 1; d] (concat (repeat r n))).
Proof.
  intros Hr. unfold fresh. apply batched_intro.
  - now rewrite repeat_length.
  - replace (size_of [1; d]) with d by (unfold size_of; simpl; lia).
    now apply uniform_repeat.
Qed.



End NoiseWidth.



Section RestFacts.
Context {S : Type} {Sc : Scalar S} {L : ScalarLaws S}.

Lemma chunks_repeat {A : Type} (k n : nat) (a : A) :
  chunks k n (repeat a (n * k)) = repeat (repeat a k) n.
Proof.
  induction n as [|n IH]; simpl; [reflexivity|].
  rewrite repeat_app, firstn_app, skipn_app, repeat_length, Nat.sub_diag.
  rewrite firstn_all2, skipn_all2 by (rewrite repeat_length; lia).
  simpl. now rewrite app_nil_r, IH.
Qed.

Lemma map2_repeat {A B' C' : Type} (f : A -> B' -> C') (a : A) (b : B') (n : nat) :
  map2 f (repeat a n) (repeat b n) = repeat (f a b) n.
Proof. induction n as [|n IH]; simpl; [reflexivity | now rewrite IH]. Qed.

Lemma firstn_repeat' {A : Type} (a : A) (k m : nat) :
  k <= m -> firstn k (repeat a m) = repeat a k.
Proof.
  revert m; induction k as [|k IH]; intros [|m] H; simpl; try lia; [reflexivity..|].
  now rewrite IH by lia.
Qed.

Lemma skipn_repeat' {A : Type} (a : A) (k m : nat) :
  skipn k (repeat a m) = repeat a (m - k).
Proof.
  revert m; induction k as [|k IH]; intros [|m]; simpl; try reflexivity.
  apply IH.
Qed.

Lemma rows_at_zero (T n t : nat) :
  t < T ->
  rows_at 4 t (repeat (repeat zero (T * 4)) n) = repeat (repeat zero 4) n.
Proof.
  intros Ht. unfold rows_at. rewrite map_repeat. f_equal.
  rewrite skipn_repeat', firstn_repeat' by nia. reflexivity.
Qed.

Lemma concat_repeat_concat {A : Type} (r : list A) (T n : nat) :
  concat (repeat (concat (repeat r T)) n) = concat (repeat r (n * T)).
Proof.
  induction n as [|n IH]; simpl; [reflexivity|].
  now rewrite repeat_app, concat_app, IH.
Qed.

(** At the equilibrium, with no input, the plant stays where it is. *)
Lemma dynamics_row_rest (self : RobotsSystem S) :
  canonical_plant self ->
  dynamics_row self (data (xbar self)) [zero; zero] = data (xbar self).
Proof.
  intros (_ & _ & _ & Lxb & HA & LA & HB & LB & HM & LM & _).
  unfold dynamics_row, A_of, rows_of, correction, friction_speed, pair_norms.
  rewrite HA, HB.
  destruct (data (A_lin self)) as [|a0 lA]; [discriminate|]. explode lA.
  destruct (data (B self)) as [|b0 lB]; [discriminate|]. explode lB.
  destruct (data (mask self)) as [|m0 lM]; [discriminate|]. explode lM.
  destruct (data (xbar self)) as [|x0 lx]; [discriminate|]. explode lx.
  destruct (linear_plant self);
    cbn [map2 map chunks firstn skipn madd mscale vadd diag_rows seq length nth
         kron_rows concat app Nat.eqb];
    unfold dot, sum_list, zero; cbn [map2 map fold_left];
    rewrite !ssub_diag, !smul_0_l, !sadd_0_l; reflexivity.
Qed.

Lemma concat_repeat_repeat {A : Type} (a : A) (k n : nat) :
  concat (repeat (repeat a k) n) = repeat a (n * k).
Proof.
  induction n as [|n IH]; simpl; [reflexivity|]. now rewrite IH, repeat_app.
Qed.

Lemma chunks_rest (n : nat) (xb : list S) :
  length xb = 4 -> chunks 4 n (concat (repeat xb n)) = repeat xb n.
Proof.
  intros H. apply chunks_concat_exact; [now apply uniform_repeat|].
  now rewrite repeat_length.
Qed.

Lemma stack_rest (n : nat) (xb : list S) (steps : list (tensor S)) :
  length xb = 4 ->
  Forall (fun x => data x = concat (repeat xb n)) steps ->
  stack 4 n steps = repeat (concat (repeat xb (length steps))) n.
Proof.
  intros Hxb F. unfold stack.
  assert (G : forall a,
            fold_left (fun acc x => map2 (@app S) acc (chunks 4 n (data x)))
                      steps (repeat a n)
            = repeat (a ++ concat (repeat xb (length steps))) n).
  { induction F as [|x steps Hx _ IH]; intros a; cbn [fold_left length repeat concat].
    - now rewrite app_nil_r.
    - rewrite Hx, chunks_rest, map2_repeat, IH by exact Hxb.
      now rewrite <- app_assoc. }
  apply (G []).
Qed.

Section Loop.
Context {C : Type}.

Lemma closed_loop_rest (self : RobotsSystem S) (ctl : controller S C)
    (noise : tensor S) (n T : nat) :
  canonical_plant self -> answers_zero n ctl ->
  shape noise = [n; T; 4] -> length (strides noise) = 3 ->
  data noise = repeat zero (n * (T * 4)) ->
  forall ts, Forall (fun t => t < T) ts ->
  forall x u c,
    shape x = [n; 1; 4] -> length (strides x) = 3 ->
    data x = concat (repeat (data (xbar self)) n) ->
    shape u = [n; 1; 2] -> length (strides u) = 3 ->
    data u = repeat zero (n * 2) ->
    Forall (fun p => data (fst p) = concat (repeat (data (xbar self)) n))
           (closed_loop self ctl noise ts x u c).
Proof.
  intros CP OK Hd Sd Dd ts F.
  pose proof CP as (_ & _ & _ & Lxb & _).
  assert (Bd : batched [T; 4] (repeat (repeat zero (T * 4)) n) noise).
  { repeat split.
    - now rewrite repeat_length.
    - now rewrite concat_repeat_repeat.
    - replace (size_of [T; 4]) with (T * 4) by (unfold size_of; simpl; lia).
      apply uniform_repeat. apply repeat_length. }
  induction F as [|t ts Ht _ IH]; intros x u c Hx Sx Dx Hu Su Du;
    cbn [closed_loop]; [constructor|].
  edestruct (@step_forward S Sc self noise T n t (repeat (repeat zero (T * 4)) n) x u)
    as (rows & Ef & Ur & Nr & Er);
    [exact CP|exact Bd|exact Sd|apply repeat_length|exact Ht
    |exact Hx|exact Sx| |exact Hu|exact Su| |].
  { rewrite Dx, concat_repeat_length. lia. }
  { rewrite Du. apply repeat_length. }
  assert (Erows : rows = repeat (data (xbar self)) n).
  { rewrite Er, Dx, Du, chunks_rest, chunks_repeat, rows_at_zero by assumption.
    rewrite !map2_repeat. f_equal.
    change (repeat zero 2) with [zero; zero].
    rewrite dynamics_row_rest by exact CP.
    destruct (data (xbar self)) as [|x0 lx]; [discriminate|]. explode lx.
    cbn [repeat map2]. unfold zero. now rewrite !sadd_0_r. }
  clear Er. subst rows. rewrite Ef.
  set (x' := fresh [n; 1; 4] (concat (repeat (data (xbar self)) n))).
  assert (Lx' : length (data x') = n * 4).
  { unfold x'. cbn [data fresh]. rewrite concat_repeat_length. lia. }
  destruct (OK t x' c eq_refl Lx') as (Hu' & Su' & Du').
  destruct (call ctl t x' c) as (u' & c'). cbn [fst] in *.
  constructor; [reflexivity|].
  apply IH; try assumption; reflexivity.
Qed.

End Loop.

End RestFacts.

Section Equilibrium.
Context {S : Type} {Sc : Scalar S} {L : ScalarLaws S} {C : Type}.

Lemma Forall_map_fst {A B' : Type} (P : A -> Prop) (l : list (A * B')) :
  Forall (fun p => P (fst p)) l -> Forall P (map fst l).
Proof. induction 1; simpl; constructor; auto. Qed.

(** C7, as amended.  When [x_init] is [xbar], the initial input [u_init] is
    zero, the controller answers zero at every step and the noise is zero,
    every state of the returned trajectory is [xbar], for every batch size,
    every horizon [T >= 1] and both kinds of plant. *)
Theorem rollout_stays_at_equilibrium
    (xbar0 : tensor S) (lp : bool) (xi ui : option (tensor S)) (k0 : S)
    (self : RobotsSystem S) (ctl : controller S C) (noise : tensor S)
    (train : bool) (c0 : C) (n T : nat) :
  __init__ xbar0 lp xi ui k0 = Ok self ->
  length (data xbar0) = numel xbar0 ->
  (forall x0, xi = Some x0 -> data x0 = data xbar0) ->
  (forall u0, ui = Some u0 -> shape u0 = [1; 2] /\ data u0 = [zero; zero]) ->
  answers_zero n ctl ->
  shape noise = [n; T; 4] -> length (strides noise) = 3 ->
  data noise = repeat zero (n * (T * 4)) -> 1 <= T ->
  exists x_log u_log c',
    rollout self ctl noise train c0 = (Ok (x_log, None, u_log), c')
    /\ shape x_log = [n; T; 4]
    /\ data x_log = concat (repeat (data (xbar self)) (n * T)).
Proof.
  intros Hinit Lx Hxi Hui OK Hd Sd Dd HT.
  destruct (init_ok _ _ _ _ _ Hinit)
    as (CP & _ & Dxb & _ & Dxi & Eui & _ & _ & _ & _ & _ & _ & Nxi).
  pose proof (CP Lx) as CP'.
  pose proof CP' as (_ & _ & _ & Lxb & _).
  assert (Args : plain_arguments xbar0 xi ui).
  { split; [exact Lx|]. split.
    - intros x0 E. rewrite (Hxi x0 E), (Nxi x0 E), <- Dxb. exact Lxb.
    - intros u0 E. destruct (Hui u0 E) as (Hs & Hdu). split; [exact Hs|now rewrite Hdu]. }
  destruct (init_ready _ _ Hinit Args) as (_ & Hxi' & Lxi' & Hui' & Lui').
  assert (OK' : controller_ok n ctl).
  { intros t x c Hx Lxx. destruct (OK t x c Hx Lxx) as (A1 & A2 & A3).
    split; [exact A1|]. split; [exact A2|]. rewrite A3. apply repeat_length. }
  assert (Ld : length (data noise) = n * (T * 4)) by (rewrite Dd; apply repeat_length).
  destruct (@rollout_trajectory S Sc C self ctl noise train c0 n T
              CP' Hxi' Lxi' Hui' Lui' OK' Hd Sd Ld HT)
    as (x_log & u_log & c' & Er & _ & _ & Lt & BX & _ & _).
  assert (Exi : data (x_init self) = data (xbar self)).
  { rewrite Dxi, Dxb. destruct xi as [x0|]; [exact (Hxi x0 eq_refl)|reflexivity]. }
  assert (Eu0 : data (u_init self) = [zero; zero]).
  { rewrite Eui. destruct ui as [u0|]; [exact (proj2 (Hui u0 eq_refl))|reflexivity]. }
  rewrite Exi, Eu0 in *.
  assert (F : Forall (fun p => data (fst p) = concat (repeat (data (xbar self)) n))
                     (closed_loop self ctl noise (seq 0 T)
                        (fresh [n; 1; 4] (concat (repeat (data (xbar self)) n)))
                        (fresh [n; 1; 2] (concat (repeat [zero; zero] n)))
                        (reset ctl c0))).
  { apply closed_loop_rest with (T := T); try assumption; try reflexivity.
    - apply Forall_forall. intros t Ht. apply in_seq in Ht. lia.
    - cbn [data fresh]. change [zero; zero] with (repeat zero 2).
      apply concat_repeat_repeat. }
  exists x_log, u_log, (reset ctl c'). split; [exact Er|].
  destruct BX as (HsX & HdX & _).
  split.
  - rewrite HsX. now rewrite stack_length.
  - rewrite HdX.
    rewrite (@stack_rest S n (data (xbar self)) _ Lxb (Forall_map_fst _ F)).
    rewrite length_map, Lt. apply concat_repeat_concat.
Qed.

End Equilibrium.

(** C7 as stated fails when the plant is built with a nonzero [u_init]: the
    first step applies it, and the first state leaves [xbar]. *)
Lemma rollout_leaves_equilibrium :
  exists self x_log u_log c',
    __init__ demo_xbar true None (Some (fresh [1; 2] [qc 1; qc 0])) (qc 1) = Ok self
    /\ data (x_init self) = data (xbar self)
    /\ answers_zero 1 zero_controller
    /\ rollout self zero_controller (zeros [1; 1; 4]) false (0, 0)
       = (Ok (x_log, None, u_log), c')
    /\ data x_log <> data (xbar self).
Proof.
  eexists _, _, _, _. split; [reflexivity|]. split; [reflexivity|].
  split.
  { intros t x c Hx _. unfold zero_controller. cbn [call fst]. rewrite Hx.
    repeat split. }
  split; [vm_compute; reflexivity|].
  intros H. apply (f_equal (fun l => this (nth 2 l (qc 0)))) in H.
  vm_compute in H. discriminate H.
Qed.

Lemma rollout_stays_at_equilibrium_witness :
  exists self,
    __init__ demo_xbar false None None (qc 1) = Ok self
    /\ exists x_log u_log c',
         rollout self zero_controller (zeros [2; 3; 4]) true (0, 0)
         = (Ok (x_log, None, u_log), c')
         /\ shape x_log = [2; 3; 4]
         /\ data x_log = concat (repeat (data (xbar self)) (2 * 3)).
Proof.
  eexists. split; [reflexivity|].
  apply (@rollout_stays_at_equilibrium Qc Qc_Scalar Qc_Laws (nat * nat)
           demo_xbar false None None (qc 1) _ zero_controller (zeros [2; 3; 4])
           true (0, 0) 2 3).
  - reflexivity.
  - reflexivity.
  - discriminate.
  - discriminate.
  - intros t x c Hx _. unfold zero_controller. cbn [call fst]. rewrite Hx.
    repeat split.
  - reflexivity.
  - reflexivity.
  - reflexivity.
  - lia.
Defined.

Section PairFacts.
Context {S : Type} {Sc : Scalar S} {C : Type}.

Lemma chunks_two {A : Type} (k : nat) (a b : list A) :
  length a = k -> length b = k -> chunks k 2 (a ++ b) = [a; b].
Proof.
  intros <- Hb. cbn [chunks].
  rewrite firstn_app, skipn_app, Nat.sub_diag, firstn_all, skipn_all.
  cbn [firstn skipn app]. rewrite app_nil_r. rewrite <- Hb. now rewrite firstn_all.
Qed.

Lemma chunks_one {A : Type} (k : nat) (a : list A) :
  length a = k -> chunks k 1 a = [a].
Proof. intros Ha. cbn [chunks]. rewrite <- Ha. now rewrite firstn_all. Qed.

Lemma batched_two (T : nat) (w0 w1 : list S) (t : tensor S) :
  shape t = [2; T; 4] -> data t = w0 ++ w1 ->
  length w0 = T * 4 -> length w1 = T * 4 ->
  batched [T; 4] [w0; w1] t.
Proof.
  intros Hs Hd H0 H1. repeat split.
  - exact Hs.
  - cbn [concat]. now rewrite app_nil_r.
  - replace (size_of [T; 4]) with (T * 4) by (unfold size_of; simpl; lia).
    repeat constructor; assumption.
Qed.

Lemma batched_one (T : nat) (w0 : list S) (t : tensor S) :
  shape t = [1; T; 4] -> data t = w0 -> length w0 = T * 4 ->
  batched [T; 4] [w0] t.
Proof.
  intros Hs Hd H0. repeat split.
  - exact Hs.
  - cbn [concat]. now rewrite app_nil_r.
  - replace (size_of [T; 4]) with (T * 4) by (unfold size_of; simpl; lia).
    repeat constructor; assumption.
Qed.

Lemma closed_loop_halves (self : RobotsSystem S) (ctl : controller S C)
    (R : C -> C -> C -> Prop) (T : nat) (w0 w1 : list S) (d d0 d1 : tensor S) :
  canonical_plant self ->
  controller_ok 2 ctl -> controller_ok 1 ctl -> batch_pointwise ctl R ->
  batched [T; 4] [w0; w1] d -> length (strides d) = 3 ->
  batched [T; 4] [w0] d0 -> length (strides d0) = 3 ->
  batched [T; 4] [w1] d1 -> length (strides d1) = 3 ->
  forall ts, Forall (fun t => t < T) ts ->
  forall x x0 x1 u u0 u1 c c0 c1,
    halves 4 x x0 x1 -> halves 2 u u0 u1 ->
    length (strides x) = 3 -> length (strides x0) = 3 -> length (strides x1) = 3 ->
    length (strides u) = 3 -> length (strides u0) = 3 -> length (strides u1) = 3 ->
    R c c0 c1 ->
    coupled (closed_loop self ctl d ts x u c)
            (closed_loop self ctl d0 ts x0 u0 c0)
            (closed_loop self ctl d1 ts x1 u1 c1).
Proof.
  intros CP OK2 OK1 (_ & PW) Bd Sd Bd0 Sd0 Bd1 Sd1 ts F.
  induction F as [|t ts Ht _ IH];
    intros x x0 x1 u u0 u1 c c0 c1 Hx Hu Sx Sx0 Sx1 Su Su0 Su1 HR;
    cbn [closed_loop]; [constructor|].
  destruct Hx as (a & b & La & Lb & Hsx & Hdx & Hsx0 & Hdx0 & Hsx1 & Hdx1).
  destruct Hu as (ua & ub & Lua & Lub & Hsu & Hdu & Hsu0 & Hdu0 & Hsu1 & Hdu1).
  edestruct (@step_forward S Sc self d T 2 t [w0; w1] x u)
    as (rows & Ef & Ur & Nr & Er);
    [exact CP|exact Bd|exact Sd|reflexivity|exact Ht
    |exact Hsx|exact Sx| |exact Hsu|exact Su| |].
  { rewrite Hdx, length_app. lia. }
  { rewrite Hdu, length_app. lia. }
  edestruct (@step_forward S Sc self d0 T 1 t [w0] x0 u0)
    as (rows0 & Ef0 & Ur0 & Nr0 & Er0);
    [exact CP|exact Bd0|exact Sd0|reflexivity|exact Ht
    |exact Hsx0|exact Sx0| |exact Hsu0|exact Su0| |].
  { rewrite Hdx0. lia. }
  { rewrite Hdu0. lia. }
  edestruct (@step_forward S Sc self d1 T 1 t [w1] x1 u1)
    as (rows1 & Ef1 & Ur1 & Nr1 & Er1);
    [exact CP|exact Bd1|exact Sd1|reflexivity|exact Ht
    |exact Hsx1|exact Sx1| |exact Hsu1|exact Su1| |].
  { rewrite Hdx1. lia. }
  { rewrite Hdu1. lia. }
  rewrite Hdx, Hdu, !chunks_two in Er by assumption.
  rewrite Hdx0, Hdu0, !chunks_one in Er0 by assumption.
  rewrite Hdx1, Hdu1, !chunks_one in Er1 by assumption.
  unfold rows_at in Er, Er0, Er1. cbn [map map2] in Er, Er0, Er1.
  set (ra := map2 sadd (dynamics_row self a ua) (firstn 4 (skipn (t * 4) w0))) in *.
  set (rb := map2 sadd (dynamics_row self b ub) (firstn 4 (skipn (t * 4) w1))) in *.
  assert (Lra : length ra = 4).
  { rewrite Er in Ur. inversion Ur; assumption. }
  assert (Lrb : length rb = 4).
  { rewrite Er1 in Ur1. inversion Ur1; assumption. }
  rewrite Ef, Ef0, Ef1. rewrite Er, Er0, Er1.
  set (x' := fresh [2; 1; 4] (concat [ra; rb])).
  set (x0' := fresh [1; 1; 4] (concat [ra])).
  set (x1' := fresh [1; 1; 4] (concat [rb])).
  assert (Hx' : halves 4 x' x0' x1').
  { exists ra, rb. unfold x', x0', x1'. cbn [shape data fresh concat].
    rewrite !app_nil_r. repeat split; assumption. }
  destruct (PW t x' x0' x1' c c0 c1 HR Hx') as (Hu' & HR').
  destruct (OK2 t x' c) as (_ & Su' & _);
    [reflexivity|unfold x'; cbn [data fresh concat]; rewrite !length_app; simpl; lia|].
  destruct (OK1 t x0' c0) as (_ & Su0' & _);
    [reflexivity|unfold x0'; cbn [data fresh concat]; rewrite !length_app; simpl; lia|].
  destruct (OK1 t x1' c1) as (_ & Su1' & _);
    [reflexivity|unfold x1'; cbn [data fresh concat]; rewrite !length_app; simpl; lia|].
  destruct (call ctl t x' c) as (u' & c').
  destruct (call ctl t x0' c0) as (u0' & c0').
  destruct (call ctl t x1' c1) as (u1' & c1').
  cbn [fst snd] in *.
  constructor; [exact Hx'|exact Hu'|].
  apply IH; try assumption; reflexivity.
Qed.

Lemma stack_halves (d : nat) (proj : tensor S * tensor S -> tensor S)
    (l l0 l1 : list (tensor S * tensor S)) :
  (forall x u x0 u0 x1 u1 m m0 m1,
      coupled ((x, u) :: m) ((x0, u0) :: m0) ((x1, u1) :: m1) ->
      halves d (proj (x, u)) (proj (x0, u0)) (proj (x1, u1))) ->
  coupled l l0 l1 ->
  exists A B,
    stack d 2 (map proj l) = [A; B]
    /\ stack d 1 (map proj l0) = [A]
    /\ stack d 1 (map proj l1) = [B].
Proof.
  intros Hp Hc. unfold stack.
  assert (G : forall A0 B0,
            exists A B,
              fold_left (fun acc x => map2 (@app S) acc (chunks d 2 (data x)))
                        (map proj l) [A0; B0] = [A; B]
              /\ fold_left (fun acc x => map2 (@app S) acc (chunks d 1 (data x)))
                           (map proj l0) [A0] = [A]
              /\ fold_left (fun acc x => map2 (@app S) acc (chunks d 1 (data x)))
                           (map proj l1) [B0] = [B]).
  { induction Hc as [|x u x0 u0 x1 u1 l l0 l1 Hx Hu Hc IH]; intros A0 B0.
    - exists A0, B0. repeat split.
    - pose proof (Hp _ _ _ _ _ _ _ _ _ (coupled_cons Hx Hu Hc))
        as (a & b & La & Lb & _ & Da & _ & Da0 & _ & Da1).
      cbn [map fold_left]. rewrite Da, Da0, Da1.
      rewrite chunks_two, !chunks_one by assumption.
      cbn [map2]. apply IH. }
  apply (G [] []).
Qed.

Lemma select0_two (T d : nat) (A B' : list S) (t : tensor S) :
  shape t = [2; T; d] -> data t = A ++ B' ->
  length A = T * d -> length B' = T * d ->
  shape (select0 0 t) = [1; T; d] /\ data (select0 0 t) = A
  /\ shape (select0 1 t) = [1; T; d] /\ data (select0 1 t) = B'
  /\ strides (select0 0 t) = strides t /\ strides (select0 1 t) = strides t.
Proof.
  intros Hs Hd HA HB. unfold select0. rewrite Hs, Hd.
  replace (size_of [T; d]) with (T * d) by (unfold size_of; simpl; lia).
  cbn [Nat.min Nat.sub shape data strides].
  rewrite !Nat.mul_1_l, Nat.mul_0_l. cbn [skipn].
  repeat split.
  - rewrite firstn_app, <- HA, firstn_all, Nat.sub_diag. cbn [firstn].
    apply app_nil_r.
  - rewrite skipn_app, <- HA, skipn_all, Nat.sub_diag. cbn [skipn app].
    rewrite HA, <- HB. apply firstn_all.
Qed.

Lemma batched_pair_inv (T d : nat) (A B' : list S) (t : tensor S) :
  batched [T; d] [A; B'] t ->
  shape t = [2; T; d] /\ data t = A ++ B' /\ length A = T * d /\ length B' = T * d.
Proof.
  intros (Hs & Hd & U).
  replace (size_of [T; d]) with (T * d) in U by (unfold size_of; simpl; lia).
  inversion U as [|? ? HA U']; subst. inversion U' as [|? ? HB _]; subst.
  cbn [concat] in Hd. rewrite app_nil_r in Hd. repeat split; assumption.
Qed.

Lemma batched_single_inv (T d : nat) (A : list S) (t : tensor S) :
  batched [T; d] [A] t -> shape t = [1; T; d] /\ data t = A.
Proof.
  intros (Hs & Hd & _). cbn [concat] in Hd. rewrite app_nil_r in Hd.
  split; assumption.
Qed.

Lemma coupled_head (x u x0 u0 x1 u1 : tensor S)
    (m m0 m1 : list (tensor S * tensor S)) :
  coupled ((x, u) :: m) ((x0, u0) :: m0) ((x1, u1) :: m1) ->
  halves 4 x x0 x1 /\ halves 2 u u0 u1.
Proof. inversion 1; subst. split; assumption. Qed.

End PairFacts.

Section BatchIndependence.
Context {S : Type} {Sc : Scalar S} {C : Type}.

(** C9. For a batch-pointwise controller and a noise tensor of batch size 2,
    each entry of the trajectories [rollout] returns on the batch is the
    trajectory [rollout] returns on that entry alone, run on the matching
    noise sequence. *)
Theorem rollout_batch_independent
    (xbar0 : tensor S) (lp : bool) (xi ui : option (tensor S)) (k0 : S)
    (self : RobotsSystem S) (ctl : controller S C) (R : C -> C -> C -> Prop)
    (noise : tensor S) (train : bool) (c c0 c1 : C) (T : nat) :
  __init__ xbar0 lp xi ui k0 = Ok self ->
  plain_arguments xbar0 xi ui ->
  controller_ok 2 ctl -> controller_ok 1 ctl ->
  batch_pointwise ctl R -> R c c0 c1 ->
  shape noise = [2; T; 4] -> length (strides noise) = 3 ->
  length (data noise) = 2 * (T * 4) -> 1 <= T ->
  exists xl ul c' xl0 ul0 c0' xl1 ul1 c1',
    rollout self ctl noise train c = (Ok (xl, None, ul), c')
    /\ rollout self ctl (select0 0 noise) train c0 = (Ok (xl0, None, ul0), c0')
    /\ rollout self ctl (select0 1 noise) train c1 = (Ok (xl1, None, ul1), c1')
    /\ same_values (select0 0 xl) xl0 /\ same_values (select0 0 ul) ul0
    /\ same_values (select0 1 xl) xl1 /\ same_values (select0 1 ul) ul1.
Proof.
  intros Hinit Args OK2 OK1 PW HR Hd Sd Ld HT.
  destruct (init_ready _ _ Hinit Args) as (CP & Hxi & Lxi & Hui & Lui).
  set (w0 := firstn (T * 4) (data noise)).
  set (w1 := skipn (T * 4) (data noise)).
  assert (Dw : data noise = w0 ++ w1) by (symmetry; apply firstn_skipn).
  assert (L0 : length w0 = T * 4) by (unfold w0; rewrite length_firstn; lia).
  assert (L1 : length w1 = T * 4) by (unfold w1; rewrite length_skipn; lia).
  destruct (@select0_two S T 4 w0 w1 noise Hd Dw L0 L1) as (Hs0 & Hd0 & Hs1 & Hd1 & St0 & St1).
  assert (Sd0 : length (strides (select0 0 noise)) = 3) by now rewrite St0.
  assert (Sd1 : length (strides (select0 1 noise)) = 3) by now rewrite St1.
  destruct (@rollout_trajectory S Sc C self ctl noise train c 2 T
              CP Hxi Lxi Hui Lui OK2 Hd Sd Ld HT)
    as (xl & ul & c' & Er & _ & _ & _ & BX & BU & _).
  destruct (@rollout_trajectory S Sc C self ctl (select0 0 noise) train c0 1 T
              CP Hxi Lxi Hui Lui OK1 Hs0 Sd0 ltac:(rewrite Hd0; lia) HT)
    as (xl0 & ul0 & c0' & Er0 & _ & _ & _ & BX0 & BU0 & _).
  destruct (@rollout_trajectory S Sc C self ctl (select0 1 noise) train c1 1 T
              CP Hxi Lxi Hui Lui OK1 Hs1 Sd1 ltac:(rewrite Hd1; lia) HT)
    as (xl1 & ul1 & c1' & Er1 & _ & _ & _ & BX1 & BU1 & _).
  assert (Cp : coupled
    (closed_loop self ctl noise (seq 0 T)
       (fresh [2; 1; 4] (concat (repeat (data (x_init self)) 2)))
       (fresh [2; 1; 2] (concat (repeat (data (u_init self)) 2))) (reset ctl c))
    (closed_loop self ctl (select0 0 noise) (seq 0 T)
       (fresh [1; 1; 4] (concat (repeat (data (x_init self)) 1)))
       (fresh [1; 1; 2] (concat (repeat (data (u_init self)) 1))) (reset ctl c0))
    (closed_loop self ctl (select0 1 noise) (seq 0 T)
       (fresh [1; 1; 4] (concat (repeat (data (x_init self)) 1)))
       (fresh [1; 1; 2] (concat (repeat (data (u_init self)) 1))) (reset ctl c1))).
  { apply closed_loop_halves with (R := R) (T := T) (w0 := w0) (w1 := w1);
      try assumption; try reflexivity.
    - now apply batched_two.
    - now apply batched_one.
    - now apply batched_one.
    - apply Forall_forall. intros t Ht. apply in_seq in Ht. lia.
    - exists (data (x_init self)), (data (x_init self)).
      cbn [shape data fresh repeat concat]. rewrite !app_nil_r. repeat split; assumption.
    - exists (data (u_init self)), (data (u_init self)).
      cbn [shape data fresh repeat concat]. rewrite !app_nil_r. repeat split; assumption.
    - apply PW. exact HR. }
  destruct (@stack_halves S 4 fst _ _ _
              (fun x u x0 u0 x1 u1 m m0 m1 H => proj1 (coupled_head H)) Cp)
    as (A & B' & EA & EA0 & EA1).
  destruct (@stack_halves S 2 snd _ _ _
              (fun x u x0 u0 x1 u1 m m0 m1 H => proj2 (coupled_head H)) Cp)
    as (P & Q & EP & EP0 & EP1).
  rewrite EA in BX. rewrite EA0 in BX0. rewrite EA1 in BX1.
  rewrite EP in BU. rewrite EP0 in BU0. rewrite EP1 in BU1.
  destruct (@batched_pair_inv S T 4 A B' xl BX) as (SX & DX & LA & LB).
  destruct (@batched_pair_inv S T 2 P Q ul BU) as (SU & DU & LP & LQ).
  destruct (@batched_single_inv S T 4 A xl0 BX0) as (SX0 & DX0).
  destruct (@batched_single_inv S T 4 B' xl1 BX1) as (SX1 & DX1).
  destruct (@batched_single_inv S T 2 P ul0 BU0) as (SU0 & DU0).
  destruct (@batched_single_inv S T 2 Q ul1 BU1) as (SU1 & DU1).
  destruct (@select0_two S T 4 A B' xl SX DX LA LB) as (X1 & X2 & X3 & X4 & _).
  destruct (@select0_two S T 2 P Q ul SU DU LP LQ) as (U1 & U2 & U3 & U4 & _).
  exists xl, ul, (reset ctl c'), xl0, ul0, (reset ctl c0'), xl1, ul1, (reset ctl c1').
  split; [exact Er|]. split; [exact Er0|]. split; [exact Er1|].
  unfold same_values. repeat split; congruence.
Qed.

End BatchIndependence.

Lemma demo_states_batched :
  batched [1; 4] demo_states (fresh [2; 1; 4] (concat demo_states)).
Proof. repeat split; repeat constructor. Defined.

Lemma demo_inputs_batched :
  batched [1; 2] demo_inputs (fresh [2; 1; 2] (concat demo_inputs)).
Proof. repeat split; repeat constructor. Defined.

Lemma noiseless_forward_affine_witness :
  exists self,
    __init__ demo_xbar false None None (qc 1) = Ok self
    /\ noiseless_forward self 0 (fresh [2; 1; 4] (concat demo_states))
                         (fresh [2; 1; 2] (concat demo_inputs))
       = Ok (fresh [2; 1; 4] (concat (map2 (affine_step self) demo_states demo_inputs))).
Proof.
  eexists. split; [reflexivity|].
  apply (@noiseless_forward_affine Qc Qc_Scalar Qc_Laws demo_xbar false None None (qc 1)
           _ 0 demo_states demo_inputs _ _ eq_refl eq_refl
           demo_states_batched eq_refl demo_inputs_batched eq_refl eq_refl).
Defined.

Lemma A_nonlin_friction_witness :
  exists self,
    __init__ demo_xbar false None None (qc 1) = Ok self
    /\ A_nonlin self (fresh [2; 1; 4] (concat demo_states))
       = Ok (fresh [2; 4; 4]
                   (concat (map (fun xr => concat (nonlinear_matrix self (friction_diag xr)))
                                demo_states))).
Proof.
  eexists. split; [reflexivity|].
  apply (@A_nonlin_friction Qc Qc_Scalar Qc_Laws demo_xbar None None (qc 1)
           _ demo_states _ eq_refl eq_refl demo_states_batched eq_refl).
Defined.

(** C2 as stated fails.  At the state [(0, 1, 0, 2)] the code puts
    [(0, 0, 2, 2)] on the diagonal; one scalar per axis on the position and
    velocity rows of that axis would give [(1, 1, 2, 2)] with the axes read as
    the pairs of the view, and [(0, 2, 0, 2)] with the axes of [A_lin]. *)
Lemma A_nonlin_not_per_axis :
  exists self A,
    __init__ demo_xbar false None None (qc 1) = Ok self
    /\ A_nonlin self (fresh [1; 1; 4] [qc 0; qc 1; qc 0; qc 2]) = Ok A
    /\ data A <> concat (nonlinear_matrix self (claimed_diag_pairs [qc 0; qc 1; qc 0; qc 2]))
    /\ data A <> concat (nonlinear_matrix self (claimed_diag_axes [qc 0; qc 1; qc 0; qc 2])).
Proof.
  eexists _, _. split; [reflexivity|]. split; [vm_compute; reflexivity|].
  split; intros H.
  - apply (f_equal (fun l => this (nth 0 l (qc 0)))) in H.
    vm_compute in H. discriminate H.
  - apply (f_equal (fun l => this (nth 5 l (qc 0)))) in H.
    vm_compute in H. discriminate H.
Qed.

Lemma zero_controller_ok (n : nat) : controller_ok n zero_controller.
Proof.
  intros t x c Hx _. unfold zero_controller. cbn [call fst]. rewrite Hx.
  cbn [hd]. repeat split.
  cbn [data zeros fresh]. rewrite repeat_length. unfold size_of; simpl; lia.
Defined.

Lemma rollout_returns_logs_witness :
  exists self,
    __init__ demo_xbar false None None (qc 1) = Ok self
    /\ exists x_log u_log c',
         rollout self zero_controller (zeros [2; 3; 4]) false (0, 0)
         = (Ok (x_log, None, u_log), c')
         /\ shape x_log = [2; 3; 4] /\ shape u_log = [2; 3; 2].
Proof.
  eexists. split; [reflexivity|].
  destruct (@rollout_returns_logs Qc Qc_Scalar (nat * nat) demo_xbar false None None
              (qc 1) _ zero_controller (zeros [2; 3; 4]) false (0, 0) 2 3 eq_refl)
    as (x_log & u_log & c' & Er & Hx & Hu & _).
  - split; [reflexivity|]. split; discriminate.
  - apply zero_controller_ok.
  - reflexivity.
  - reflexivity.
  - reflexivity.
  - lia.
  - exists x_log, u_log, c'. split; [exact Er|]. split; assumption.
Defined.

Lemma zero_controller_pointwise :
  batch_pointwise zero_controller (fun _ _ _ => True).
Proof.
  split; [trivial|].
  intros t x x0 x1 c c0 c1 _ (a & b & _ & _ & Hx & _ & Hx0 & _ & Hx1 & _).
  split; [|trivial].
  unfold zero_controller. cbn [call fst]. rewrite Hx, Hx0, Hx1.
  exists [zero; zero], [zero; zero]. repeat split.
Defined.

Lemma rollout_batch_independent_witness :
  exists self,
    __init__ demo_xbar false None None (qc 1) = Ok self
    /\ exists xl ul c' xl0 ul0 c0' xl1 ul1 c1',
         rollout self zero_controller
                 (fresh [2; 1; 4] [qc 1; qc 0; qc 0; qc 0; qc 0; qc 0; qc 2; qc 0]) false (0, 0)
         = (Ok (xl, None, ul), c')
         /\ rollout self zero_controller
                    (select0 0 (fresh [2; 1; 4] [qc 1; qc 0; qc 0; qc 0; qc 0; qc 0; qc 2; qc 0]))
                    false (0, 0)
            = (Ok (xl0, None, ul0), c0')
         /\ rollout self zero_controller
                    (select0 1 (fresh [2; 1; 4] [qc 1; qc 0; qc 0; qc 0; qc 0; qc 0; qc 2; qc 0]))
                    false (0, 0)
            = (Ok (xl1, None, ul1), c1')
         /\ same_values (select0 0 xl) xl0 /\ same_values (select0 0 ul) ul0
         /\ same_values (select0 1 xl) xl1 /\ same_values (select0 1 ul) ul1.
Proof.
  eexists. split; [reflexivity|].
  apply (@rollout_batch_independent Qc Qc_Scalar (nat * nat) demo_xbar false None None
           (qc 1) _ zero_controller (fun _ _ _ => True)
           (fresh [2; 1; 4] [qc 1; qc 0; qc 0; qc 0; qc 0; qc 0; qc 2; qc 0])
           false (0, 0) (0, 0) (0, 0) 1 eq_refl).
  - split; [reflexivity|]. split; discriminate.
  - apply zero_controller_ok.
  - apply zero_controller_ok.
  - apply zero_controller_pointwise.
  - exact I.
  - reflexivity.
  - reflexivity.
  - reflexivity.
  - lia.
Defined.

(* ------------------------------------------------------------------ *)
(** ** The gradient mode and the values *)

Section GradFacts.
Context {S : Type} {Sc : Scalar S} {C : Type}.

Lemma erases_ret {A A0} (mode : bool) (f : A -> A0) (a : A) :
  erases (C := C) mode (ret (f a)) (ret a) f.
Proof. intros c. split; reflexivity. Qed.

Lemma erases_lift {A A0} (mode : bool) (f : A -> A0) (r : result A) (r0 : result A0) :
  r0 = map_result f r ->
  erases (C := C) mode (lift r0) (lift r) f.
Proof. intros -> c. split; reflexivity. Qed.

Lemma erases_local {A A0} (mode : bool) (f : A -> A0) (v : option A) :
  erases (C := C) mode (local (option_map f v)) (local v) f.
Proof. destruct v; intros c; split; reflexivity. Qed.

Lemma erases_bind {A A0 B B0} (mode : bool) (f : A -> A0) (h : B -> B0)
    (a0 : Action C A0) (a : Action (world C) A)
    (k0 : A0 -> Action C B0) (k : A -> Action (world C) B) :
  erases mode a0 a f ->
  (forall x, erases mode (k0 (f x)) (k x) h) ->
  erases mode (bindM a0 k0) (bindM a k) h.
Proof.
  intros Ha Hk c. unfold bindM.
  destruct (Ha c) as [E1 E2]. rewrite E1.
  destruct (a (mode, c)) as [[x|e] [m c']]; cbn [fst snd map_result] in *.
  - subst m. apply Hk.
  - subst m. split; reflexivity.
Qed.

Lemma erases_mode {A A0} (mode : bool) (f : A -> A0)
    (a0 : Action C A0) (k : bool -> Action (world C) A) :
  erases mode a0 (k mode) f ->
  erases mode a0 (bindM is_grad_enabled k) f.
Proof. intros H c. exact (H c). Qed.

Lemma erases_no_grad {A A0} (mode : bool) (f : A -> A0)
    (a0 : Action C A0) (a : Action (world C) A) :
  erases false a0 a f ->
  erases mode (no_grad a0) (with_no_grad a) f.
Proof.
  intros H c. unfold no_grad, with_no_grad. cbn [fst snd].
  destruct (H c) as [E _]. rewrite E.
  destruct (a (false, c)) as [r w']. split; reflexivity.
Qed.

Lemma erases_reset (mode : bool) (ctl : grad_controller S C) :
  erases mode (do_reset (forget mode ctl)) (g_do_reset ctl) (fun u : unit => u).
Proof. intros c. split; reflexivity. Qed.

Lemma erases_call (mode : bool) (ctl : grad_controller S C) (t : nat) (x : gtensor S) :
  grad_blind ctl ->
  forall mode0,
    erases mode (do_call (forget mode0 ctl) t (value x)) (g_do_call ctl t x) (@value S).
Proof.
  intros Hb mode0 c. unfold do_call, g_do_call, forget. cbn [call fst snd].
  destruct (Hb mode t x c) as [E1 E2].
  destruct (g_call ctl mode t x c) as [u c'] eqn:Eu. cbn [fst snd] in *.
  rewrite <- E1, <- E2. split; reflexivity.
Qed.

Lemma map_result_bind {A B B0} (f : B -> B0) (r : result A) (k : A -> result B) :
  map_result f (bind r k) = bind r (fun a => map_result f (k a)).
Proof. destruct r; reflexivity. Qed.

Lemma g_slice1_value (mode : bool) (lo hi : nat) (t : gtensor S) :
  slice1 lo hi (value t) = map_result (@value S) (g_slice1 mode lo hi t).
Proof. unfold g_slice1. destruct (slice1 lo hi (value t)); reflexivity. Qed.

Lemma g_cat_value (mode : bool) (dim : nat) (a b : gtensor S) :
  cat dim (value a) (value b) = map_result (@value S) (g_cat mode dim a b).
Proof. unfold g_cat. destruct (cat dim (value a) (value b)); reflexivity. Qed.

Lemma g_repeat3_value (mode : bool) (n : nat) (t : tensor S) :
  repeat3 n (detach_clone t)
  = map_result (@value S) (g_repeat3 mode n (g_detach_clone t)).
Proof.
  unfold g_repeat3, g_detach_clone. cbn [value].
  destruct (repeat3 n (detach_clone t)); reflexivity.
Qed.

Lemma g_forward_value (buffers mode : bool) (self : RobotsSystem S) (t : nat)
    (x u w : gtensor S) :
  forward self t (value x) (value u) (value w)
  = map_result (@value S) (g_forward buffers mode self t x u w).
Proof.
  unfold g_forward. destruct (forward self t (value x) (value u) (value w)); reflexivity.
Qed.

(** One turn of the loop computes the values of the value-level turn, in
    either mode. *)
Lemma g_loop_body_erases (buffers mode mode0 : bool) (self : RobotsSystem S)
    (ctl : grad_controller S C) (data : gtensor S) (t : nat) (l : glocals S) :
  grad_blind ctl ->
  erases mode (loop_body self (forget mode0 ctl) (value data) t (erase_locals l))
         (g_loop_body buffers self ctl data t l) (@erase_locals S).
Proof.
  intros Hb. unfold loop_body, g_loop_body.
  apply erases_mode.
  eapply erases_bind; [apply erases_lift, g_slice1_value|]. intros w.
  eapply erases_bind; [apply erases_lift; cbn [erase_locals l_x l_u]; apply g_forward_value|].
  intros x.
  eapply erases_bind; [apply erases_call, Hb|]. intros u.
  destruct (t =? 0).
  - apply (erases_ret mode (@erase_locals S) (mkGLocals x u (Some x) (Some u))).
  - eapply erases_bind; [cbn [erase_locals l_x_log]; apply erases_local|]. intros xl.
    eapply erases_bind; [apply erases_lift, g_cat_value|]. intros x_log.
    eapply erases_bind; [cbn [erase_locals l_u_log]; apply erases_local|]. intros ul.
    eapply erases_bind; [apply erases_lift, g_cat_value|]. intros u_log.
    apply (erases_ret mode (@erase_locals S) (mkGLocals x u (Some x_log) (Some u_log))).
Qed.

Lemma g_for_range_erases (buffers mode mode0 : bool) (self : RobotsSystem S)
    (ctl : grad_controller S C) (data : gtensor S) (ts : list nat) :
  grad_blind ctl ->
  forall l : glocals S,
    erases mode
           (for_range ts (loop_body self (forget mode0 ctl) (value data)) (erase_locals l))
           (g_for_range ts (g_loop_body buffers self ctl data) l) (@erase_locals S).
Proof.
  intros Hb. induction ts as [|t ts IH]; intros l; cbn [for_range g_for_range].
  - apply erases_ret.
  - eapply erases_bind; [apply g_loop_body_erases, Hb|]. exact IH.
Qed.

(** With the flags left out, [g_rollout] is [rollout]: the value-level model
    is the reading of the code for a controller that does not look at the
    gradient mode. *)
Lemma g_rollout_erases (buffers mode : bool) (self : RobotsSystem S)
    (ctl : grad_controller S C) (data : gtensor S) (train : bool) :
  grad_blind ctl ->
  erases mode (rollout self (forget mode ctl) (value data) train)
         (g_rollout buffers self ctl data train) (@erase_logs S).
Proof.
  intros Hb. unfold rollout, g_rollout.
  eapply erases_bind; [apply erases_reset|]. intros _.
  apply erases_mode.
  eapply erases_bind; [apply erases_lift with (f := fun n : nat => n); now destruct (shape_at (value data) 0)|].
  intros n.
  eapply erases_bind; [apply erases_lift, g_repeat3_value|]. intros x.
  eapply erases_bind; [apply erases_lift with (f := fun n : nat => n); now destruct (shape_at (value data) 0)|].
  intros n'.
  eapply erases_bind; [apply erases_lift, g_repeat3_value|]. intros u.
  eapply erases_bind with (f := @erase_locals S).
  - destruct train.
    + eapply erases_bind; [apply erases_lift with (f := fun n : nat => n); now destruct (shape_at (value data) 1)|].
      intros T.
      apply (g_for_range_erases buffers mode mode self data (seq 0 T) Hb (mkGLocals x u None None)).
    + apply erases_no_grad.
      eapply erases_bind; [apply erases_lift with (f := fun n : nat => n); now destruct (shape_at (value data) 1)|].
      intros T.
      apply (g_for_range_erases buffers false mode self data (seq 0 T) Hb (mkGLocals x u None None)).
  - intros l.
    eapply erases_bind; [apply erases_reset|]. intros _.
    eapply erases_bind; [cbn [erase_locals l_x_log]; apply erases_local|]. intros x_log.
    eapply erases_bind; [cbn [erase_locals l_u_log]; apply erases_local|]. intros u_log.
    apply (erases_ret mode (@erase_logs S) (x_log, None, u_log)).
Qed.

Lemma values_erase (r : result (gtensor S * option (gtensor S) * gtensor S)) :
  values r = map_result (@erase_logs S) r.
Proof. destruct r as [[[xl o] ul]|e]; reflexivity. Qed.

End GradFacts.

Section TrainFlag.
Context {S : Type} {Sc : Scalar S}.

(** C6, as amended.  For a controller that does not look at the gradient
    mode nor at the flag [requires_grad] of the state it is given, for every
    plant, noise tensor and mode of the caller, [rollout] with [train] and
    [rollout] without it return logs with the same values, or raise the same
    exception, and leave the controller in the same state and the gradient
    mode as the caller had it: the flag changes the recording of gradients
    only. *)
Theorem rollout_train_same_values {C : Type} (buffers : bool)
    (self : RobotsSystem S) (ctl : grad_controller S C) (noise : gtensor S)
    (mode : bool) (c0 : C) :
  grad_blind ctl ->
  values (fst (g_rollout buffers self ctl noise true (mode, c0)))
  = values (fst (g_rollout buffers self ctl noise false (mode, c0)))
  /\ snd (g_rollout buffers self ctl noise true (mode, c0))
     = snd (g_rollout buffers self ctl noise false (mode, c0)).
Proof.
  intros Hb.
  destruct (g_rollout_erases buffers mode self noise true Hb c0) as [E1 M1].
  destruct (g_rollout_erases buffers mode self noise false Hb c0) as [E0 M0].
  assert (E : rollout self (forget mode ctl) (value noise) true c0
              = rollout self (forget mode ctl) (value noise) false c0)
    by reflexivity.
  rewrite E1, E0 in E. rewrite !values_erase.
  destruct (g_rollout buffers self ctl noise true (mode, c0)) as [r1 [m1 c1]].
  destruct (g_rollout buffers self ctl noise false (mode, c0)) as [r0 [m0 c0']].
  cbn [fst snd] in *. subst m1 m0.
  injection E as Er Ec. split; [exact Er | now rewrite Ec].
Qed.

End TrainFlag.

Lemma steady_controller_blind : grad_blind steady_controller.
Proof. intros mode t x c. split; reflexivity. Defined.

Lemma rollout_train_same_values_witness :
  exists self,
    __init__ demo_xbar false None None (qc 1) = Ok self
    /\ grad_blind steady_controller
    /\ values (fst (g_rollout false self steady_controller
                              (mkG (zeros [2; 3; 4]) false) true (true, 0)))
       = values (fst (g_rollout false self steady_controller
                                (mkG (zeros [2; 3; 4]) false) false (true, 0)))
    /\ snd (g_rollout false self steady_controller
                      (mkG (zeros [2; 3; 4]) false) true (true, 0))
       = snd (g_rollout false self steady_controller
                        (mkG (zeros [2; 3; 4]) false) false (true, 0)).
Proof.
  eexists. split; [reflexivity|]. split; [apply steady_controller_blind|].
  apply (@rollout_train_same_values Qc Qc_Scalar nat false _ steady_controller
           (mkG (zeros [2; 3; 4]) false) true 0).
  apply steady_controller_blind.
Defined.

(** What the flag changes for such a controller is the recording: called
    with gradients recorded, [rollout] returns a log of controls that
    requires a gradient with [train] and one that does not without it. *)
Lemma rollout_train_changes_recording :
  exists self x1 u1 w1 x0 u0 w0,
    __init__ demo_xbar false None None (qc 1) = Ok self
    /\ g_rollout false self steady_controller (mkG (zeros [2; 3; 4]) false) true (true, 0)
       = (Ok (x1, None, u1), w1)
    /\ g_rollout false self steady_controller (mkG (zeros [2; 3; 4]) false) false (true, 0)
       = (Ok (x0, None, u0), w0)
    /\ requires_grad u1 = true /\ requires_grad u0 = false.
Proof.
  eexists _, _, _, _, _, _, _. split; [reflexivity|].
  split; [vm_compute; reflexivity|]. split; [vm_compute; reflexivity|].
  split; reflexivity.
Qed.

(** C6 as stated fails.  The linear plant starts at its equilibrium with no
    noise, and the caller records gradients.  The controller pushes while
    gradients are recorded: with [train] it is called with the mode on, the
    log of controls holds ones and the second state has left the equilibrium;
    without [train] it is called under [torch.no_grad()], the log of controls
    holds zeros and the state stays at the equilibrium. *)
Lemma rollout_train_changes_values :
  exists self x1 u1 w1 x0 u0 w0,
    __init__ demo_xbar true None None (qc 1) = Ok self
    /\ g_rollout false self moody_controller (mkG (zeros [1; 2; 4]) false) true (true, tt)
       = (Ok (x1, None, u1), w1)
    /\ g_rollout false self moody_controller (mkG (zeros [1; 2; 4]) false) false (true, tt)
       = (Ok (x0, None, u0), w0)
    /\ data (value x1) <> data (value x0)
    /\ data (value u1) <> data (value u0).
Proof.
  eexists _, _, _, _, _, _, _. split; [reflexivity|].
  split; [vm_compute; reflexivity|]. split; [vm_compute; reflexivity|].
  split; intros H.
  - apply (f_equal (fun l => this (nth 6 l (qc 0)))) in H.
    vm_compute in H. discriminate H.
  - apply (f_equal (fun l => this (nth 0 l (qc 0)))) in H.
    vm_compute in H. discriminate H.
Qed.

(* ================================================================== *)
(** * Further facts *)

(** ** More on the constructor *)

Section InitMore.
Context {S : Type} {Sc : Scalar S}.

Lemma shape_at_row (n : nat) (st : list nat) (d : list S) :
  shape_at (mkT [1; n] st d) 1 = Ok n.
Proof. reflexivity. Qed.

(** The attributes [init_ok] leaves out. *)
Lemma init_rest (xbar0 : tensor S) (lp : bool) (xi ui : option (tensor S)) (k0 : S)
    (self : RobotsSystem S) :
  __init__ xbar0 lp xi ui k0 = Ok self ->
  shape (xbar self) = [1; 4] /\ k self = k0
  /\ state_dim self = 4 /\ in_dim self = 2
  /\ data (B self)
     = [smul zero (h self); smul zero (h self);
        smul zero (h self); smul zero (h self);
        smul (sdiv one (mass self)) (h self); smul zero (h self);
        smul zero (h self); smul (sdiv one (mass self)) (h self)]
  /\ data (A_lin self)
     = concat (madd (identity 4) (mscale (h self) (A2_blocks (mass self) k0 (b self)))).
Proof.
  intros H. unfold __init__ in H.
  destruct (reshape_row xbar0) as (st & E). rewrite E in H. cbn [bind] in H.
  apply bind_ok in H as (x1 & Hx1 & H).
  apply bind_ok in H as (u1 & Hu1 & H).
  rewrite shape_at_row in H. cbn [bind] in H.
  apply bind_ok in H as (ok & Hok & H).
  apply bind_ok in H as ([] & Has & H). apply assert_ok in Has. subst ok.
  apply bind_ok in H as (nu & Hnu & H).
  apply bind_ok in H as ([] & Has & H).
  apply bind_ok in H as (A & EA & H). injection H as <-.
  cbn [xbar k state_dim in_dim shape B h mass b A_lin].
  destruct (Nat.eqb_spec (numel xbar0) 4) as [N4|]; [|discriminate].
  rewrite N4. injection EA as <-. repeat split.
Qed.

End InitMore.

(** ** The two products of a step *)

Section PartFacts.
Context {S : Type} {Sc : Scalar S}.

Lemma noiseless_forward_parts (self : RobotsSystem S) (t : nat) (x u : tensor S) :
  noiseless_forward self t x u
  = (xv <- view [-1; 1; Z.of_nat (state_dim self)]%Z x ;;
     uv <- view [-1; 1; Z.of_nat (in_dim self)]%Z u ;;
     fx <- state_term self xv ;;
     fu <- linear uv (B self) ;;
     f <- add fx fu ;;
     add f (xbar self)).
Proof.
  unfold noiseless_forward, state_term.
  destruct (view _ x) as [xv|e]; [|reflexivity]. cbn [bind].
  destruct (view _ u) as [uv|e]; [|reflexivity]. cbn [bind].
  destruct (linear_plant self).
  - destruct (sub xv (xbar self)) as [dx|e]; reflexivity.
  - destruct (sub xv (xbar self)) as [dx|e]; [|reflexivity]. cbn [bind].
    destruct (A_nonlin self xv) as [A|e]; [|reflexivity]. cbn [bind].
    destruct (transpose12 A) as [At|e]; reflexivity.
Qed.

Lemma state_row_length (self : RobotsSystem S) (x : list S) :
  canonical_plant self -> length x = 4 -> length (state_row self x) = 4.
Proof.
  intros (_ & _ & _ & Lxb & HA & LA & HB & LB & HM & LM & _) Hx.
  unfold state_row, A_of, rows_of, correction, friction_speed, pair_norms.
  rewrite HA.
  destruct (data (A_lin self)) as [|a0 lA]; [discriminate|]. explode lA.
  destruct (data (mask self)) as [|m0 lM]; [discriminate|]. explode lM.
  explode x.
  destruct (linear_plant self); reflexivity.
Qed.

Lemma input_row_length (self : RobotsSystem S) (u : list S) :
  canonical_plant self -> length (input_row self u) = 4.
Proof.
  intros (_ & _ & _ & _ & _ & _ & HB & LB & _).
  unfold input_row, rows_of. rewrite HB.
  now rewrite length_map, chunks_length.
Qed.

Lemma state_term_batch (self : RobotsSystem S) (xs : list (list S)) (x : tensor S) :
  canonical_plant self ->
  batched [1; 4] xs x -> length (strides x) = 3 ->
  state_term self x
  = Ok (fresh [length xs; 1; 4] (concat (map (state_row self) xs))).
Proof.
  intros CP Hx Sx.
  pose proof CP as (Hsd & Hid & Hxb & Lxb & HA & LA & HB & LB & HM & LM & Hb2).
  pose proof Hx as (Hs & Dx & Ux).
  change (size_of [1; 4]) with 4 in Ux.
  unfold state_term.
  set (dxs := map (fun r => map2 ssub r (data (xbar self))) xs).
  assert (Udx : uniform 4 dxs).
  { eapply uniform_map; [|exact Ux]. intros r Hr.
    rewrite map2_length; [exact Hr | rewrite Hr, Lxb; reflexivity]. }
  assert (Ndx : length dxs = length xs) by (unfold dxs; now rewrite length_map).
  unfold sub.
  erewrite pointwise_batch_item with (s := [1; 4]);
    [|exact Hx|exact Hxb|exact Lxb].
  fold dxs. cbn [bind].
  destruct (linear_plant self) eqn:Hlin.
  - erewrite linear_batch with (i := 4) (o := 4); [|batch_side Udx|exact HA].
    rewrite Ndx. f_equal. f_equal. f_equal.
    unfold dxs. rewrite map_map. apply map_ext. intros r.
    unfold state_row, A_of, rows_of. now rewrite Hlin, HA.
  - erewrite A_nonlin_batch; [|exact CP|exact Hlin|exact Hx|exact Sx].
    cbn [bind].
    set (As := map (fun r => concat (A_of self r)) xs).
    assert (UA : uniform 16 As).
    { eapply uniform_map; [|exact Ux]. intros r Hr.
      unfold A_of, rows_of, correction, friction_speed, pair_norms.
      rewrite Hlin, HA.
      destruct (data (A_lin self)) as [|a0 lA]; [discriminate|]. explode lA.
      destruct (data (mask self)) as [|m0 lM]; [discriminate|]. explode lM.
      explode r. reflexivity. }
    assert (NA : length As = length xs) by (unfold As; now rewrite length_map).
    destruct (@transpose12_batch S Sc 4 4 As (fresh [length xs; 4; 4] (concat As)))
      as (stT & ->); [batch_side UA|].
    cbn [bind].
    set (Ats := map (fun blk => concat (columns 4 (chunks 4 4 blk))) As).
    assert (UAt : uniform 16 Ats).
    { eapply uniform_map; [|exact UA]. intros r Hr. explode r. reflexivity. }
    assert (NAt : length Ats = length xs) by (unfold Ats; now rewrite length_map).
    erewrite bmm_batch with (n := 1) (m := 4) (p := 4);
      [|batch_side Udx|batch_side UAt|congruence].
    rewrite Ndx. f_equal. f_equal. f_equal.
    unfold dxs, Ats, As.
    rewrite map_map, map2_map_same.
    apply map_ext_in. intros a Ha.
    pose proof (proj1 (Forall_forall _ _) Ux a Ha) as La. cbv beta in La.
    unfold state_row, A_of, rows_of, correction, friction_speed, pair_norms.
    rewrite Hlin, HA.
    destruct (data (A_lin self)) as [|a0 lA]; [discriminate|]. explode lA.
    destruct (data (mask self)) as [|m0 lM]; [discriminate|]. explode lM.
    destruct (data (xbar self)) as [|x0 lx]; [discriminate|]. explode lx.
    explode a. reflexivity.
Qed.

Lemma input_term_batch (self : RobotsSystem S) (us : list (list S)) (u : tensor S) :
  canonical_plant self -> batched [1; 2] us u ->
  linear u (B self)
  = Ok (fresh [length us; 1; 4] (concat (map (input_row self) us))).
Proof.
  intros (_ & _ & _ & _ & _ & _ & HB & LB & _) Hu.
  erewrite linear_batch with (i := 2) (o := 4); [|exact Hu|exact HB].
  unfold input_row, rows_of. now rewrite HB.
Qed.

(** [noiseless_forward] on two batches: its two products, then the two sums. *)
Lemma noiseless_forward_terms (self : RobotsSystem S) (t : nat)
    (xs us : list (list S)) (x u : tensor S) :
  canonical_plant self ->
  batched [1; 4] xs x -> length (strides x) = 3 ->
  batched [1; 2] us u -> length (strides u) = 3 ->
  noiseless_forward self t x u
  = (f <- add (fresh [length xs; 1; 4] (concat (map (state_row self) xs)))
              (fresh [length us; 1; 4] (concat (map (input_row self) us))) ;;
     add f (xbar self)).
Proof.
  intros CP Hx Sx Hu Su.
  pose proof CP as (Hsd & Hid & _).
  rewrite noiseless_forward_parts, Hsd, Hid.
  destruct (view_batch (d := 4) ltac:(lia) Hx Sx) as (stx & -> & Lstx).
  destruct (view_batch (d := 2) ltac:(lia) Hu Su) as (stu & -> & Lstu).
  cbn [bind].
  pose proof Hx as (_ & Dx & Ux). pose proof Hu as (_ & Du & Uu).
  rewrite Dx, Du.
  erewrite state_term_batch with (xs := xs);
    [|exact CP|apply batched_intro; [reflexivity|exact Ux]|exact Lstx].
  cbn [bind].
  erewrite input_term_batch with (us := us);
    [|exact CP|apply batched_intro; [reflexivity|exact Uu]].
  reflexivity.
Qed.

(** Two tensors of one rank, the second with a first extent of one. *)
Lemma pointwise_lead1_r (op : S -> S -> S) (a b : tensor S) (n : nat) (s : list nat) :
  shape a = n :: s -> shape b = 1 :: s ->
  length (data a) = n * size_of s -> length (data b) = size_of s ->
  pointwise op a b
  = Ok (fresh (n :: s) (map2 op (data a) (concat (repeat (data b) n)))).
Proof.
  intros Ha Hb La Lb. unfold pointwise, broadcast_shapes.
  rewrite Ha, Hb.
  change (length (1 :: s)) with (length (n :: s)).
  rewrite Nat.max_id, pad_shape_same.
  change (length (n :: s)) with (length (1 :: s)) at 1.
  rewrite pad_shape_same, broadcast_dims_lead1_r.
  rewrite pad_shape_same.
  change (length (n :: s)) with (length (1 :: s)).
  rewrite pad_shape_same.
  rewrite expand_same, expand_lead1
    by (try change (size_of (n :: s)) with (n * size_of s); assumption).
  reflexivity.
Qed.

Lemma pointwise_lead1_l (op : S -> S -> S) (a b : tensor S) (n : nat) (s : list nat) :
  shape a = 1 :: s -> shape b = n :: s ->
  length (data a) = size_of s -> length (data b) = n * size_of s ->
  pointwise op a b
  = Ok (fresh (n :: s) (map2 op (concat (repeat (data a) n)) (data b))).
Proof.
  intros Ha Hb La Lb. unfold pointwise, broadcast_shapes.
  rewrite Ha, Hb.
  change (length (1 :: s)) with (length (n :: s)).
  rewrite Nat.max_id, pad_shape_same.
  change (length (n :: s)) with (length (1 :: s)) at 1.
  rewrite pad_shape_same, broadcast_dims_lead1_l.
  change (length (n :: s)) with (length (1 :: s)).
  rewrite pad_shape_same.
  change (length (1 :: s)) with (length (n :: s)).
  rewrite pad_shape_same.
  rewrite expand_same, expand_lead1
    by (try change (size_of (n :: s)) with (n * size_of s); assumption).
  reflexivity.
Qed.

End PartFacts.

(** ** One entry of a batch *)

Section EntryFacts.
Context {S : Type}.

Lemma nth_concat_uniform {A : Type} (k i : nat) (rows : list (list A)) :
  uniform k rows -> i < length rows ->
  firstn k (skipn (i * k) (concat rows)) = nth i rows [].
Proof.
  intros U. revert i. induction U as [|r rows Hr _ IH]; intros i Hi; simpl in Hi; [lia|].
  destruct i as [|i].
  - cbn [Nat.mul skipn concat nth]. rewrite firstn_app, <- Hr, firstn_all, Nat.sub_diag.
    cbn [firstn]. apply app_nil_r.
  - cbn [concat nth].
    replace (Datatypes.S i * k) with (length r + i * k) by (rewrite Hr; lia).
    rewrite skipn_app, skipn_all2 by lia.
    replace (length r + i * k - length r) with (i * k) by lia.
    cbn [app]. apply IH. lia.
Qed.

Lemma nth_map2 {A B C : Type} (f : A -> B -> C) (l : list A) (l' : list B)
    (i : nat) (da : A) (db : B) (dc : C) :
  i < length l -> i < length l' ->
  nth i (map2 f l l') dc = f (nth i l da) (nth i l' db).
Proof.
  revert l' i; induction l as [|a l IH]; intros [|b l'] i Hl Hl'; simpl in *; try lia.
  destruct i as [|i]; [reflexivity|]. apply IH; lia.
Qed.

Lemma nth_map_in {A B : Type} (f : A -> B) (l : list A) (i : nat) (da : A) (db : B) :
  i < length l -> nth i (map f l) db = f (nth i l da).
Proof.
  intros Hi. rewrite (nth_indep _ db (f da)) by (now rewrite length_map).
  apply map_nth.
Qed.

Lemma uniform_nth {A : Type} (k i : nat) (rows : list (list A)) :
  uniform k rows -> i < length rows -> length (nth i rows []) = k.
Proof.
  intros U Hi. apply (proj1 (Forall_forall _ _) U). now apply nth_In.
Qed.

(** [t[i:i+1]] of a batch is the batch made of its entry [i]. *)
Lemma select0_batched (s : list nat) (rows : list (list S)) (t : tensor S) (i : nat) :
  batched s rows t -> i < length rows ->
  batched s [nth i rows []] (select0 i t) /\ strides (select0 i t) = strides t.
Proof.
  intros (Hs & Hd & U) Hi. unfold select0. rewrite Hs, Hd.
  replace (Nat.min (Datatypes.S i) (length rows) - Nat.min i (length rows)) with 1 by lia.
  replace (Nat.min i (length rows)) with i by lia.
  rewrite Nat.mul_1_l, (nth_concat_uniform U Hi).
  split; [|reflexivity].
  repeat split.
  - cbn [concat data]. symmetry. apply app_nil_r.
  - constructor; [|constructor]. now apply uniform_nth.
Qed.

End EntryFacts.

(** ** The record of a traced controller *)

Section TraceFacts.
Context {S : Type} {Sc : Scalar S} {C : Type}.

Lemma traced_ok (n : nat) (ctl : controller S C) :
  controller_ok n ctl -> controller_ok n (traced ctl).
Proof. intros OK t x c Hx Lx. exact (OK t x (fst c) Hx Lx). Qed.

Lemma same_run_bind {A B : Type} (a : Action C A) (a' : Action (C * list (event S)) A)
    (f : A -> Action C B) (f' : A -> Action (C * list (event S)) B) :
  same_run a a' -> (forall x, same_run (f x) (f' x)) ->
  same_run (bindM a f) (bindM a' f').
Proof.
  intros Ha Hf c tr. unfold bindM. rewrite (Ha c tr).
  destruct (a' (c, tr)) as ([x|e] & (c1 & tr1)); cbn [fst snd]; [apply Hf|reflexivity].
Qed.

Lemma same_run_lift {A : Type} (r : result A) : same_run (S := S) (C := C) (lift r) (lift r).
Proof. intros c tr. reflexivity. Qed.

Lemma same_run_ret {A : Type} (a : A) : same_run (S := S) (C := C) (ret a) (ret a).
Proof. intros c tr. reflexivity. Qed.

Lemma same_run_local {A : Type} (v : option A) : same_run (S := S) (C := C) (local v) (local v).
Proof. intros c tr. destruct v; reflexivity. Qed.

Lemma same_run_reset (ctl : controller S C) :
  same_run (do_reset ctl) (do_reset (traced ctl)).
Proof. intros c tr. reflexivity. Qed.

Lemma same_run_call (ctl : controller S C) (t : nat) (x : tensor S) :
  same_run (do_call ctl t x) (do_call (traced ctl) t x).
Proof.
  intros c tr. unfold do_call. cbn [traced call fst snd].
  destruct (call ctl t x c); reflexivity.
Qed.

Lemma same_run_loop_body (self : RobotsSystem S) (ctl : controller S C)
    (noise : tensor S) (t : nat) (l : locals S) :
  same_run (loop_body self ctl noise t l) (loop_body self (traced ctl) noise t l).
Proof.
  unfold loop_body.
  apply same_run_bind; [apply same_run_lift|intros w].
  apply same_run_bind; [apply same_run_lift|intros x].
  apply same_run_bind; [apply same_run_call|intros u].
  destruct (t =? 0); [apply same_run_ret|].
  apply same_run_bind; [apply same_run_local|intros xl].
  apply same_run_bind; [apply same_run_lift|intros x_log].
  apply same_run_bind; [apply same_run_local|intros ul].
  apply same_run_bind; [apply same_run_lift|intros u_log].
  apply same_run_ret.
Qed.

Lemma same_run_for_range (self : RobotsSystem S) (ctl : controller S C)
    (noise : tensor S) (ts : list nat) (l : locals S) :
  same_run (for_range ts (loop_body self ctl noise) l)
           (for_range ts (loop_body self (traced ctl) noise) l).
Proof.
  revert l. induction ts as [|t ts IH]; intros l; cbn [for_range];
    [apply same_run_ret|].
  apply same_run_bind; [apply same_run_loop_body|exact IH].
Qed.

(** The record does not change what [rollout] computes. *)
Lemma rollout_traced (self : RobotsSystem S) (ctl : controller S C)
    (noise : tensor S) (train : bool) :
  same_run (rollout self ctl noise train) (rollout self (traced ctl) noise train).
Proof.
  unfold rollout, no_grad.
  apply same_run_bind; [apply same_run_reset|intros _].
  apply same_run_bind; [apply same_run_lift|intros n].
  apply same_run_bind; [apply same_run_lift|intros x].
  apply same_run_bind; [apply same_run_lift|intros n'].
  apply same_run_bind; [apply same_run_lift|intros u].
  apply same_run_bind.
  - destruct train;
      (apply same_run_bind; [apply same_run_lift|intros T; apply same_run_for_range]).
  - intros l.
    apply same_run_bind; [apply same_run_reset|intros _].
    apply same_run_bind; [apply same_run_local|intros x_log].
    apply same_run_bind; [apply same_run_local|intros u_log].
    apply same_run_ret.
Qed.

Lemma for_range_trace (self : RobotsSystem S) (ctl : controller S C)
    (noise : tensor S) (T n : nat) (ws : list (list S)) :
  canonical_plant self -> controller_ok n ctl ->
  batched [T; 4] ws noise -> length (strides noise) = 3 -> length ws = n ->
  forall m j l c tr done,
    1 <= j -> j + m <= T -> loop_inv n j l done ->
    exists l' c',
      for_range (seq j m) (loop_body self (traced ctl) noise) l (c, tr)
      = (Ok l',
         (c', tr ++ map2 (@Call_event S) (seq j m)
                         (map fst (closed_loop self (traced ctl) noise (seq j m)
                                               (l_x l) (l_u l) (c, tr)))))
      /\ loop_inv n (j + m) l'
            (done ++ closed_loop self (traced ctl) noise (seq j m) (l_x l) (l_u l) (c, tr)).
Proof.
  intros CP OK Hd Sd Hn. pose proof (traced_ok OK) as OK'.
  induction m as [|m IH]; intros j l c tr done Hj HT Inv.
  - exists l, c. split.
    + cbn [seq for_range closed_loop map map2]. now rewrite app_nil_r.
    + cbn [seq closed_loop]. now rewrite app_nil_r, Nat.add_0_r.
  - edestruct (@loop_body_next S Sc (C * list (event S)) self (traced ctl) noise T n j ws
                                l (c, tr) done)
      as (l1 & x' & Ef & Eb & Ex & Eu & Inv1);
      [exact CP|exact OK'|exact Hd|exact Sd|exact Hn|exact Hj|lia|exact Inv|].
    cbn [traced call fst snd] in Eb, Eu, Inv1.
    destruct (IH (Datatypes.S j) l1 (snd (call ctl j x' c)) (tr ++ [Call_event j x'])
                 (done ++ [(x', fst (call ctl j x' c))]))
      as (l' & c' & Er & Inv'); [lia|lia|now rewrite <- Nat.add_1_r|].
    exists l', c'.
    assert (Ecl : closed_loop self (traced ctl) noise (seq j (Datatypes.S m))
                              (l_x l) (l_u l) (c, tr)
                  = (x', fst (call ctl j x' c))
                    :: closed_loop self (traced ctl) noise (seq (Datatypes.S j) m)
                                   (l_x l1) (l_u l1)
                                   (snd (call ctl j x' c), tr ++ [Call_event j x'])).
    { cbn [seq closed_loop]. rewrite Ef. cbn [traced call fst snd].
      now rewrite Ex, Eu. }
    split.
    + rewrite Ecl. cbn [seq for_range]. unfold bindM at 1. rewrite Eb, Er.
      cbn [map map2 fst]. now rewrite <- app_assoc.
    + rewrite Ecl. rewrite <- app_assoc in Inv'. cbn [app] in Inv'.
      now rewrite Nat.add_succ_r.
Qed.

End TraceFacts.

(** ** Prefixes of the noise and of the logs *)

Section PrefixFacts.
Context {S : Type} {Sc : Scalar S} {C : Type}.

(** [t[:, 0:k, :]] of a batch of sequences. *)
Lemma slice1_prefix (T d k : nat) (ws : list (list S)) (w : tensor S) :
  batched [T; d] ws w -> k <= T ->
  slice1 0 k w
  = Ok (mkT [length ws; k; d] (strides w) (concat (map (firstn (k * d)) ws))).
Proof.
  intros (Hs & Hd & U) Hk. unfold slice1. rewrite Hs, Hd.
  replace (Nat.min k T) with k by lia. cbn [Nat.min].
  replace (size_of [d]) with d by (unfold size_of; simpl; lia).
  rewrite Nat.sub_0_r, chunks_concat_exact; [reflexivity| |reflexivity].
  revert U. unfold size_of; simpl. now rewrite Nat.mul_1_r.
Qed.

Lemma prefix_rows_uniform (T d k : nat) (ws : list (list S)) :
  uniform (T * d) ws -> k <= T -> uniform (k * d) (map (firstn (k * d)) ws).
Proof.
  intros U Hk. eapply uniform_map; [|exact U]. intros r Hr.
  rewrite length_firstn. nia.
Qed.

Lemma rows_at_prefix (d k t : nat) (ws : list (list S)) :
  t < k -> rows_at d t (map (firstn (k * d)) ws) = rows_at d t ws.
Proof.
  intros Ht. unfold rows_at. rewrite map_map. apply map_ext. intros r.
  rewrite skipn_firstn_comm, firstn_firstn. f_equal. nia.
Qed.

(** The closed loop reads the noise through its slices only. *)
Lemma closed_loop_ext (self : RobotsSystem S) (ctl : controller S C)
    (noise noise' : tensor S) (ts : list nat) :
  Forall (fun t => slice1 t (t + 1) noise' = slice1 t (t + 1) noise) ts ->
  forall x u c,
    closed_loop self ctl noise' ts x u c = closed_loop self ctl noise ts x u c.
Proof.
  induction 1 as [|t ts Ht _ IH]; intros x u c; cbn [closed_loop]; [reflexivity|].
  rewrite Ht.
  destruct (w <- slice1 t (t + 1) noise ;; forward self t x u w) as [x'|e]; [|reflexivity].
  destruct (call ctl t x' c) as (u' & c'). now rewrite IH.
Qed.

Lemma closed_loop_app (self : RobotsSystem S) (ctl : controller S C)
    (noise : tensor S) (ts1 ts2 : list nat) :
  forall x u c,
    exists rest,
      closed_loop self ctl noise (ts1 ++ ts2) x u c
      = closed_loop self ctl noise ts1 x u c ++ rest.
Proof.
  induction ts1 as [|t ts1 IH]; intros x u c; cbn [app closed_loop].
  - eexists. reflexivity.
  - destruct (w <- slice1 t (t + 1) noise ;; forward self t x u w) as [x'|e];
      [|exists []; reflexivity].
    destruct (call ctl t x' c) as (u' & c').
    destruct (IH x' u' c') as (rest & ->). exists rest. reflexivity.
Qed.

(** The rows of a log grow at their end. *)
Lemma map2_app_assoc {A : Type} (a b c : list (list A)) :
  map2 (@app A) (map2 (@app A) a b) c = map2 (@app A) a (map2 (@app A) b c).
Proof.
  revert b c; induction a as [|x a IH]; intros [|y b] [|z c]; simpl; try reflexivity.
  now rewrite IH, app_assoc.
Qed.

Lemma map2_app_nil_r {A : Type} (rows : list (list A)) :
  map2 (@app A) rows (repeat [] (length rows)) = rows.
Proof.
  induction rows as [|r rows IH]; simpl; [reflexivity|].
  now rewrite app_nil_r, IH.
Qed.

Lemma stack_app (d n : nat) (l1 l2 : list (tensor S)) :
  exists ext,
    length ext = n
    /\ stack d n (l1 ++ l2) = map2 (@app S) (stack d n l1) ext.
Proof.
  pose proof (stack_length d n l1) as L1.
  unfold stack in *. rewrite fold_left_app.
  revert L1.
  generalize (fold_left (fun acc x => map2 (@app S) acc (chunks d n (data x)))
                        l1 (repeat [] n)) as acc.
  induction l2 as [|x l2 IH]; intros acc La; cbn [fold_left].
  - exists (repeat [] n). split; [apply repeat_length|].
    rewrite <- La. symmetry. apply map2_app_nil_r.
  - destruct (IH (map2 (@app S) acc (chunks d n (data x)))) as (ext & Le & ->).
    { rewrite map2_length; [exact La|]. now rewrite chunks_length. }
    exists (map2 (@app S) (chunks d n (data x)) ext). split.
    + rewrite map2_length; rewrite chunks_length; congruence.
    + apply map2_app_assoc.
Qed.

Lemma firstn_rows (k : nat) (rows ext : list (list S)) :
  uniform k rows -> length ext = length rows ->
  map (firstn k) (map2 (@app S) rows ext) = rows.
Proof.
  intros U. revert ext. induction U as [|r rows Hr _ IH]; intros [|e ext] L;
    simpl in *; try discriminate; [reflexivity|].
  rewrite firstn_app, <- Hr, firstn_all, Nat.sub_diag. cbn [firstn].
  rewrite app_nil_r. f_equal. rewrite Hr. apply IH. lia.
Qed.

End PrefixFacts.

(** ** A batch run and the run of one of its entries *)

Section EntryRunFacts.
Context {S : Type} {Sc : Scalar S} {C : Type}.

Lemma nth_chunks (d n i : nat) (l : list S) :
  length l = n * d -> i < n ->
  nth i (chunks d n l) [] = firstn d (skipn (i * d) l).
Proof.
  intros Hl Hi.
  rewrite <- (concat_chunks d n l Hl) at 2.
  symmetry. apply nth_concat_uniform.
  - now apply chunks_uniform.
  - now rewrite chunks_length.
Qed.

Lemma entry_of_data (d n i : nat) (x xi : tensor S) :
  entry_of d n i x xi -> i < n ->
  data xi = nth i (chunks d n (data x)) []
  /\ length (data xi) = d
  /\ chunks d 1 (data xi) = [data xi].
Proof.
  intros (Hs & Hl & Hsi & Hdi) Hi.
  assert (E : data xi = nth i (chunks d n (data x)) [])
    by (now rewrite nth_chunks).
  assert (L : length (data xi) = d).
  { rewrite E. apply uniform_nth; [now apply chunks_uniform|now rewrite chunks_length]. }
  split; [exact E|]. split; [exact L|]. now apply chunks_one.
Qed.

Lemma entry_of_fresh (d n i : nat) (rows : list (list S)) :
  uniform d rows -> length rows = n -> i < n ->
  entry_of d n i (fresh [n; 1; d] (concat rows))
                 (fresh [1; 1; d] (concat [nth i rows []])).
Proof.
  intros U L Hi. repeat split; cbn [shape data fresh concat].
  - rewrite (concat_uniform_length U). now rewrite L.
  - rewrite app_nil_r. symmetry. apply nth_concat_uniform; [exact U|lia].
Qed.

(** The two runs, step by step. *)
Lemma closed_loop_entry (self : RobotsSystem S) (ctl : controller S C)
    (R : C -> C -> Prop) (T n i : nat) (ws : list (list S)) (d di : tensor S) :
  canonical_plant self ->
  controller_ok n ctl -> controller_ok 1 ctl -> entrywise n i ctl R ->
  batched [T; 4] ws d -> length (strides d) = 3 -> length ws = n ->
  batched [T; 4] [nth i ws []] di -> length (strides di) = 3 ->
  i < n ->
  forall ts, Forall (fun t => t < T) ts ->
  forall x xi u ui c ci,
    entry_of 4 n i x xi -> entry_of 2 n i u ui ->
    length (strides x) = 3 -> length (strides xi) = 3 ->
    length (strides u) = 3 -> length (strides ui) = 3 ->
    R c ci ->
    Forall2 (entry_steps n i)
            (closed_loop self ctl d ts x u c)
            (closed_loop self ctl di ts xi ui ci).
Proof.
  intros CP OKn OK1 (_ & PW) Bd Sd Nd Bdi Sdi Hi ts F.
  induction F as [|t ts Ht _ IH];
    intros x xi u ui c ci Hx Hu Sx Sxi Su Sui HR;
    cbn [closed_loop]; [constructor|].
  destruct (entry_of_data Hx Hi) as (Exi & Lxi & Cxi).
  destruct (entry_of_data Hu Hi) as (Eui & Lui & Cui).
  pose proof Hx as (Hsx & Hlx & Hsxi & _).
  pose proof Hu as (Hsu & Hlu & Hsui & _).
  edestruct (@step_forward S Sc self d T n t ws x u)
    as (rows & Ef & Ur & Nr & Er);
    [exact CP|exact Bd|exact Sd|exact Nd|exact Ht
    |exact Hsx|exact Sx|exact Hlx|exact Hsu|exact Su|exact Hlu|].
  edestruct (@step_forward S Sc self di T 1 t [nth i ws []] xi ui)
    as (rowsi & Efi & Uri & Nri & Eri);
    [exact CP|exact Bdi|exact Sdi|reflexivity|exact Ht
    |exact Hsxi|exact Sxi|lia|exact Hsui|exact Sui|lia|].
  rewrite Ef, Efi.
  assert (Erows : rowsi = [nth i rows []]).
  { rewrite Eri, Er, Cxi, Cui. unfold rows_at. cbn [map map2].
    rewrite (nth_map2 (map2 sadd) _ _ [] []).
    - rewrite (nth_map2 (dynamics_row self) _ _ [] []);
        [|now rewrite chunks_length|now rewrite chunks_length].
      rewrite <- Exi, <- Eui.
      rewrite (nth_map_in (fun blk => firstn 4 (skipn (t * 4) blk)) ws [] []) by lia.
      reflexivity.
    - rewrite map2_length; rewrite chunks_length; [lia|now rewrite chunks_length].
    - rewrite length_map. lia. }
  rewrite Erows.
  set (x' := fresh [n; 1; 4] (concat rows)).
  set (xi' := fresh [1; 1; 4] (concat [nth i rows []])).
  assert (Hx' : entry_of 4 n i x' xi') by (now apply entry_of_fresh).
  destruct (PW t x' xi' c ci HR Hx') as (Hu' & HR').
  destruct (OKn t x' c) as (_ & Su' & _);
    [reflexivity|unfold x'; cbn [data fresh]; now rewrite (concat_uniform_length Ur), Nr|].
  destruct (OK1 t xi' ci) as (_ & Sui' & _); [reflexivity| |].
  { unfold xi'. cbn [data fresh concat]. rewrite app_nil_r.
    rewrite (uniform_nth (i := i) Ur) by lia. lia. }
  destruct (call ctl t x' c) as (u' & c').
  destruct (call ctl t xi' ci) as (ui' & ci').
  cbn [fst snd] in *.
  constructor; [split; assumption|].
  apply IH; try assumption; reflexivity.
Qed.

(** The log of the entry is the row of the entry in the log of the batch. *)
Lemma stack_entry (d n i : nat) (proj : tensor S * tensor S -> tensor S)
    (l li : list (tensor S * tensor S)) :
  i < n ->
  Forall2 (fun p q => entry_of d n i (proj p) (proj q)) l li ->
  stack d 1 (map proj li) = [nth i (stack d n (map proj l)) []].
Proof.
  intros Hi F. unfold stack.
  assert (G : forall acc,
            length acc = n ->
            fold_left (fun acc x => map2 (@app S) acc (chunks d 1 (data x)))
                      (map proj li) [nth i acc []]
            = [nth i (fold_left (fun acc x => map2 (@app S) acc (chunks d n (data x)))
                                (map proj l) acc) []]).
  { induction F as [|p q l li Hpq _ IH]; intros acc La; cbn [map fold_left];
      [reflexivity|].
    destruct (entry_of_data Hpq Hi) as (E & _ & Cq).
    rewrite Cq. cbn [map2].
    rewrite <- IH by (rewrite map2_length; [exact La|now rewrite chunks_length]).
    f_equal. f_equal.
    rewrite (nth_map2 (@app S) _ _ [] []);
      [now rewrite E|lia|now rewrite chunks_length]. }
  rewrite <- (G (repeat [] n)) by apply repeat_length.
  now rewrite nth_repeat.
Qed.

End EntryRunFacts.

(** ** Views of freshly allocated tensors *)

Section ContiguousViews.

Lemma size_of_app (a b : list nat) : size_of (a ++ b) = size_of a * size_of b.
Proof.
  induction a as [|x a IH]; simpl; [lia|].
  change (size_of (x :: a ++ b)) with (x * size_of (a ++ b)).
  change (size_of (x :: a)) with (x * size_of a). rewrite IH. lia.
Qed.

Lemma size_of_rev (a : list nat) : size_of (rev a) = size_of a.
Proof.
  induction a as [|x a IH]; [reflexivity|].
  cbn [rev]. rewrite size_of_app, IH.
  change (size_of (x :: a)) with (x * size_of a).
  change (size_of [x]) with (x * 1). lia.
Qed.

Lemma size_of_pos (a : list nat) : Forall (fun d => 1 <= d) a -> 1 <= size_of a.
Proof.
  induction 1 as [|x a Hx _ IH]; [reflexivity|].
  change (size_of (x :: a)) with (x * size_of a). nia.
Qed.

Lemma size_of_nonzero (a : list nat) : size_of a <> 0 -> Forall (fun d => 1 <= d) a.
Proof.
  induction a as [|x a IH]; intros H; constructor.
  - change (size_of (x :: a)) with (x * size_of a) in H. nia.
  - apply IH. change (size_of (x :: a)) with (x * size_of a) in H. nia.
Qed.

(** A chunk that holds the whole view is filled by all the new dimensions. *)
Lemma fill_chunk_all (vs : list nat) (total base : nat) :
  Forall (fun d => 1 <= d) vs ->
  forall vn acc,
    1 <= vn -> vn * size_of vs = total ->
    exists acc',
      fill_chunk vs vn total base acc = ([], total, acc')
      /\ length acc' = length acc + length vs.
Proof.
  induction 1 as [|d vs Hd Hvs IH]; intros vn acc Hvn Hp; cbn [fill_chunk].
  - exists acc. split; [|cbn [length]; lia].
    change (size_of []) with 1 in Hp. f_equal. f_equal. lia.
  - change (size_of (d :: vs)) with (d * size_of vs) in Hp.
    pose proof (size_of_pos Hvs) as Hs.
    assert (E : (vn <? total) || (d =? 1) = true).
    { destruct (Nat.ltb_spec vn total) as [|Hge]; [reflexivity|].
      apply Nat.eqb_eq.
      set (q := d * size_of vs) in *.
      assert (Hq : 1 <= q) by (unfold q; nia).
      assert (Eq : q = 1).
      { destruct (Nat.eq_dec q 1) as [|Nq]; [assumption|].
        assert (2 <= q) by lia. nia. }
      unfold q in Eq. nia. }
    rewrite E.
    destruct (IH (vn * d) (vn * base :: acc)) as (acc' & Ef & La); [nia|nia|].
    exists acc'. split; [exact Ef|]. cbn [length] in *. lia.
Qed.

Lemma scan_chain (olds : list (nat * nat)) (vs : list nat) :
  olds <> [] ->
  forall tn,
    chain tn olds ->
    scan_chunks olds vs tn 1 1 []
    = (let '(vs', vn, acc') := fill_chunk vs 1 (tn * size_of (sizes olds)) 1 [] in
       if vn =? tn * size_of (sizes olds)
       then match vs' with [] => Some acc' | _ :: _ => None end
       else None).
Proof.
  induction olds as [|(sz, st) rest IH]; intros Hne tn Hc; [now elim Hne|].
  cbn [scan_chunks].
  destruct rest as [|(sz', st') rest'].
  - cbn [sizes map fst]. change (size_of [sz]) with (sz * 1). rewrite Nat.mul_1_r.
    destruct (fill_chunk vs 1 (tn * sz) 1 []) as ((vs' & vn) & acc').
    destruct (vn =? tn * sz); [|reflexivity].
    cbn [scan_chunks]. reflexivity.
  - destruct Hc as (Hst & Hc).
    assert (E : negb (sz' =? 1) && negb (st' =? tn * sz * 1) = false).
    { rewrite Nat.mul_1_r. subst st'. rewrite Nat.eqb_refl. apply andb_false_r. }
    rewrite E.
    rewrite IH; [|discriminate|exact Hc].
    unfold sizes. cbn [map fst].
    change (size_of (sz :: sz' :: map fst rest'))
      with (sz * size_of (sz' :: map fst rest')).
    now rewrite Nat.mul_assoc.
Qed.

Lemma chain_snoc (olds : list (nat * nat)) (sz st : nat) :
  forall tn,
    chain tn olds -> (olds <> [] -> st = tn * size_of (sizes olds)) ->
    chain tn (olds ++ [(sz, st)]).
Proof.
  induction olds as [|(a, sa) rest IH]; intros tn Hc Hst; [exact I|].
  cbn [app chain].
  destruct rest as [|(b, sb) rest'].
  - cbn [app]. split; [|exact I].
    rewrite Hst by discriminate. unfold sizes. cbn [map fst].
    change (size_of [a]) with (a * 1). lia.
  - destruct Hc as (Hb & Hc). cbn [app]. split; [exact Hb|].
    apply (IH (tn * a) Hc). intros _.
    rewrite Hst by discriminate. unfold sizes. cbn [map fst].
    change (size_of (a :: b :: map fst rest')) with (a * size_of (b :: map fst rest')).
    lia.
Qed.

Lemma contiguous_length (s : list nat) : length (contiguous s) = length s.
Proof. induction s as [|a s IH]; simpl; [reflexivity|now rewrite IH]. Qed.

Lemma map_max_pos (s : list nat) :
  Forall (fun d => 1 <= d) s -> map (Nat.max 1) s = s.
Proof.
  induction 1 as [|a s Ha _ IH]; cbn [map]; [reflexivity|].
  rewrite IH. f_equal. now apply Nat.max_r.
Qed.

Lemma sizes_rev_combine (s : list nat) :
  sizes (rev (combine s (contiguous s))) = rev s.
Proof.
  unfold sizes. rewrite map_rev. f_equal.
  induction s as [|a s IH]; simpl; [reflexivity|]. now rewrite IH.
Qed.

Lemma chain_contiguous (s : list nat) :
  Forall (fun d => 1 <= d) s -> chain 1 (rev (combine s (contiguous s))).
Proof.
  induction 1 as [|a s Ha Hs IH]; [exact I|].
  cbn [contiguous combine rev].
  apply chain_snoc; [exact IH|]. intros _.
  rewrite sizes_rev_combine, size_of_rev, map_max_pos by exact Hs. lia.
Qed.

Lemma last_contiguous (s : list nat) : last (contiguous s) 1 = 1.
Proof.
  induction s as [|a s IH]; [reflexivity|].
  cbn [contiguous]. destruct s as [|b s]; [reflexivity|].
  cbn [contiguous] in *. exact IH.
Qed.

(** A freshly allocated tensor can be viewed at every shape with as many
    entries. *)
Lemma compute_stride_contiguous (s s' : list nat) :
  size_of s' = size_of s ->
  exists st, compute_stride s (contiguous s) s' = Some st /\ length st = length s'.
Proof.
  intros Hp. unfold compute_stride.
  destruct s as [|a r] eqn:Es.
  - eexists. split; [reflexivity|]. now rewrite length_map.
  - assert (Hs : s <> []) by (rewrite Es; discriminate).
    rewrite <- Es in *. clear a r Es.
    destruct (Nat.eqb_spec (size_of s) 0) as [|Hn].
    + destruct (list_eqb s s') eqn:El.
      * apply list_eqb_eq in El. subst s'. eexists. split; [reflexivity|].
        apply contiguous_length.
      * eexists. split; [reflexivity|]. apply contiguous_length.
    + assert (Hne : rev (combine s (contiguous s)) <> []).
      { destruct s as [|a r]; [now elim Hs|]. cbn [contiguous combine rev].
        intros H. now apply app_eq_nil in H as (_ & H). }
      rewrite last_contiguous.
      rewrite (@scan_chain _ (rev s') Hne 1 (chain_contiguous (@size_of_nonzero s Hn))).
      rewrite sizes_rev_combine, size_of_rev, Nat.mul_1_l.
      destruct (@fill_chunk_all (rev s') (size_of s) 1) with (vn := 1) (acc := @nil nat)
        as (acc' & Ef & La).
      * apply Forall_rev. apply size_of_nonzero. congruence.
      * lia.
      * rewrite size_of_rev. lia.
      * rewrite Ef, Nat.eqb_refl. exists acc'. split; [reflexivity|].
        rewrite La, length_rev. reflexivity.
Qed.

End ContiguousViews.

Section FreshViews.
Context {S : Type} {Sc : Scalar S}.

(** [view(-1, 1, k)] of a freshly allocated tensor with [n * k] entries. *)
Lemma view_fresh_rows (k n : nat) (s : list nat) (d : list S) :
  0 < k -> size_of s = n * k ->
  exists st, view [-1; 1; Z.of_nat k]%Z (fresh s d) = Ok (mkT [n; 1; k] st d)
             /\ length st = 3.
Proof.
  intros Hk Hs. unfold view, numel. cbn [shape strides data fresh].
  rewrite Hs, infer_size_batch by exact Hk. cbn [bind].
  destruct (@compute_stride_contiguous s [n; 1; k]) as (st & -> & L).
  { now rewrite prod_batch. }
  now exists st.
Qed.

(** [noiseless_forward] once the two views are known. *)
Lemma noiseless_forward_viewed (self : RobotsSystem S) (t : nat)
    (xs us : list (list S)) (x u : tensor S) (stx stu : list nat) :
  canonical_plant self ->
  view [-1; 1; 4]%Z x = Ok (mkT [length xs; 1; 4] stx (concat xs)) ->
  length stx = 3 -> uniform 4 xs ->
  view [-1; 1; 2]%Z u = Ok (mkT [length us; 1; 2] stu (concat us)) ->
  uniform 2 us ->
  noiseless_forward self t x u
  = (f <- add (fresh [length xs; 1; 4] (concat (map (state_row self) xs)))
              (fresh [length us; 1; 4] (concat (map (input_row self) us))) ;;
     add f (xbar self)).
Proof.
  intros CP Vx Lstx Ux Vu Uu.
  pose proof CP as (Hsd & Hid & _).
  rewrite noiseless_forward_parts, Hsd, Hid.
  change (Z.of_nat 4) with 4%Z. change (Z.of_nat 2) with 2%Z.
  rewrite Vx, Vu. cbn [bind].
  erewrite state_term_batch with (xs := xs);
    [|exact CP|apply batched_intro; [reflexivity|exact Ux]|exact Lstx].
  cbn [bind].
  erewrite input_term_batch with (us := us);
    [|exact CP|apply batched_intro; [reflexivity|exact Uu]].
  reflexivity.
Qed.

Lemma noiseless_forward_fresh (self : RobotsSystem S) (t n m : nat)
    (sx su : list nat) (dx du : list S) :
  canonical_plant self ->
  size_of sx = n * 4 -> length dx = n * 4 ->
  size_of su = m * 2 -> length du = m * 2 ->
  noiseless_forward self t (fresh sx dx) (fresh su du)
  = (f <- add (fresh [n; 1; 4] (concat (map (state_row self) (chunks 4 n dx))))
              (fresh [m; 1; 4] (concat (map (input_row self) (chunks 2 m du)))) ;;
     add f (xbar self)).
Proof.
  intros CP Hsx Ldx Hsu Ldu.
  destruct (@view_fresh_rows 4 n sx dx ltac:(lia) Hsx) as (stx & Vx & Lstx).
  destruct (@view_fresh_rows 2 m su du ltac:(lia) Hsu) as (stu & Vu & _).
  change (Z.of_nat 4) with 4%Z in Vx. change (Z.of_nat 2) with 2%Z in Vu.
  rewrite <- (chunks_length 4 n dx) at 1.
  rewrite <- (chunks_length 2 m du) at 1.
  apply noiseless_forward_viewed with (stx := stx) (stu := stu).
  - exact CP.
  - now rewrite chunks_length, concat_chunks.
  - exact Lstx.
  - now apply chunks_uniform.
  - now rewrite chunks_length, concat_chunks.
  - now apply chunks_uniform.
Qed.

End FreshViews.

(* ================================================================== *)
(** * Further results *)

Section ConstructorOutcome.
Context {S : Type} {Sc : Scalar S}.

(** X1. The constructor succeeds exactly when [xbar] and [x_init] have four
    entries, whatever their shapes, and the second extent of [u_init] as it
    is given is two; otherwise it raises the exception [init_verdict] names. *)
Theorem init_outcome (xbar0 : tensor S) (lp : bool) (xi ui : option (tensor S)) (k0 : S) :
  match __init__ xbar0 lp xi ui k0 with
  | Ok _ => init_verdict xbar0 xi ui = None
  | Raise e => init_verdict xbar0 xi ui = Some e
  end.
Proof.
  unfold __init__, init_verdict.
  destruct (reshape_row xbar0) as (st & ->). cbn [bind].
  assert (EX : exists st1 d1,
             match xi with
             | Some x0 => reshape [1; -1]%Z x0
             | None => Ok (detach_clone (mkT [1; numel xbar0] st (data xbar0)))
             end
             = Ok (mkT [1; match xi with Some x0 => numel x0 | None => numel xbar0 end]
                       st1 d1)).
  { destruct xi as [x0|].
    - destruct (reshape_row x0) as (st0 & ->). eauto.
    - unfold detach_clone. eauto. }
  destruct EX as (st1 & d1 & ->). cbn [bind].
  assert (EU : exists u1,
             match ui with
             | Some u0 => _ <- reshape [1; -1]%Z u0 ;; Ok u0
             | None => n <- shape_at (mkT [1; numel xbar0] st (data xbar0)) 1 ;;
                       Ok (zeros [1; n / 2])
             end = Ok u1
             /\ u1 = match ui with
                     | Some u0 => u0
                     | None => zeros [1; numel xbar0 / 2]
                     end).
  { destruct ui as [u0|].
    - destruct (reshape_row u0) as (st0 & ->). cbn [bind]. eauto.
    - rewrite shape_at_row. cbn [bind]. eauto. }
  destruct EU as (u1 & -> & Eu1). cbn [bind].
  rewrite !shape_at_row. cbn [bind].
  destruct (Nat.eqb_spec (numel xbar0) 4) as [N4|N4]; cbn [andb bind assert];
    [|reflexivity].
  assert (EN : (match xi with Some x0 => numel x0 | None => numel xbar0 end =? 4)
               = match xi with Some x0 => numel x0 =? 4 | None => true end).
  { destruct xi; [reflexivity|]. now rewrite N4. }
  rewrite EN.
  destruct (match xi with Some x0 => numel x0 =? 4 | None => true end);
    cbn [assert bind]; [|reflexivity].
  subst u1. destruct ui as [u0|].
  - unfold shape_at. destruct (nth_error (shape u0) 1) as [n|]; cbn [bind]; [|reflexivity].
    destruct (n =? 2); cbn [assert bind]; reflexivity.
  - rewrite N4. reflexivity.
Qed.

(** X2. What a successful construction stores: [xbar] and [x_init] as rows of
    four entries in the order of the arguments, [x_init] being [xbar] when
    none is given; [u_init] as it was given, or a row of two zeros; the gain
    [k]; and the constants of lines 35-39. *)
Theorem init_stores (xbar0 : tensor S) (lp : bool) (xi ui : option (tensor S)) (k0 : S)
    (self : RobotsSystem S) :
  __init__ xbar0 lp xi ui k0 = Ok self ->
  shape (xbar self) = [1; 4] /\ data (xbar self) = data xbar0
  /\ shape (x_init self) = [1; 4]
  /\ data (x_init self) = match xi with Some x0 => data x0 | None => data xbar0 end
  /\ u_init self = match ui with Some u0 => u0 | None => zeros [1; 2] end
  /\ linear_plant self = lp /\ k self = k0
  /\ h self = lit 0.05%Q /\ mass self = lit 1%Q /\ b self = lit 1%Q
  /\ b2 self = (if lp then None else Some (lit 0.1%Q))
  /\ state_dim self = 4 /\ in_dim self = 2.
Proof.
  intros H.
  destruct (init_ok _ _ _ _ _ H)
    as (_ & Hlp & Dxb & Hxi & Dxi & Eui & _ & Hh & Hm & Hb & Hb2 & _ & _).
  destruct (init_rest _ _ _ _ _ H) as (Hxb & Hk & Hsd & Hid & _).
  repeat split; assumption.
Qed.

End ConstructorOutcome.

Lemma init_stores_witness :
  exists self,
    __init__ demo_xbar false None None (qc 2) = Ok self
    /\ shape (xbar self) = [1; 4] /\ data (xbar self) = data demo_xbar
    /\ shape (x_init self) = [1; 4]
    /\ data (x_init self) = data demo_xbar
    /\ u_init self = zeros [1; 2]
    /\ linear_plant self = false /\ k self = qc 2
    /\ h self = lit 0.05%Q /\ mass self = lit 1%Q /\ b self = lit 1%Q
    /\ b2 self = Some (lit 0.1%Q)
    /\ state_dim self = 4 /\ in_dim self = 2.
Proof.
  eexists. split; [reflexivity|].
  apply (@init_stores Qc Qc_Scalar demo_xbar false None None (qc 2) _).
  reflexivity.
Defined.

Section ExplicitFacts.
Context {S : Type} {Sc : Scalar S} {L : ScalarLaws S}.

Lemma dynamics_row_explicit
    (xbar0 : tensor S) (lp : bool) (xi ui : option (tensor S)) (k0 : S)
    (self : RobotsSystem S) (x u : list S) :
  __init__ xbar0 lp xi ui k0 = Ok self ->
  length (data xbar0) = numel xbar0 ->
  length x = 4 -> length u = 2 ->
  dynamics_row self x u = explicit_step self x u.
Proof.
  intros Hinit Lx Hx Hu.
  destruct (init_ok _ _ _ _ _ Hinit)
    as (CP & Hlp & _ & _ & _ & _ & _ & _ & _ & _ & _ & HM & _).
  destruct (init_rest _ _ _ _ _ Hinit) as (_ & Hk & _ & _ & HB & HA).
  destruct (CP Lx) as (_ & _ & _ & Lxb & SA & _ & SB & _ & _ & _ & _).
  unfold dynamics_row, explicit_step, damping, A_of, rows_of, correction.
  rewrite SA, SB, HB.
  rewrite (proj2 (friction_speed_diag self x HM Hx)).
  rewrite HA, Hk.
  destruct (data (xbar self)) as [|x0 lx]; [discriminate|]. explode lx.
  explode x. explode u.
  unfold friction_diag.
  match goal with |- context [speed ?l] => generalize (speed l) as sp end.
  generalize (friction_gain self) as c.
  generalize (h self) as hh. generalize (mass self) as m. generalize (b self) as bb.
  intros bb m hh c sp.
  destruct (linear_plant self);
    cbn [map2 map chunks firstn skipn madd mscale vadd diag_rows seq length nth
         concat app Nat.eqb identity repeat A2_blocks block_matrix zero_block
         scalar_block];
    unfold dot, sum_list, zero, one; cbn [map2 map fold_left];
    rewrite ?smul_0_r, ?smul_0_l, ?sadd_0_l, ?sadd_0_r, ?smul_1_r;
    rewrite ?smul_0_r, ?smul_0_l, ?sadd_0_l, ?sadd_0_r, ?smul_1_r;
    rewrite ?smul_0_r, ?smul_0_l, ?sadd_0_l, ?sadd_0_r, ?smul_1_r;
    reflexivity.
Qed.

(** At rest the friction term vanishes: the nonlinear plant moves as the
    linear one. *)
Lemma speed_rest (x : list S) :
  nth 2 x zero = zero -> nth 3 x zero = zero -> speed x = zero.
Proof.
  intros H2 H3. unfold speed. rewrite H2, H3.
  unfold norm2, sum_list, zero. cbn [map fold_left].
  now rewrite !smul_0_l, !sadd_0_l, ssqrt_0.
Qed.

End ExplicitFacts.

Section ExplicitResults.
Context {S : Type} {Sc : Scalar S} {L : ScalarLaws S}.

(** X3. In both modes [noiseless_forward] is one explicit Euler step of the point
    mass, on every entry of the batch: the position moves by [h] times the
    velocity deviation and is touched neither by the input nor by the gain
    [k] nor by the friction; the velocity gets the spring term, the damping
    (with the speed-dependent friction in nonlinear mode) and [h/m] times the
    input. *)
Theorem noiseless_forward_explicit
    (xbar0 : tensor S) (lp : bool) (xi ui : option (tensor S)) (k0 : S)
    (self : RobotsSystem S) (t : nat)
    (xs us : list (list S)) (x u : tensor S) :
  __init__ xbar0 lp xi ui k0 = Ok self ->
  length (data xbar0) = numel xbar0 ->
  batched [1; 4] xs x -> length (strides x) = 3 ->
  batched [1; 2] us u -> length (strides u) = 3 ->
  length xs = length us ->
  noiseless_forward self t x u
  = Ok (fresh [length xs; 1; 4] (concat (map2 (explicit_step self) xs us))).
Proof.
  intros Hinit Lx Hx Sx Hu Su Len.
  destruct (init_ok _ _ _ _ _ Hinit) as (CP & _).
  rewrite (noiseless_forward_batch t (CP Lx) Hx Sx Hu Su Len).
  f_equal. f_equal. f_equal.
  destruct Hx as (_ & _ & Ux), Hu as (_ & _ & Uu).
  change (size_of [1; 4]) with 4 in Ux. change (size_of [1; 2]) with 2 in Uu.
  apply map2_ext_in. intros a b' Ha Hb.
  apply dynamics_row_explicit with (1 := Hinit); [exact Lx| |].
  - exact (proj1 (Forall_forall _ _) Ux a Ha).
  - exact (proj1 (Forall_forall _ _) Uu b' Hb).
Qed.

(** X4. On states with zero velocity the nonlinear plant and the linear plant
    built from the same arguments take the same step. *)
Theorem nonlinear_is_linear_at_rest
    (xbar0 : tensor S) (xi ui : option (tensor S)) (k0 : S)
    (lin nonlin : RobotsSystem S) (t : nat)
    (xs us : list (list S)) (x u : tensor S) :
  __init__ xbar0 true xi ui k0 = Ok lin ->
  __init__ xbar0 false xi ui k0 = Ok nonlin ->
  length (data xbar0) = numel xbar0 ->
  batched [1; 4] xs x -> length (strides x) = 3 ->
  batched [1; 2] us u -> length (strides u) = 3 ->
  length xs = length us ->
  Forall (fun r => nth 2 r zero = zero /\ nth 3 r zero = zero) xs ->
  noiseless_forward nonlin t x u = noiseless_forward lin t x u.
Proof.
  intros Hl Hn Lx Hx Sx Hu Su Len Rest.
  destruct (init_ok _ _ _ _ _ Hl)
    as (CPl & Hlpl & Dl & _ & _ & _ & _ & Hhl & Hml & Hbl & _).
  destruct (init_ok _ _ _ _ _ Hn)
    as (CPn & Hlpn & Dn & _ & _ & _ & _ & Hhn & Hmn & Hbn & _).
  destruct (init_rest _ _ _ _ _ Hl) as (_ & Hkl & _).
  destruct (init_rest _ _ _ _ _ Hn) as (_ & Hkn & _).
  rewrite (noiseless_forward_batch t (CPl Lx) Hx Sx Hu Su Len).
  rewrite (noiseless_forward_batch t (CPn Lx) Hx Sx Hu Su Len).
  f_equal. f_equal. f_equal.
  pose proof Hx as (_ & _ & Ux). pose proof Hu as (_ & _ & Uu).
  change (size_of [1; 4]) with 4 in Ux. change (size_of [1; 2]) with 2 in Uu.
  apply map2_ext_in. intros a b' Ha Hb.
  pose proof (proj1 (Forall_forall _ _) Ux a Ha) as La.
  pose proof (proj1 (Forall_forall _ _) Uu b' Hb) as Lb.
  pose proof (proj1 (Forall_forall _ _) Rest a Ha) as (R2 & R3).
  cbv beta in La, Lb.
  rewrite (@dynamics_row_explicit S Sc L xbar0 true xi ui k0 lin a b' Hl Lx La Lb).
  rewrite (@dynamics_row_explicit S Sc L xbar0 false xi ui k0 nonlin a b' Hn Lx La Lb).
  unfold explicit_step, damping.
  rewrite Hlpl, Hlpn, Dl, Dn, Hhl, Hhn, Hml, Hmn, Hbl, Hbn, Hkl, Hkn.
  rewrite (speed_rest a R2 R3). unfold zero.
  now rewrite !smul_0_r, !sadd_0_r.
Qed.

End ExplicitResults.

Section BroadcastFacts.
Context {S : Type} {Sc : Scalar S}.

Lemma infer_size_rows2 (N : nat) :
  infer_size [-1; 1; 2]%Z N
  = if N mod 2 =? 0 then Ok [N / 2; 1; 2] else Raise RuntimeError.
Proof.
  unfold infer_size.
  change (known_size [-1; 1; 2]%Z) with 2.
  change (existsb (fun z => (z <? -1)%Z) [-1; 1; 2]%Z) with false.
  change (length (filter (fun z => (z =? -1)%Z) [-1; 1; 2]%Z)) with 1.
  cbn [Nat.ltb Nat.leb Nat.eqb andb map Z.eqb Pos.eqb Z.to_nat].
  change (Pos.to_nat 1) with 1. change (Pos.to_nat 2) with 2.
  destruct (Nat.eqb_spec (N mod 2) 0) as [E|E].
  - now rewrite orb_true_r.
  - destruct (Nat.eqb_spec N 2) as [->|_]; [now elim E|reflexivity].
Qed.

Lemma view_raises (spec : list Z) (x : tensor S) (e : exn) :
  view spec x = Raise e -> e = RuntimeError.
Proof.
  unfold view, infer_size.
  repeat match goal with
         | |- context [if ?c then _ else _] => destruct c
         end; cbn [bind]; try (intros [= <-]; reflexivity);
    destruct (compute_stride _ _ _); try discriminate; intros [= <-]; reflexivity.
Qed.

(** One row against a batch of rows of the same rank. *)
Lemma pointwise_one_batch (op : S -> S -> S) (s : list nat)
    (rows : list (list S)) (a b : tensor S) :
  shape a = 1 :: s -> length (data a) = size_of s -> batched s rows b ->
  pointwise op a b
  = Ok (fresh (length rows :: s) (concat (map (fun r => map2 op (data a) r) rows))).
Proof.
  intros Ha La Hb. pose proof (batched_length Hb) as Lb.
  destruct Hb as (Hs & Hd & U).
  rewrite (pointwise_lead1_l op a b Ha Hs La Lb).
  rewrite Hd, concat_repeat_map, map2_row_concat by (now rewrite La).
  reflexivity.
Qed.

Lemma pointwise_batch_one (op : S -> S -> S) (s : list nat)
    (rows : list (list S)) (a b : tensor S) :
  batched s rows a -> shape b = 1 :: s -> length (data b) = size_of s ->
  pointwise op a b
  = Ok (fresh (length rows :: s) (concat (map (fun r => map2 op r (data b)) rows))).
Proof.
  intros Ha Hb Lb. pose proof (batched_length Ha) as La.
  destruct Ha as (Hs & Hd & U).
  rewrite (pointwise_lead1_r op a b Hs Hb La Lb).
  rewrite Hd, concat_repeat_map, map2_concat_row by (now rewrite Lb).
  reflexivity.
Qed.

Lemma map_combine_map2 {A B C : Type} (f : A -> B -> C) (l : list A) (l' : list B) :
  map (fun p => f (fst p) (snd p)) (combine l l') = map2 f l l'.
Proof.
  revert l'; induction l as [|a l IH]; intros [|b l']; simpl; try reflexivity.
  now rewrite IH.
Qed.

Lemma broadcast_lead_fail (n m : nat) (s : list nat) :
  n <> m -> n <> 1 -> m <> 1 ->
  broadcast_shapes (n :: s) (m :: s) = None.
Proof.
  intros H1 H2 H3. unfold broadcast_shapes.
  change (length (m :: s)) with (length (n :: s)).
  rewrite Nat.max_id, pad_shape_same.
  change (length (n :: s)) with (length (m :: s)).
  rewrite pad_shape_same.
  cbn [broadcast_dims]. rewrite broadcast_dims_refl.
  destruct (Nat.eqb_spec n m); [contradiction|].
  destruct (Nat.eqb_spec n 1); [contradiction|].
  destruct (Nat.eqb_spec m 1); [contradiction|]. reflexivity.
Qed.

Lemma add_xbar_rows (self : RobotsSystem S) (rows : list (list S)) :
  canonical_plant self -> uniform 4 rows ->
  add (fresh [length rows; 1; 4] (concat rows)) (xbar self)
  = Ok (fresh [length rows; 1; 4]
              (concat (map (fun r => map2 sadd r (data (xbar self))) rows))).
Proof.
  intros (_ & _ & Hxb & Lxb & _) U. unfold add.
  erewrite pointwise_batch_item with (s := [1; 4]) (rows := rows);
    [reflexivity|batch_side U|exact Hxb|exact Lxb].
Qed.

End BroadcastFacts.

Section StepErrors.
Context {S : Type} {Sc : Scalar S}.

(** X5. A state whose number of entries is not a multiple of four, or an input
    whose number of entries is odd, stops [noiseless_forward] with the shape
    error of [view], whatever the shapes are. *)
Theorem noiseless_forward_rejects_sizes
    (xbar0 : tensor S) (lp : bool) (xi ui : option (tensor S)) (k0 : S)
    (self : RobotsSystem S) (t : nat) (x u : tensor S) :
  __init__ xbar0 lp xi ui k0 = Ok self ->
  numel x mod 4 <> 0 \/ numel u mod 2 <> 0 ->
  noiseless_forward self t x u = Raise RuntimeError.
Proof.
  intros Hinit Hsz.
  destruct (init_rest _ _ _ _ _ Hinit) as (_ & _ & Hsd & Hid & _).
  rewrite noiseless_forward_parts, Hsd, Hid.
  destruct (view [-1; 1; Z.of_nat 4]%Z x) as [xv|e] eqn:Ex.
  - cbn [bind].
    destruct Hsz as [Hx|Hu].
    + exfalso. unfold view in Ex. change (Z.of_nat 4) with 4%Z in Ex.
      rewrite infer_size_rows4 in Ex.
      destruct (Nat.eqb_spec (numel x mod 4) 0); [contradiction|discriminate].
    + unfold view. change (Z.of_nat 2) with 2%Z.
      rewrite infer_size_rows2.
      destruct (Nat.eqb_spec (numel u mod 2) 0); [contradiction|reflexivity].
  - cbn [bind]. now rewrite (view_raises _ _ Ex).
Qed.

(** X6. [noiseless_forward] on a batch of [n] states and a batch of [m] inputs:
    entry by entry when [n = m]; a single state or a single input is used for
    every entry of the other batch; any other pair of sizes is refused with
    the broadcasting error. *)
Theorem noiseless_forward_batches
    (xbar0 : tensor S) (lp : bool) (xi ui : option (tensor S)) (k0 : S)
    (self : RobotsSystem S) (t : nat)
    (xs us : list (list S)) (x u : tensor S) :
  __init__ xbar0 lp xi ui k0 = Ok self ->
  length (data xbar0) = numel xbar0 ->
  batched [1; 4] xs x -> length (strides x) = 3 ->
  batched [1; 2] us u -> length (strides u) = 3 ->
  noiseless_forward self t x u
  = match pair_rows xs us with
    | Some ps =>
        Ok (fresh [length ps; 1; 4]
                  (concat (map (fun p => dynamics_row self (fst p) (snd p)) ps)))
    | None => Raise RuntimeError
    end.
Proof.
  intros Hinit Lx Hx Sx Hu Su.
  destruct (init_ok _ _ _ _ _ Hinit) as (CP0 & _).
  pose proof (CP0 Lx) as CP.
  pose proof Hx as (_ & _ & Ux). pose proof Hu as (_ & _ & Uu).
  change (size_of [1; 4]) with 4 in Ux. change (size_of [1; 2]) with 2 in Uu.
  unfold pair_rows.
  destruct (Nat.eqb_spec (length xs) (length us)) as [E|E].
  - rewrite (noiseless_forward_batch t CP Hx Sx Hu Su E).
    rewrite map_combine_map2, length_combine, <- E, Nat.min_id. reflexivity.
  - rewrite (noiseless_forward_terms t CP Hx Sx Hu Su).
    assert (Ufx : uniform 4 (map (state_row self) xs)).
    { eapply uniform_map; [|exact Ux]. intros r Hr. now apply state_row_length. }
    assert (Ufu : uniform 4 (map (input_row self) us)).
    { eapply uniform_map; [|exact Uu]. intros r Hr. now apply input_row_length. }
    destruct xs as [|a [|a' xs]].
    + (* no state *)
      destruct us as [|b [|b' us]]; [now elim E| |].
      * cbn [map concat app length]. unfold add at 1.
        erewrite pointwise_batch_one with (s := [1; 4]) (rows := []);
          [|repeat split; constructor|reflexivity|].
        2:{ cbn [data fresh]. rewrite app_nil_r. now apply input_row_length. }
        cbn [bind map concat length].
        now rewrite (add_xbar_rows CP (rows := [])) by constructor.
      * unfold add at 1, pointwise. cbn [shape fresh length map].
        rewrite broadcast_lead_fail; [reflexivity| | |]; cbn [length]; lia.
    + (* one state *)
      cbn [map concat length]. rewrite app_nil_r.
      unfold add at 1.
      erewrite pointwise_one_batch with (s := [1; 4]) (rows := map (input_row self) us);
        [|reflexivity| |batch_side Ufu].
      2:{ cbn [data fresh]. now apply state_row_length; [|inversion Ux]. }
      cbn [bind data fresh].
      set (rows := map (fun r => map2 sadd (state_row self a) r) (map (input_row self) us)).
      replace (length (map (input_row self) us)) with (length rows)
        by (unfold rows; now rewrite !length_map).
      rewrite add_xbar_rows; [|exact CP|]; unfold rows.
      2:{ eapply uniform_map; [|exact Ufu]. intros r Hr.
          rewrite map2_length; rewrite state_row_length; try assumption;
            try (now inversion Ux); now rewrite Hr. }
      rewrite !length_map, !map_map. reflexivity.
    + (* two states or more *)
      destruct us as [|b [|b' us]].
      * unfold add at 1, pointwise. cbn [shape fresh length map].
        rewrite broadcast_lead_fail; [reflexivity| | |]; cbn [length]; lia.
      * set (xs' := a :: a' :: xs) in *.
        change (concat (map (input_row self) [b])) with (input_row self b ++ []).
        rewrite app_nil_r.
        unfold add at 1.
        erewrite pointwise_batch_one with (s := [1; 4])
                                          (rows := map (state_row self) xs');
          [|batch_side Ufx|reflexivity|].
        2:{ cbn [data fresh]. now apply input_row_length. }
        cbn [bind data fresh].
        set (rows := map (fun r => map2 sadd r (input_row self b))
                         (map (state_row self) xs')).
        replace (length (map (state_row self) xs')) with (length rows)
          by (unfold rows; now rewrite !length_map).
        rewrite add_xbar_rows; [|exact CP|]; unfold rows.
        2:{ eapply uniform_map; [|exact Ufx]. intros r Hr.
            rewrite map2_length; [exact Hr|].
            rewrite Hr. symmetry. now apply input_row_length. }
        rewrite !length_map, !map_map. reflexivity.
      * unfold add at 1, pointwise. cbn [shape fresh length map].
        rewrite broadcast_lead_fail; [reflexivity| | |]; cbn [length] in *; lia.
Qed.

End StepErrors.

Section StepEntries.
Context {S : Type} {Sc : Scalar S}.

(** X7. [forward] works entry by entry, for every batch size: entry [i] of the
    result is the result of [forward] on entry [i] of the state, of the input
    and of the noise alone. *)
Theorem forward_entrywise
    (xbar0 : tensor S) (lp : bool) (xi ui : option (tensor S)) (k0 : S)
    (self : RobotsSystem S) (t i : nat)
    (xs us ws : list (list S)) (x u w : tensor S) :
  __init__ xbar0 lp xi ui k0 = Ok self ->
  length (data xbar0) = numel xbar0 ->
  batched [1; 4] xs x -> length (strides x) = 3 ->
  batched [1; 2] us u -> length (strides u) = 3 ->
  batched [1; 4] ws w -> length (strides w) = 3 ->
  length xs = length us -> length xs = length ws ->
  i < length xs ->
  exists f fi,
    forward self t x u w = Ok f
    /\ forward self t (select0 i x) (select0 i u) (select0 i w) = Ok fi
    /\ same_values (select0 i f) fi.
Proof.
  intros Hinit Lx Hx Sx Hu Su Hw Sw L1 L2 Hi.
  destruct (init_ok _ _ _ _ _ Hinit) as (CP0 & _).
  pose proof (CP0 Lx) as CP.
  destruct (select0_batched Hx Hi) as (Hxi & Sxi).
  destruct (select0_batched (i := i) Hu ltac:(lia)) as (Hui & Sui).
  destruct (select0_batched (i := i) Hw ltac:(lia)) as (Hwi & Swi).
  rewrite (forward_batch t CP Hx Sx Hu Su Hw Sw L1 L2).
  rewrite (forward_batch t CP Hxi ltac:(congruence) Hui ltac:(congruence)
                         Hwi ltac:(congruence) eq_refl eq_refl).
  eexists _, _. split; [reflexivity|]. split; [reflexivity|].
  set (rows := map2 (map2 sadd) (map2 (dynamics_row self) xs us) ws).
  assert (Nr : length rows = length xs).
  { unfold rows. rewrite map2_length; rewrite map2_length; congruence. }
  assert (Ur : uniform 4 rows).
  { pose proof Hx as (_ & _ & Ux). pose proof Hu as (_ & _ & Uu).
    pose proof Hw as (_ & _ & Uw).
    change (size_of [1; 4]) with 4 in Ux, Uw. change (size_of [1; 2]) with 2 in Uu.
    unfold rows. eapply uniform_map2 with (k1 := 4) (k2 := 4); [| |exact Uw].
    - intros a b' Ha Hb. rewrite map2_length; congruence.
    - eapply uniform_map2; [|exact Ux|exact Uu].
      intros a b' Ha Hb. now apply dynamics_row_length. }
  assert (Bf : batched [1; 4] rows (fresh [length xs; 1; 4] (concat rows))).
  { unfold fresh. apply batched_intro; [congruence|exact Ur]. }
  destruct (select0_batched (i := i) Bf ltac:(lia)) as ((Hsf & Hdf & _) & _).
  split.
  - rewrite Hsf. reflexivity.
  - rewrite Hdf. cbn [data fresh map2 concat]. f_equal.
    unfold rows.
    rewrite (nth_map2 (map2 sadd) _ _ [] []);
      [|rewrite map2_length; lia|lia].
    rewrite (nth_map2 (dynamics_row self) _ _ [] []); [reflexivity|lia|lia].
Qed.

End StepEntries.

Section MatrixErrors.
Context {S : Type} {Sc : Scalar S}.

Lemma infer_size_pairs_any (N : nat) :
  infer_size [-1; 2; 2]%Z N
  = if N mod 4 =? 0 then Ok [N / 4; 2; 2] else Raise RuntimeError.
Proof.
  unfold infer_size.
  change (known_size [-1; 2; 2]%Z) with 4.
  change (existsb (fun z => (z <? -1)%Z) [-1; 2; 2]%Z) with false.
  change (length (filter (fun z => (z =? -1)%Z) [-1; 2; 2]%Z)) with 1.
  cbn [Nat.ltb Nat.leb Nat.eqb andb map Z.eqb Pos.eqb Z.to_nat].
  change (Pos.to_nat 2) with 2.
  destruct (Nat.eqb_spec (N mod 4) 0) as [E|E].
  - now rewrite orb_true_r.
  - destruct (Nat.eqb_spec N 4) as [->|_]; [now elim E|reflexivity].
Qed.

(** X8. [A_nonlin] checks the mode before it looks at the state: on a linear
    plant it raises [AssertionError] whatever [x] is; on a nonlinear plant a
    state whose number of entries is not a multiple of four is refused by
    [view]. *)
Theorem A_nonlin_rejects
    (xbar0 : tensor S) (lp : bool) (xi ui : option (tensor S)) (k0 : S)
    (self : RobotsSystem S) (x : tensor S) :
  __init__ xbar0 lp xi ui k0 = Ok self ->
  lp = true \/ numel x mod 4 <> 0 ->
  A_nonlin self x = Raise (if lp then AssertionError else RuntimeError).
Proof.
  intros Hinit H.
  destruct (init_ok _ _ _ _ _ Hinit) as (_ & Hlp & _).
  unfold A_nonlin. rewrite Hlp.
  destruct lp; [reflexivity|].
  destruct H as [H|H]; [discriminate|].
  cbn [negb assert bind]. unfold view. rewrite infer_size_pairs_any.
  destruct (Nat.eqb_spec (numel x mod 4) 0); [contradiction|reflexivity].
Qed.

End MatrixErrors.

Section RolloutEdges.
Context {S : Type} {Sc : Scalar S} {C : Type}.

(** X9. A noise tensor with fewer than three dimensions stops [rollout] with
    [IndexError]: at [data.shape[0]] when it has none, at [data.shape[1]]
    when it has one, and at the slice [data[:, t:t+1, :]] of the first step
    when it has two.  The controller has been reset once and is never
    called. *)
Theorem rollout_rejects_low_rank
    (xbar0 : tensor S) (lp : bool) (xi ui : option (tensor S)) (k0 : S)
    (self : RobotsSystem S) (ctl : controller S C) (noise : tensor S)
    (train : bool) (c0 : C) (n T : nat) :
  __init__ xbar0 lp xi ui k0 = Ok self ->
  plain_arguments xbar0 xi ui ->
  shape noise = [] \/ shape noise = [n] \/ shape noise = [n; Datatypes.S T] ->
  rollout self ctl noise train c0 = (Raise IndexError, reset ctl c0).
Proof.
  intros Hinit Args Hd.
  destruct (init_ready _ _ Hinit Args) as (_ & Hxi & _ & Hui & _).
  unfold rollout, no_grad, detach_clone.
  unfold bindM at 1. unfold do_reset at 1.
  unfold bindM at 1. unfold lift at 1. unfold shape_at at 1.
  destruct Hd as [Hd|[Hd|Hd]]; rewrite Hd; cbn [nth_error]; [reflexivity| |].
  - unfold bindM at 1. unfold lift at 1. rewrite (repeat3_row n (x_init self) Hxi).
    unfold bindM at 1. unfold lift at 1. unfold shape_at at 1. rewrite Hd. cbn [nth_error].
    unfold bindM at 1. unfold lift at 1. rewrite (repeat3_row n (u_init self) Hui).
    unfold bindM at 1.
    destruct train; unfold bindM at 1; unfold lift at 1; unfold shape_at;
      rewrite Hd; reflexivity.
  - unfold bindM at 1. unfold lift at 1. rewrite (repeat3_row n (x_init self) Hxi).
    unfold bindM at 1. unfold lift at 1. unfold shape_at at 1. rewrite Hd. cbn [nth_error].
    unfold bindM at 1. unfold lift at 1. rewrite (repeat3_row n (u_init self) Hui).
    unfold bindM at 1.
    destruct train; unfold bindM at 1; unfold lift at 1; unfold shape_at;
      rewrite Hd; cbn [nth_error seq for_range];
      unfold bindM at 1; unfold loop_body; unfold bindM at 1; unfold lift at 1;
      unfold slice1; rewrite Hd; reflexivity.
Qed.

(** X10. With a horizon of one the logs are the tensors of the single step
    themselves: the new state, and the answer of the controller as it is,
    whatever its shape. *)
Theorem rollout_horizon_one
    (xbar0 : tensor S) (lp : bool) (xi ui : option (tensor S)) (k0 : S)
    (self : RobotsSystem S) (ctl : controller S C) (noise : tensor S)
    (train : bool) (c0 : C) (n : nat) :
  __init__ xbar0 lp xi ui k0 = Ok self ->
  plain_arguments xbar0 xi ui ->
  shape noise = [n; 1; 4] -> length (strides noise) = 3 ->
  length (data noise) = n * 4 ->
  exists x1,
    forward self 0 (fresh [n; 1; 4] (concat (repeat (data (x_init self)) n)))
                   (fresh [n; 1; 2] (concat (repeat (data (u_init self)) n)))
                   noise
    = Ok x1
    /\ shape x1 = [n; 1; 4]
    /\ rollout self ctl noise train c0
       = (Ok (x1, None, fst (call ctl 0 x1 (reset ctl c0))),
          reset ctl (snd (call ctl 0 x1 (reset ctl c0)))).
Proof.
  intros Hinit Args Hd Sd Ld.
  destruct (init_ready _ _ Hinit Args) as (CP & Hxi & Lxi & Hui & Lui).
  set (x0 := fresh [n; 1; 4] (concat (repeat (data (x_init self)) n))).
  set (u0 := fresh [n; 1; 2] (concat (repeat (data (u_init self)) n))).
  destruct (@batched_of_shape3 S n 1 4 noise Hd ltac:(lia)) as (Bd & Nd).
  edestruct (@step_forward S Sc self noise 1 n 0
               (chunks (1 * 4) n (data noise)) x0 u0)
    as (rows & Ef & Ur & Nr & _);
    [exact CP|exact Bd|exact Sd|exact Nd|lia
    |reflexivity|reflexivity| |reflexivity|reflexivity| |].
  { unfold x0. cbn [data fresh]. rewrite concat_repeat_length. lia. }
  { unfold u0. cbn [data fresh]. rewrite concat_repeat_length. lia. }
  assert (Es : slice1 0 (0 + 1) noise = Ok (mkT [n; 1; 4] (strides noise) (data noise))).
  { rewrite (slice1_batch Bd (t := 0)) by lia. rewrite Nd. f_equal. f_equal.
    destruct Bd as (_ & Dd & Ud).
    rewrite Dd at 2. f_equal.
    rewrite <- (map_id (chunks (1 * 4) n (data noise))) at 2.
    apply map_ext_in. intros r Hr.
    pose proof (proj1 (Forall_forall _ _) Ud r Hr) as Lr. cbv beta in Lr.
    change (size_of [1; 4]) with 4 in Lr.
    cbn [Nat.mul skipn]. rewrite <- Lr. apply firstn_all. }
  rewrite Es in Ef. cbn [bind] in Ef.
  assert (En : forward self 0 x0 u0 noise
               = forward self 0 x0 u0 (mkT [n; 1; 4] (strides noise) (data noise))).
  { f_equal. destruct noise as [sh st d]. cbn [shape strides data] in *. now rewrite Hd. }
  exists (fresh [n; 1; 4] (concat rows)).
  split; [now rewrite En|]. split; [reflexivity|].
  unfold rollout, no_grad, detach_clone.
  unfold bindM at 1. unfold do_reset at 1.
  unfold bindM at 1. unfold lift at 1. unfold shape_at at 1. rewrite Hd. cbn [nth_error].
  unfold bindM at 1. unfold lift at 1. rewrite (repeat3_row n (x_init self) Hxi).
  unfold bindM at 1. unfold lift at 1. unfold shape_at at 1. rewrite Hd. cbn [nth_error].
  unfold bindM at 1. unfold lift at 1. rewrite (repeat3_row n (u_init self) Hui).
  fold x0 u0.
  assert (Eb : loop_body self ctl noise 0 (mkLocals x0 u0 None None) (reset ctl c0)
               = (Ok (mkLocals (fresh [n; 1; 4] (concat rows))
                               (fst (call ctl 0 (fresh [n; 1; 4] (concat rows)) (reset ctl c0)))
                               (Some (fresh [n; 1; 4] (concat rows)))
                               (Some (fst (call ctl 0 (fresh [n; 1; 4] (concat rows))
                                                (reset ctl c0))))),
                  snd (call ctl 0 (fresh [n; 1; 4] (concat rows)) (reset ctl c0)))).
  { unfold loop_body. unfold bindM at 1. unfold lift at 1. rewrite Es.
    unfold bindM at 1. unfold lift at 1. cbn [l_x l_u]. rewrite Ef.
    unfold bindM at 1. unfold do_call.
    destruct (call ctl 0 (fresh [n; 1; 4] (concat rows)) (reset ctl c0)) as (u1 & c1).
    reflexivity. }
  unfold bindM at 1.
  destruct train; unfold bindM at 1; unfold lift at 1; unfold shape_at;
    rewrite Hd; cbn [nth_error seq for_range];
    unfold bindM at 1; rewrite Eb; reflexivity.
Qed.

(** X11. [rollout] starts by resetting the controller, so for a controller whose
    [reset] forgets everything the logs and the state the controller is left
    in do not depend on what the controller went through before: running
    [rollout] again on the same noise gives the same result. *)
Theorem rollout_forgets_history
    (self : RobotsSystem S) (ctl : controller S C) (noise : tensor S)
    (train : bool) (c c' : C) :
  (forall a a', reset ctl a = reset ctl a') ->
  rollout self ctl noise train c = rollout self ctl noise train c'
  /\ rollout self ctl noise train (snd (rollout self ctl noise train c))
     = rollout self ctl noise train c.
Proof.
  intros H.
  assert (G : forall a a', rollout self ctl noise train a = rollout self ctl noise train a').
  { intros a a'. unfold rollout. unfold bindM at 1. unfold do_reset at 1.
    unfold bindM at 1. unfold do_reset at 1.
    now rewrite (H a a'). }
  split; apply G.
Qed.

End RolloutEdges.

Section Protocol.
Context {S : Type} {Sc : Scalar S} {C : Type}.

Lemma nth_error_map_fst {A B : Type} (l : list (A * B)) (t : nat) (a : A) :
  nth_error (map fst l) t = Some a -> exists b, nth_error l t = Some (a, b).
Proof.
  rewrite nth_error_map. destruct (nth_error l t) as [[a' b']|]; [|discriminate].
  intros [= <-]. now exists b'.
Qed.

(** X12. What [rollout] asks of the controller, for a horizon [T >= 1]: one
    [reset], then one call per time step [t = 0, ..., T - 1], in this order,
    each with the state that is logged at [t], then one [reset]; nothing
    else.  The record kept by [traced] changes neither the logs nor the state
    the controller is left in. *)
Theorem rollout_controller_protocol
    (xbar0 : tensor S) (lp : bool) (xi ui : option (tensor S)) (k0 : S)
    (self : RobotsSystem S) (ctl : controller S C) (noise : tensor S)
    (train : bool) (c0 : C) (tr0 : list (event S)) (n T : nat) :
  __init__ xbar0 lp xi ui k0 = Ok self ->
  plain_arguments xbar0 xi ui ->
  controller_ok n ctl ->
  shape noise = [n; T; 4] -> length (strides noise) = 3 ->
  length (data noise) = n * (T * 4) -> 1 <= T ->
  exists x_log u_log c' xs,
    rollout self (traced ctl) noise train (c0, tr0)
    = (Ok (x_log, None, u_log),
       (c', tr0 ++ Reset_event :: map2 (@Call_event S) (seq 0 T) xs ++ [Reset_event]))
    /\ rollout self ctl noise train c0 = (Ok (x_log, None, u_log), c')
    /\ length xs = T
    /\ (forall t x, nth_error xs t = Some x -> recorded x_log t x).
Proof.
  intros Hinit Args OK Hd Sd Ld HT.
  destruct (init_ready _ _ Hinit Args) as (CP & Hxi & Lxi & Hui & Lui).
  pose proof (traced_ok OK) as OK'.
  set (x0 := fresh [n; 1; 4] (concat (repeat (data (x_init self)) n))).
  set (u0 := fresh [n; 1; 2] (concat (repeat (data (u_init self)) n))).
  destruct (batched_of_shape3 noise Hd Ld) as (Bd & Nd).
  destruct T as [|T']; [lia|].
  assert (Ex0 : repeat3 n (x_init self) = Ok x0) by (now apply repeat3_row).
  assert (Eu0 : repeat3 n (u_init self) = Ok u0) by (now apply repeat3_row).
  set (s0 := (reset ctl c0, tr0 ++ [Reset_event])).
  edestruct (@loop_body_first S Sc (C * list (event S)) self (traced ctl) noise
               (Datatypes.S T') n (chunks (Datatypes.S T' * 4) n (data noise))
               x0 u0 None None s0)
    as (l1 & x1 & Ef & Eb & Ex1 & Eu1 & Inv1);
    [exact CP|exact OK'|exact Bd|exact Sd|exact Nd|lia
    |reflexivity|reflexivity| |reflexivity|reflexivity| |].
  { unfold x0. cbn [data fresh]. rewrite concat_repeat_length. lia. }
  { unfold u0. cbn [data fresh]. rewrite concat_repeat_length. lia. }
  unfold s0 in Eb, Eu1, Inv1. cbn [traced call fst snd] in Eb, Eu1, Inv1.
  set (c1 := snd (call ctl 0 x1 (reset ctl c0))) in *.
  set (u1 := fst (call ctl 0 x1 (reset ctl c0))) in *.
  set (tr1 := (tr0 ++ [Reset_event]) ++ [Call_event 0 x1]) in *.
  edestruct (@for_range_trace S Sc C self ctl noise (Datatypes.S T') n
               (chunks (Datatypes.S T' * 4) n (data noise))
               CP OK Bd Sd Nd T' 1 l1 c1 tr1 [(x1, u1)])
    as (l' & c' & Er & Inv'); [lia|lia|exact Inv1|].
  set (rest := closed_loop self (traced ctl) noise (seq 1 T') (l_x l1) (l_u l1) (c1, tr1)) in *.
  destruct Inv' as (_ & _ & _ & _ & _ & _ & (xl & Exl & BX & RX)
                      & (ul & Eul & BU & RU) & Ltraj).
  assert (ER : rollout self (traced ctl) noise train (c0, tr0)
               = (Ok (xl, None, ul),
                  (reset ctl c',
                   (tr1 ++ map2 (@Call_event S) (seq 1 T') (map fst rest))
                   ++ [Reset_event]))).
  { unfold rollout, no_grad, detach_clone.
    unfold bindM at 1. unfold do_reset at 1. cbn [traced reset fst snd]. fold s0.
    unfold bindM at 1. unfold lift at 1. unfold shape_at at 1. rewrite Hd. cbn [nth_error].
    unfold bindM at 1. unfold lift at 1. rewrite Ex0.
    unfold bindM at 1. unfold lift at 1. unfold shape_at at 1. rewrite Hd. cbn [nth_error].
    unfold bindM at 1. unfold lift at 1. rewrite Eu0.
    assert (EL : bindM (lift (shape_at noise 1))
                       (fun T => for_range (seq 0 T) (loop_body self (traced ctl) noise)
                                           (mkLocals x0 u0 None None)) s0
                 = (Ok l', (c', tr1 ++ map2 (@Call_event S) (seq 1 T') (map fst rest)))).
    { unfold bindM at 1. unfold lift at 1. unfold shape_at. rewrite Hd. cbn [nth_error].
      cbn [seq for_range]. unfold bindM at 1. unfold s0. rewrite Eb. exact Er. }
    unfold bindM at 1.
    destruct train; rewrite EL;
      unfold bindM, do_reset, local, ret; rewrite Exl, Eul; reflexivity. }
  exists xl, ul, (reset ctl c'), (x1 :: map fst rest).
  split; [|split; [|split]].
  - rewrite ER. f_equal. f_equal. unfold tr1.
    cbn [seq map2]. rewrite <- !app_assoc. reflexivity.
  - rewrite (rollout_traced self ctl noise train c0 tr0), ER. reflexivity.
  - cbn [length app] in *. rewrite length_map. lia.
  - intros t x Hq.
    destruct (@nth_error_map_fst _ _ ((x1, u1) :: rest) t x Hq) as (u & Hq').
    exact (RX t x u Hq').
Qed.

End Protocol.

Section Causality.
Context {S : Type} {Sc : Scalar S} {C : Type}.

(** X13. The first [k] steps of a rollout depend on the first [k] noise samples
    only: [rollout] on [data[:, :k, :]] returns [x_log[:, :k, :]] and
    [u_log[:, :k, :]] of the rollout on [data]. *)
Theorem rollout_causal
    (xbar0 : tensor S) (lp : bool) (xi ui : option (tensor S)) (k0 : S)
    (self : RobotsSystem S) (ctl : controller S C) (noise : tensor S)
    (train : bool) (c0 : C) (n T k : nat) :
  __init__ xbar0 lp xi ui k0 = Ok self ->
  plain_arguments xbar0 xi ui ->
  controller_ok n ctl ->
  shape noise = [n; T; 4] -> length (strides noise) = 3 ->
  length (data noise) = n * (T * 4) ->
  1 <= k -> k <= T ->
  exists w x_log u_log c1 x_log' u_log' c2 sx su,
    slice1 0 k noise = Ok w
    /\ rollout self ctl noise train c0 = (Ok (x_log, None, u_log), c1)
    /\ rollout self ctl w train c0 = (Ok (x_log', None, u_log'), c2)
    /\ slice1 0 k x_log = Ok sx /\ same_values sx x_log'
    /\ slice1 0 k u_log = Ok su /\ same_values su u_log'.
Proof.
  intros Hinit Args OK Hd Sd Ld Hk HkT.
  destruct (init_ready _ _ Hinit Args) as (CP & Hxi & Lxi & Hui & Lui).
  destruct (batched_of_shape3 noise Hd Ld) as (Bd & Nd).
  set (ws := chunks (T * 4) n (data noise)) in *.
  pose proof Bd as (_ & _ & Ud).
  replace (size_of [T; 4]) with (T * 4) in Ud by (unfold size_of; simpl; lia).
  (* the truncated noise *)
  set (w := mkT [n; k; 4] (strides noise) (concat (map (firstn (k * 4)) ws))).
  assert (Ew : slice1 0 k noise = Ok w).
  { rewrite (slice1_prefix Bd HkT). unfold w. now rewrite Nd. }
  assert (Uw : uniform (k * 4) (map (firstn (k * 4)) ws))
    by (now apply prefix_rows_uniform with (T := T)).
  assert (Bw : batched [k; 4] (map (firstn (k * 4)) ws) w).
  { unfold w. apply batched_intro; [now rewrite length_map|].
    replace (size_of [k; 4]) with (k * 4) by (unfold size_of; simpl; lia). exact Uw. }
  assert (Lw : length (data w) = n * (k * 4)).
  { rewrite (batched_length Bw), length_map, Nd. unfold size_of; simpl; lia. }
  (* the two runs *)
  destruct (@rollout_trajectory S Sc C self ctl noise train c0 n T
              CP Hxi Lxi Hui Lui OK Hd Sd Ld ltac:(lia))
    as (xl & ul & c1 & Er & _ & _ & Lt & BX & BU & _).
  destruct (@rollout_trajectory S Sc C self ctl w train c0 n k
              CP Hxi Lxi Hui Lui OK eq_refl Sd Lw Hk)
    as (xl' & ul' & c2 & Er' & _ & _ & Lt' & BX' & BU' & _).
  set (x0 := fresh [n; 1; 4] (concat (repeat (data (x_init self)) n))) in *.
  set (u0 := fresh [n; 1; 2] (concat (repeat (data (u_init self)) n))) in *.
  set (traj := closed_loop self ctl noise (seq 0 T) x0 u0 (reset ctl c0)) in *.
  set (traj' := closed_loop self ctl w (seq 0 k) x0 u0 (reset ctl c0)) in *.
  (* the short run is the beginning of the long one *)
  assert (Et : exists rest, traj = traj' ++ rest).
  { unfold traj, traj'.
    assert (ET : seq 0 T = seq 0 k ++ seq (0 + k) (T - k))
      by (rewrite <- seq_app; f_equal; lia).
    rewrite ET.
    destruct (closed_loop_app self ctl noise (seq 0 k) (seq (0 + k) (T - k))
                              x0 u0 (reset ctl c0)) as (rest & ->).
    exists rest. f_equal. symmetry. apply closed_loop_ext.
    apply Forall_forall. intros t Ht. apply in_seq in Ht.
    rewrite (slice1_batch Bw (t := t)) by lia.
    rewrite (slice1_batch Bd (t := t)) by lia.
    rewrite length_map. f_equal. f_equal. f_equal.
    apply (rows_at_prefix 4 (k := k) (t := t) ws). lia. }
  destruct Et as (rest & Et).
  pose proof BX as (HsX & _ & _). pose proof BU as (HsU & _ & _).
  pose proof BX' as (HsX' & DX' & UX'). pose proof BU' as (HsU' & DU' & UU').
  replace (size_of [k; 4]) with (k * 4) in UX' by (unfold size_of; simpl; lia).
  replace (size_of [k; 2]) with (k * 2) in UU' by (unfold size_of; simpl; lia).
  rewrite !stack_length in HsX, HsU, HsX', HsU'.
  exists w, xl, ul, (reset ctl c1), xl', ul', (reset ctl c2).
  eexists _, _.
  split; [exact Ew|]. split; [exact Er|]. split; [exact Er'|].
  rewrite (slice1_prefix BX HkT), (slice1_prefix BU HkT).
  split; [reflexivity|]. split; [|split; [reflexivity|]].
  - split; cbn [shape data]; [now rewrite stack_length, HsX'|].
    rewrite DX'. f_equal. rewrite Et, map_app.
    destruct (stack_app 4 n (map fst traj') (map fst rest)) as (ext & Le & ->).
    apply firstn_rows; [exact UX'|]. now rewrite stack_length.
  - split; cbn [shape data]; [now rewrite stack_length, HsU'|].
    rewrite DU'. f_equal. rewrite Et, map_app.
    destruct (stack_app 2 n (map snd traj') (map snd rest)) as (ext & Le & ->).
    apply firstn_rows; [exact UU'|]. now rewrite stack_length.
Qed.

End Causality.

Section EntryIndependence.
Context {S : Type} {Sc : Scalar S} {C : Type}.

Lemma Forall2_proj (n i : nat) (l li : list (tensor S * tensor S)) :
  Forall2 (entry_steps (S := S) n i) l li ->
  Forall2 (fun p q => entry_of 4 n i (fst p) (fst q)) l li
  /\ Forall2 (fun p q => entry_of 2 n i (snd p) (snd q)) l li.
Proof.
  induction 1 as [|p q l li (H1 & H2) _ (IH1 & IH2)]; split; constructor; assumption.
Qed.

(** X14. For every batch size [n] and every entry [i] of the batch, with a
    controller that answers entry [i] of a batch as it answers that state
    alone: entry [i] of the logs [rollout] returns on the batch is what
    [rollout] returns on [data[i:i+1]].  No entry of the batch leaks into
    another one. *)
Theorem rollout_entry_independent
    (xbar0 : tensor S) (lp : bool) (xi ui : option (tensor S)) (k0 : S)
    (self : RobotsSystem S) (ctl : controller S C) (R : C -> C -> Prop)
    (noise : tensor S) (train : bool) (c ci : C) (n T i : nat) :
  __init__ xbar0 lp xi ui k0 = Ok self ->
  plain_arguments xbar0 xi ui ->
  controller_ok n ctl -> controller_ok 1 ctl ->
  entrywise n i ctl R -> R c ci ->
  shape noise = [n; T; 4] -> length (strides noise) = 3 ->
  length (data noise) = n * (T * 4) -> 1 <= T -> i < n ->
  exists xl ul c' xli uli ci',
    rollout self ctl noise train c = (Ok (xl, None, ul), c')
    /\ rollout self ctl (select0 i noise) train ci = (Ok (xli, None, uli), ci')
    /\ same_values (select0 i xl) xli /\ same_values (select0 i ul) uli.
Proof.
  intros Hinit Args OKn OK1 PW HR Hd Sd Ld HT Hi.
  destruct (init_ready _ _ Hinit Args) as (CP & Hxi & Lxi & Hui & Lui).
  destruct (batched_of_shape3 noise Hd Ld) as (Bd & Nd).
  set (ws := chunks (T * 4) n (data noise)) in *.
  destruct (select0_batched (i := i) Bd ltac:(lia)) as (Bdi & Sdi).
  pose proof Bdi as (Hsi & Hdi & Udi).
  replace (size_of [T; 4]) with (T * 4) in Udi by (unfold size_of; simpl; lia).
  assert (Ldi : length (data (select0 i noise)) = 1 * (T * 4)).
  { rewrite (batched_length Bdi). unfold size_of; simpl; lia. }
  destruct (@rollout_trajectory S Sc C self ctl noise train c n T
              CP Hxi Lxi Hui Lui OKn Hd Sd Ld HT)
    as (xl & ul & c' & Er & _ & _ & Lt & BX & BU & _).
  destruct (@rollout_trajectory S Sc C self ctl (select0 i noise) train ci 1 T
              CP Hxi Lxi Hui Lui OK1 Hsi ltac:(congruence) Ldi HT)
    as (xli & uli & ci' & Eri & _ & _ & Lti & BXi & BUi & _).
  set (x0 := fresh [n; 1; 4] (concat (repeat (data (x_init self)) n))) in *.
  set (u0 := fresh [n; 1; 2] (concat (repeat (data (u_init self)) n))) in *.
  set (x0i := fresh [1; 1; 4] (concat (repeat (data (x_init self)) 1))) in *.
  set (u0i := fresh [1; 1; 2] (concat (repeat (data (u_init self)) 1))) in *.
  assert (Hx0 : entry_of 4 n i x0 x0i).
  { unfold x0, x0i.
    replace (repeat (data (x_init self)) 1)
      with [nth i (repeat (data (x_init self)) n) []]
      by (now rewrite nth_repeat_lt).
    apply entry_of_fresh; [now apply uniform_repeat|apply repeat_length|exact Hi]. }
  assert (Hu0 : entry_of 2 n i u0 u0i).
  { unfold u0, u0i.
    replace (repeat (data (u_init self)) 1)
      with [nth i (repeat (data (u_init self)) n) []]
      by (now rewrite nth_repeat_lt).
    apply entry_of_fresh; [now apply uniform_repeat|apply repeat_length|exact Hi]. }
  assert (F : Forall2 (entry_steps n i)
                      (closed_loop self ctl noise (seq 0 T) x0 u0 (reset ctl c))
                      (closed_loop self ctl (select0 i noise) (seq 0 T) x0i u0i
                                   (reset ctl ci))).
  { eapply (@closed_loop_entry S Sc C self ctl R T n i ws noise (select0 i noise));
      try eassumption; try reflexivity.
    - congruence.
    - apply Forall_forall. intros t Ht. apply in_seq in Ht. lia.
    - apply (proj1 PW). exact HR. }
  destruct (Forall2_proj F) as (FX & FU).
  pose proof (stack_entry fst Hi FX) as EX.
  pose proof (stack_entry snd Hi FU) as EU.
  exists xl, ul, (reset ctl c'), xli, uli, (reset ctl ci').
  split; [exact Er|]. split; [exact Eri|].
  destruct (select0_batched (i := i) BX ltac:(now rewrite stack_length))
    as ((HsX & HdX & _) & _).
  destruct (select0_batched (i := i) BU ltac:(now rewrite stack_length))
    as ((HsU & HdU & _) & _).
  destruct BXi as (HsXi & HdXi & _), BUi as (HsUi & HdUi & _).
  split; split.
  - rewrite HsX, HsXi, stack_length. reflexivity.
  - rewrite HdX, HdXi, EX. reflexivity.
  - rewrite HsU, HsUi, stack_length. reflexivity.
  - rewrite HdU, HdUi, EU. reflexivity.
Qed.

End EntryIndependence.

Section Layouts.
Context {S : Type} {Sc : Scalar S}.

(** X15. The state, the input and the noise may come in any shape, as long as
    they are freshly allocated (contiguous) and hold a multiple of four, two
    and four entries: [noiseless_forward] and [forward] read them through
    [view] as batches of rows and give what they give on the shapes
    [(n, 1, 4)], [(m, 1, 2)] and [(p, 1, 4)] with the same entries. *)
Theorem forward_any_shape
    (xbar0 : tensor S) (lp : bool) (xi ui : option (tensor S)) (k0 : S)
    (self : RobotsSystem S) (t n m p : nat)
    (sx su sw : list nat) (dx du dw : list S) :
  __init__ xbar0 lp xi ui k0 = Ok self ->
  length (data xbar0) = numel xbar0 ->
  size_of sx = n * 4 -> length dx = n * 4 ->
  size_of su = m * 2 -> length du = m * 2 ->
  size_of sw = p * 4 -> length dw = p * 4 ->
  noiseless_forward self t (fresh sx dx) (fresh su du)
  = noiseless_forward self t (fresh [n; 1; 4] dx) (fresh [m; 1; 2] du)
  /\ forward self t (fresh sx dx) (fresh su du) (fresh sw dw)
     = forward self t (fresh [n; 1; 4] dx) (fresh [m; 1; 2] du) (fresh [p; 1; 4] dw).
Proof.
  intros Hinit Lx Hsx Ldx Hsu Ldu Hsw Ldw.
  destruct (init_ok _ _ _ _ _ Hinit) as (CP0 & _).
  pose proof (CP0 Lx) as CP.
  assert (E : noiseless_forward self t (fresh sx dx) (fresh su du)
              = noiseless_forward self t (fresh [n; 1; 4] dx) (fresh [m; 1; 2] du)).
  { rewrite (@noiseless_forward_fresh S Sc self t n m sx su dx du CP Hsx Ldx Hsu Ldu).
    rewrite (@noiseless_forward_fresh S Sc self t n m [n; 1; 4] [m; 1; 2] dx du CP
               (prod_batch n 4) Ldx (prod_batch m 2) Ldu).
    reflexivity. }
  split; [exact E|].
  unfold forward. rewrite E.
  destruct (noiseless_forward self t (fresh [n; 1; 4] dx) (fresh [m; 1; 2] du)) as [f|e];
    [|reflexivity].
  cbn [bind]. destruct CP as (-> & _).
  destruct (@view_fresh_rows S 4 p sw dw ltac:(lia) Hsw) as (st & -> & _).
  destruct (@view_fresh_rows S 4 p [p; 1; 4] dw ltac:(lia) (prod_batch p 4))
    as (st' & -> & _).
  reflexivity.
Qed.

End Layouts.

Section TallInput.
Context {S : Type} {Sc : Scalar S} {C : Type}.

(** X16. The constructor keeps an initial input of shape [(r, 2)] as it is given
    (line 27 drops the reshaped tensor).  With [r >= 2] such a plant stops
    every [rollout] on a batch of two or more noise sequences at the first
    step: the [n] states meet [n r] inputs and cannot be broadcast.  The
    controller has been reset once and is never called. *)
Theorem rollout_rejects_tall_u_init
    (xbar0 : tensor S) (lp : bool) (xi : option (tensor S)) (u0 : tensor S) (k0 : S)
    (self : RobotsSystem S) (ctl : controller S C) (noise : tensor S)
    (train : bool) (c0 : C) (n T r : nat) :
  __init__ xbar0 lp xi (Some u0) k0 = Ok self ->
  length (data xbar0) = numel xbar0 ->
  (forall x0, xi = Some x0 -> length (data x0) = numel x0) ->
  shape u0 = [r; 2] -> length (data u0) = r * 2 -> 2 <= r ->
  shape noise = [n; T; 4] -> length (strides noise) = 3 ->
  length (data noise) = n * (T * 4) -> 1 <= T -> 2 <= n ->
  rollout self ctl noise train c0 = (Raise RuntimeError, reset ctl c0).
Proof.
  intros Hinit Lx Lxi Hu0 Lu0 Hr Hd Sd Ld HT Hn.
  destruct (init_ok _ _ _ _ _ Hinit)
    as (CP0 & _ & Dxb & Hxi & Dxi & Eui & _ & _ & _ & _ & _ & _ & Nxi).
  pose proof (CP0 Lx) as CP. cbv beta iota in Eui.
  assert (Lx0 : length (data (x_init self)) = 4).
  { rewrite Dxi. destruct xi as [x0|].
    - rewrite (Lxi x0 eq_refl). now apply Nxi.
    - rewrite <- Dxb. apply CP. }
  set (dx := concat (repeat (data (x_init self)) n)).
  set (du := concat (repeat (data u0) n)).
  assert (Ex : repeat3 n (x_init self) = Ok (fresh [n; 1; 4] dx))
    by (now apply repeat3_row).
  assert (Eu : repeat3 n (u_init self) = Ok (fresh [n; r; 2] du)).
  { rewrite Eui. unfold repeat3. now rewrite Hu0. }
  assert (Ldx : length dx = n * 4)
    by (unfold dx; rewrite concat_repeat_length; lia).
  assert (Ldu : length du = n * r * 2)
    by (unfold du; rewrite concat_repeat_length; lia).
  destruct (batched_of_shape3 noise Hd Ld) as (Bd & Nd).
  assert (Ef : forall w, forward self 0 (fresh [n; 1; 4] dx) (fresh [n; r; 2] du) w
                         = Raise RuntimeError).
  { intros w. unfold forward.
    rewrite (@noiseless_forward_fresh S Sc self 0 n (n * r) [n; 1; 4] [n; r; 2] dx du CP
               (prod_batch n 4) Ldx);
      [|unfold size_of; simpl; lia|exact Ldu].
    unfold add at 1, pointwise. cbn [shape fresh].
    rewrite broadcast_lead_fail; [reflexivity| | |]; nia. }
  assert (Eb : loop_body self ctl noise 0
                 (mkLocals (fresh [n; 1; 4] dx) (fresh [n; r; 2] du) None None)
                 (reset ctl c0)
               = (Raise RuntimeError, reset ctl c0)).
  { unfold loop_body, bindM, lift. cbn [l_x l_u].
    rewrite (slice1_batch Bd (t := 0)) by lia. now rewrite Ef. }
  unfold rollout, no_grad, detach_clone.
  unfold bindM at 1. unfold do_reset at 1.
  unfold bindM at 1. unfold lift at 1. unfold shape_at at 1. rewrite Hd. cbn [nth_error].
  unfold bindM at 1. unfold lift at 1. rewrite Ex.
  unfold bindM at 1. unfold lift at 1. unfold shape_at at 1. rewrite Hd. cbn [nth_error].
  unfold bindM at 1. unfold lift at 1. rewrite Eu.
  unfold bindM at 1.
  destruct T as [|T']; [lia|].
  destruct train; unfold bindM at 1; unfold lift at 1; unfold shape_at;
    rewrite Hd; cbn [nth_error seq for_range];
    unfold bindM at 1; rewrite Eb; reflexivity.
Qed.

End TallInput.

Section ResetDiscipline.
Context {S : Type} {Sc : Scalar S} {C : Type}.

(** One pass through the body of the loop calls the controller at most once,
    and an exception raised before the call leaves the record as it was. *)
Lemma loop_body_events (self : RobotsSystem S) (ctl : controller S C)
    (noise : tensor S) (t : nat) (l : locals S) (c : C) (tr : list (event S)) :
  (snd (snd (loop_body self (traced ctl) noise t l (c, tr))) = tr
   /\ exists e, fst (loop_body self (traced ctl) noise t l (c, tr)) = Raise e)
  \/ (exists x, snd (snd (loop_body self (traced ctl) noise t l (c, tr)))
               = tr ++ [Call_event t x]).
Proof.
  unfold loop_body, bindM, lift, do_call, local, ret.
  destruct (slice1 t (t + 1) noise) as [w|e]; [|left; cbn; eauto].
  destruct (forward self t (l_x l) (l_u l) w) as [x|e]; [|left; cbn; eauto].
  right. exists x. cbn [traced call fst snd].
  destruct (t =? 0); [reflexivity|].
  destruct (l_x_log l) as [xl|]; [|reflexivity].
  destruct (cat 1 xl x) as [x_log|e]; [|reflexivity].
  destruct (l_u_log l) as [ul|]; [|reflexivity].
  destruct (cat 1 ul _) as [u_log|e]; reflexivity.
Qed.

(** The loop calls the controller at the successive times, once per step,
    until it ends or a step raises. *)
Lemma for_range_events (self : RobotsSystem S) (ctl : controller S C)
    (noise : tensor S) (m : nat) :
  forall j l c tr,
    exists xs,
      snd (snd (for_range (seq j m) (loop_body self (traced ctl) noise) l (c, tr)))
      = tr ++ map2 (@Call_event S) (seq j (length xs)) xs
      /\ length xs <= m.
Proof.
  induction m as [|m IH]; intros j l c tr.
  - exists []. cbn. now rewrite app_nil_r.
  - cbn [seq for_range]. unfold bindM at 1.
    destruct (loop_body_events self ctl noise j l c tr) as [(Et & e & Er)|(x & Et)];
      destruct (loop_body self (traced ctl) noise j l (c, tr)) as ([l1|e1] & (c1 & tr1));
      cbn [fst snd] in *.
    + discriminate.
    + exists []. cbn [length seq map2]. rewrite app_nil_r. split; [exact Et|lia].
    + destruct (IH (Datatypes.S j) l1 c1 tr1) as (xs & E & L).
      exists (x :: xs). rewrite E, Et. cbn [length seq map2].
      rewrite <- app_assoc. split; [reflexivity|lia].
    + exists [x]. cbn [length seq map2]. split; [exact Et|lia].
Qed.

(** [rollout], case by case. *)
Lemma rollout_cases {C' : Type} (self : RobotsSystem S) (ctl : controller S C')
    (noise : tensor S) (train : bool) (s : C') :
  rollout self ctl noise train s
  = match shape_at noise 0 with
    | Raise e => (Raise e, reset ctl s)
    | Ok n =>
        match repeat3 n (x_init self) with
        | Raise e => (Raise e, reset ctl s)
        | Ok x =>
            match repeat3 n (u_init self) with
            | Raise e => (Raise e, reset ctl s)
            | Ok u =>
                match shape_at noise 1 with
                | Raise e => (Raise e, reset ctl s)
                | Ok T =>
                    match for_range (seq 0 T) (loop_body self ctl noise)
                                    (mkLocals x u None None) (reset ctl s) with
                    | (Raise e, s') => (Raise e, s')
                    | (Ok l, s') =>
                        match l_x_log l, l_u_log l with
                        | Some xl, Some ul => (Ok (xl, None, ul), reset ctl s')
                        | _, _ => (Raise UnboundLocalError, reset ctl s')
                        end
                    end
                end
            end
        end
    end.
Proof.
  unfold rollout, no_grad, detach_clone, bindM, do_reset, lift, local, ret.
  destruct (shape_at noise 0) as [n|e]; [|reflexivity].
  destruct (repeat3 n (x_init self)) as [x|e]; [|reflexivity].
  destruct (repeat3 n (u_init self)) as [u|e]; [|reflexivity].
  destruct train;
    (destruct (shape_at noise 1) as [T|e]; [|reflexivity];
     destruct (for_range _ _ _ _) as ([l|e] & s'); [|reflexivity];
     destruct (l_x_log l); [|reflexivity]; destruct (l_u_log l); reflexivity).
Qed.

(** X17. The discipline of [rollout] towards the controller, for every plant,
    every noise tensor and every controller, whether [rollout] returns or
    raises: the controller is reset first; it is then called at the times
    [0, 1, 2, ...], at most once per time step of the noise; it is reset a
    second time exactly when the loop ends without an exception, after which
    [rollout] returns or raises [UnboundLocalError].  An exception raised by
    a step leaves the controller as the step left it, without reset. *)
Theorem rollout_reset_discipline
    (self : RobotsSystem S) (ctl : controller S C) (noise : tensor S)
    (train : bool) (c0 : C) (tr0 : list (event S)) :
  disciplined (shape_at noise 1) tr0
              (fst (rollout self (traced ctl) noise train (c0, tr0)))
              (snd (snd (rollout self (traced ctl) noise train (c0, tr0)))).
Proof.
  rewrite rollout_cases. cbn [traced reset fst snd].
  assert (Stop : forall e : exn,
            disciplined (shape_at noise 1) tr0
                        (@Raise (tensor S * option (tensor S) * tensor S) e)
                        (tr0 ++ [Reset_event])).
  { intros e. exists []. split; [intros; cbn; lia|].
    right. cbn. split; [reflexivity|eauto]. }
  destruct (shape_at noise 0) as [n|e]; [|apply Stop].
  destruct (repeat3 n (x_init self)) as [x|e]; [|apply Stop].
  destruct (repeat3 n (u_init self)) as [u|e]; [|apply Stop].
  destruct (shape_at noise 1) as [T|e]; [|apply Stop].
  clear Stop.
  destruct (for_range_events self ctl noise T 0 (mkLocals x u None None)
                             (reset ctl c0) (tr0 ++ [Reset_event]))
    as (xs & E & L).
  exists xs. split; [intros T' [= <-]; exact L|].
  destruct (for_range _ _ _ _) as ([l|e] & (c1 & tr1)); cbn [fst snd] in E.
  - left. subst tr1.
    destruct (l_x_log l); [destruct (l_u_log l)|]; cbn [fst snd];
      (split; [rewrite <- !app_assoc; reflexivity|eauto]).
  - right. subst tr1. cbn [fst snd]. split; [rewrite <- app_assoc; reflexivity|eauto].
Qed.

End ResetDiscipline.

Section FixedPoint.
Context {S : Type} {Sc : Scalar S} {L : ScalarLaws S}.

(** X18. The equilibrium is a fixed point of one step, in both modes and for every
    batch size: at [xbar], with a zero input, [noiseless_forward] returns
    [xbar], and so does [forward] when the noise is zero too. *)
Theorem noiseless_forward_fixed_point
    (xbar0 : tensor S) (lp : bool) (xi ui : option (tensor S)) (k0 : S)
    (self : RobotsSystem S) (t n : nat) :
  __init__ xbar0 lp xi ui k0 = Ok self ->
  length (data xbar0) = numel xbar0 ->
  let at_xbar := fresh [n; 1; 4] (concat (repeat (data (xbar self)) n)) in
  noiseless_forward self t at_xbar (zeros [n; 1; 2]) = Ok at_xbar
  /\ forward self t at_xbar (zeros [n; 1; 2]) (zeros [n; 1; 4]) = Ok at_xbar.
Proof.
  intros Hinit Lx at_xbar.
  destruct (init_ok _ _ _ _ _ Hinit) as (CP0 & _).
  pose proof (CP0 Lx) as CP.
  pose proof CP as (_ & _ & _ & Lxb & _).
  assert (Bx : batched [1; 4] (repeat (data (xbar self)) n) at_xbar)
    by (apply repeat_batched; exact Lxb).
  assert (Bu : batched [1; 2] (repeat [zero; zero] n) (zeros [n; 1; 2])).
  { unfold zeros. replace (size_of [n; 1; 2]) with (n * 2) by (unfold size_of; simpl; lia).
    rewrite <- (concat_repeat_repeat zero 2 n).
    apply repeat_batched. reflexivity. }
  assert (Bw : batched [1; 4] (repeat (repeat zero 4) n) (zeros [n; 1; 4])).
  { unfold zeros. replace (size_of [n; 1; 4]) with (n * 4) by (unfold size_of; simpl; lia).
    rewrite <- (concat_repeat_repeat zero 4 n).
    apply repeat_batched. apply repeat_length. }
  assert (Ed : map2 (dynamics_row self) (repeat (data (xbar self)) n) (repeat [zero; zero] n)
               = repeat (data (xbar self)) n).
  { rewrite map2_repeat. now rewrite (dynamics_row_rest CP). }
  split.
  - rewrite (noiseless_forward_batch t CP Bx eq_refl Bu eq_refl)
      by (now rewrite !repeat_length).
    rewrite Ed, repeat_length. reflexivity.
  - rewrite (forward_batch t CP Bx eq_refl Bu eq_refl Bw eq_refl)
      by (now rewrite !repeat_length).
    rewrite Ed, map2_repeat, repeat_length. unfold at_xbar.
    f_equal. f_equal. f_equal. f_equal.
    clear - L Lxb. destruct (data (xbar self)) as [|a l]; [discriminate|]. explode l.
    cbn [repeat map2]. unfold zero. now rewrite !sadd_0_r.
Qed.

End FixedPoint.

Lemma noiseless_forward_fixed_point_witness :
  exists self,
    __init__ demo_xbar false None None (qc 1) = Ok self
    /\ noiseless_forward self 0 (fresh [3; 1; 4] (concat (repeat (data (xbar self)) 3)))
                         (zeros [3; 1; 2])
       = Ok (fresh [3; 1; 4] (concat (repeat (data (xbar self)) 3)))
    /\ forward self 0 (fresh [3; 1; 4] (concat (repeat (data (xbar self)) 3)))
                      (zeros [3; 1; 2]) (zeros [3; 1; 4])
       = Ok (fresh [3; 1; 4] (concat (repeat (data (xbar self)) 3))).
Proof.
  eexists. split; [reflexivity|].
  apply (@noiseless_forward_fixed_point Qc Qc_Scalar Qc_Laws demo_xbar false None None
           (qc 1) _ 0 3 eq_refl eq_refl).
Defined.

Section NoiseBatches.
Context {S : Type} {Sc : Scalar S}.

(** X19. [forward] on [n] states with their inputs and a batch of [p] noise rows:
    entry by entry when [n = p]; a single noise row is added to every state,
    and a single state meets every noise row (the result then has [p]
    entries); any other pair of sizes is refused with the broadcasting
    error. *)
Theorem forward_batches
    (xbar0 : tensor S) (lp : bool) (xi ui : option (tensor S)) (k0 : S)
    (self : RobotsSystem S) (t : nat)
    (xs us ws : list (list S)) (x u w : tensor S) :
  __init__ xbar0 lp xi ui k0 = Ok self ->
  length (data xbar0) = numel xbar0 ->
  batched [1; 4] xs x -> length (strides x) = 3 ->
  batched [1; 2] us u -> length (strides u) = 3 ->
  batched [1; 4] ws w -> length (strides w) = 3 ->
  length xs = length us ->
  forward self t x u w
  = match pair_rows (map2 (dynamics_row self) xs us) ws with
    | Some ps =>
        Ok (fresh [length ps; 1; 4]
                  (concat (map (fun p => map2 sadd (fst p) (snd p)) ps)))
    | None => Raise RuntimeError
    end.
Proof.
  intros Hinit Lx Hx Sx Hu Su Hw Sw Len.
  destruct (init_ok _ _ _ _ _ Hinit) as (CP0 & _).
  pose proof (CP0 Lx) as CP.
  pose proof Hx as (_ & _ & Ux). pose proof Hu as (_ & _ & Uu).
  pose proof Hw as (_ & Dw & Uw).
  change (size_of [1; 4]) with 4 in Ux, Uw. change (size_of [1; 2]) with 2 in Uu.
  set (fs := map2 (dynamics_row self) xs us).
  assert (Uf : uniform 4 fs).
  { unfold fs. eapply uniform_map2; [|exact Ux|exact Uu].
    intros a b' Ha Hb. now apply dynamics_row_length. }
  assert (Nf : length fs = length xs) by (unfold fs; rewrite map2_length; congruence).
  unfold forward.
  rewrite (noiseless_forward_batch t CP Hx Sx Hu Su Len). cbn [bind]. fold fs.
  destruct CP as (Hsd & _). rewrite Hsd.
  destruct (view_batch (d := 4) ltac:(lia) Hw Sw) as (stw & -> & Lstw).
  cbn [bind]. rewrite Dw, <- Nf.
  assert (Bf : batched [1; 4] fs (fresh [length fs; 1; 4] (concat fs)))
    by (unfold fresh; now apply batched_intro).
  assert (Bw : batched [1; 4] ws (mkT [length ws; 1; 4] stw (concat ws)))
    by (now apply batched_intro).
  unfold pair_rows.
  destruct (Nat.eqb_spec (length fs) (length ws)) as [E|E].
  - unfold add. rewrite (pointwise_batch_batch sadd Bf Bw E).
    now rewrite map_combine_map2, length_combine, <- E, Nat.min_id.
  - destruct fs as [|a [|a' fs']].
    + destruct ws as [|b' [|b'' ws']]; [now elim E| |].
      * unfold add.
        erewrite pointwise_batch_one with (s := [1; 4]) (rows := []);
          [reflexivity|exact Bf|reflexivity|].
        cbn [data concat]. rewrite app_nil_r. now inversion Uw.
      * unfold add, pointwise. cbn [shape fresh length].
        rewrite broadcast_lead_fail; [reflexivity| | |]; cbn [length]; lia.
    + unfold add.
      erewrite pointwise_one_batch with (s := [1; 4]) (rows := ws);
        [|reflexivity| |exact Bw].
      2:{ cbn [data fresh concat]. rewrite app_nil_r. now inversion Uf. }
      cbn [data fresh concat]. rewrite app_nil_r, !length_map, map_map. reflexivity.
    + destruct ws as [|b' [|b'' ws']].
      * unfold add, pointwise. cbn [shape fresh length].
        rewrite broadcast_lead_fail; [reflexivity| | |]; cbn [length]; lia.
      * set (fs := a :: a' :: fs') in *. unfold add.
        erewrite pointwise_batch_one with (s := [1; 4]) (rows := fs);
          [|exact Bf|reflexivity|].
        2:{ cbn [data concat]. rewrite app_nil_r. now inversion Uw. }
        cbn [data concat]. rewrite app_nil_r, !length_map, map_map. reflexivity.
      * unfold add, pointwise. cbn [shape fresh length].
        rewrite broadcast_lead_fail; [reflexivity| | |]; cbn [length] in *; lia.
Qed.

End NoiseBatches.

Lemma forward_batches_witness :
  exists self,
    __init__ demo_xbar false None None (qc 1) = Ok self
    /\ forward self 0 (fresh [1; 1; 4] [qc 1; qc 2; qc 3; qc 4])
                      (fresh [1; 1; 2] [qc 1; qc 0])
                      (fresh [2; 1; 4] (concat demo_states))
       = match pair_rows (map2 (dynamics_row self) [[qc 1; qc 2; qc 3; qc 4]] [[qc 1; qc 0]])
                         demo_states with
         | Some ps =>
             Ok (fresh [length ps; 1; 4]
                       (concat (map (fun p => map2 sadd (fst p) (snd p)) ps)))
         | None => Raise RuntimeError
         end.
Proof.
  eexists. split; [reflexivity|].
  apply (@forward_batches Qc Qc_Scalar demo_xbar false None None (qc 1) _ 0
           [[qc 1; qc 2; qc 3; qc 4]] [[qc 1; qc 0]] demo_states _ _ _ eq_refl eq_refl).
  - repeat split; repeat constructor.
  - reflexivity.
  - repeat split; repeat constructor.
  - reflexivity.
  - apply demo_states_batched.
  - reflexivity.
  - reflexivity.
Defined.

(* ------------------------------------------------------------------ *)
(** ** The further results on the demonstration inputs *)

Lemma demo_rest_states_batched :
  batched [1; 4] demo_rest_states (fresh [2; 1; 4] (concat demo_rest_states)).
Proof. repeat split; repeat constructor. Defined.

Lemma demo_noise_rows_batched :
  batched [1; 4] demo_noise_rows (fresh [2; 1; 4] (concat demo_noise_rows)).
Proof. repeat split; repeat constructor. Defined.

Lemma demo_single_input_batched :
  batched [1; 2] [[qc 1; qc 0]] (fresh [1; 1; 2] [qc 1; qc 0]).
Proof. repeat split; repeat constructor. Defined.

Lemma noiseless_forward_explicit_witness :
  exists self,
    __init__ demo_xbar false None None (qc 1) = Ok self
    /\ noiseless_forward self 0 (fresh [2; 1; 4] (concat demo_states))
                         (fresh [2; 1; 2] (concat demo_inputs))
       = Ok (fresh [2; 1; 4] (concat (map2 (explicit_step self) demo_states demo_inputs))).
Proof.
  eexists. split; [reflexivity|].
  apply (@noiseless_forward_explicit Qc Qc_Scalar Qc_Laws demo_xbar false None None (qc 1)
           _ 0 demo_states demo_inputs _ _ eq_refl eq_refl
           demo_states_batched eq_refl demo_inputs_batched eq_refl eq_refl).
Defined.

Lemma nonlinear_is_linear_at_rest_witness :
  exists lin nonlin,
    __init__ demo_xbar true None None (qc 1) = Ok lin
    /\ __init__ demo_xbar false None None (qc 1) = Ok nonlin
    /\ noiseless_forward nonlin 0 (fresh [2; 1; 4] (concat demo_rest_states))
                         (fresh [2; 1; 2] (concat demo_inputs))
       = noiseless_forward lin 0 (fresh [2; 1; 4] (concat demo_rest_states))
                           (fresh [2; 1; 2] (concat demo_inputs)).
Proof.
  eexists _, _. split; [reflexivity|]. split; [reflexivity|].
  apply (@nonlinear_is_linear_at_rest Qc Qc_Scalar Qc_Laws demo_xbar None None (qc 1)
           _ _ 0 demo_rest_states demo_inputs _ _ eq_refl eq_refl eq_refl
           demo_rest_states_batched eq_refl demo_inputs_batched eq_refl eq_refl).
  repeat constructor.
Defined.

Lemma noiseless_forward_rejects_sizes_witness :
  exists self,
    __init__ demo_xbar true None None (qc 1) = Ok self
    /\ noiseless_forward self 0 (zeros [3]) (zeros [1; 1; 2]) = Raise RuntimeError.
Proof.
  eexists. split; [reflexivity|].
  apply (@noiseless_forward_rejects_sizes Qc Qc_Scalar demo_xbar true None None (qc 1)
           _ 0 (zeros [3]) (zeros [1; 1; 2]) eq_refl).
  left. vm_compute. discriminate.
Defined.

Lemma noiseless_forward_batches_witness :
  exists self,
    __init__ demo_xbar false None None (qc 1) = Ok self
    /\ noiseless_forward self 0 (fresh [2; 1; 4] (concat demo_states))
                         (fresh [1; 1; 2] [qc 1; qc 0])
       = match pair_rows demo_states [[qc 1; qc 0]] with
         | Some ps =>
             Ok (fresh [length ps; 1; 4]
                       (concat (map (fun p => dynamics_row self (fst p) (snd p)) ps)))
         | None => Raise RuntimeError
         end.
Proof.
  eexists. split; [reflexivity|].
  apply (@noiseless_forward_batches Qc Qc_Scalar demo_xbar false None None (qc 1)
           _ 0 demo_states [[qc 1; qc 0]] _ _ eq_refl eq_refl
           demo_states_batched eq_refl demo_single_input_batched eq_refl).
Defined.

Lemma forward_entrywise_witness :
  exists self,
    __init__ demo_xbar false None None (qc 1) = Ok self
    /\ exists f fi,
         forward self 0 (fresh [2; 1; 4] (concat demo_states))
                        (fresh [2; 1; 2] (concat demo_inputs))
                        (fresh [2; 1; 4] (concat demo_noise_rows)) = Ok f
         /\ forward self 0 (select0 1 (fresh [2; 1; 4] (concat demo_states)))
                           (select0 1 (fresh [2; 1; 2] (concat demo_inputs)))
                           (select0 1 (fresh [2; 1; 4] (concat demo_noise_rows))) = Ok fi
         /\ same_values (select0 1 f) fi.
Proof.
  eexists. split; [reflexivity|].
  apply (@forward_entrywise Qc Qc_Scalar demo_xbar false None None (qc 1)
           _ 0 1 demo_states demo_inputs demo_noise_rows _ _ _ eq_refl eq_refl
           demo_states_batched eq_refl demo_inputs_batched eq_refl
           demo_noise_rows_batched eq_refl eq_refl eq_refl).
  simpl. lia.
Defined.

Lemma A_nonlin_rejects_witness :
  exists self,
    __init__ demo_xbar true None None (qc 1) = Ok self
    /\ A_nonlin self (zeros [1; 1; 4]) = Raise AssertionError.
Proof.
  eexists. split; [reflexivity|].
  apply (@A_nonlin_rejects Qc Qc_Scalar demo_xbar true None None (qc 1) _
           (zeros [1; 1; 4]) eq_refl).
  left. reflexivity.
Defined.

Lemma rollout_rejects_low_rank_witness :
  exists self,
    __init__ demo_xbar true None None (qc 1) = Ok self
    /\ rollout self zero_controller (zeros [2; 3]) false (0, 0)
       = (Raise IndexError, reset zero_controller (0, 0)).
Proof.
  eexists. split; [reflexivity|].
  apply (@rollout_rejects_low_rank Qc Qc_Scalar (nat * nat) demo_xbar true None None
           (qc 1) _ zero_controller (zeros [2; 3]) false (0, 0) 2 2 eq_refl).
  - split; [reflexivity|]. split; discriminate.
  - right. right. reflexivity.
Defined.

Lemma rollout_horizon_one_witness :
  exists self,
    __init__ demo_xbar false None None (qc 1) = Ok self
    /\ exists x1,
         forward self 0 (fresh [2; 1; 4] (concat (repeat (data (x_init self)) 2)))
                        (fresh [2; 1; 2] (concat (repeat (data (u_init self)) 2)))
                        (zeros [2; 1; 4])
         = Ok x1
         /\ shape x1 = [2; 1; 4]
         /\ rollout self zero_controller (zeros [2; 1; 4]) false (0, 0)
            = (Ok (x1, None, fst (call zero_controller 0 x1 (reset zero_controller (0, 0)))),
               reset zero_controller
                     (snd (call zero_controller 0 x1 (reset zero_controller (0, 0))))).
Proof.
  eexists. split; [reflexivity|].
  apply (@rollout_horizon_one Qc Qc_Scalar (nat * nat) demo_xbar false None None
           (qc 1) _ zero_controller (zeros [2; 1; 4]) false (0, 0) 2 eq_refl).
  - split; [reflexivity|]. split; discriminate.
  - reflexivity.
  - reflexivity.
  - reflexivity.
Defined.

Lemma rollout_forgets_history_witness :
  exists self,
    __init__ demo_xbar false None None (qc 1) = Ok self
    /\ rollout self forgetful_controller (zeros [2; 3; 4]) false 0
       = rollout self forgetful_controller (zeros [2; 3; 4]) false 7
    /\ rollout self forgetful_controller (zeros [2; 3; 4]) false
               (snd (rollout self forgetful_controller (zeros [2; 3; 4]) false 0))
       = rollout self forgetful_controller (zeros [2; 3; 4]) false 0.
Proof.
  eexists. split; [reflexivity|].
  apply (@rollout_forgets_history Qc Qc_Scalar nat _ forgetful_controller
           (zeros [2; 3; 4]) false 0 7).
  intros a a'. reflexivity.
Defined.

Lemma rollout_controller_protocol_witness :
  exists self,
    __init__ demo_xbar false None None (qc 1) = Ok self
    /\ exists x_log u_log c' xs,
         rollout self (traced zero_controller) (zeros [2; 3; 4]) false ((0, 0), [])
         = (Ok (x_log, None, u_log),
            (c', [] ++ Reset_event :: map2 (@Call_event Qc) (seq 0 3) xs ++ [Reset_event]))
         /\ rollout self zero_controller (zeros [2; 3; 4]) false (0, 0)
            = (Ok (x_log, None, u_log), c')
         /\ length xs = 3
         /\ (forall t x, nth_error xs t = Some x -> recorded x_log t x).
Proof.
  eexists. split; [reflexivity|].
  apply (@rollout_controller_protocol Qc Qc_Scalar (nat * nat) demo_xbar false None None
           (qc 1) _ zero_controller (zeros [2; 3; 4]) false (0, 0) [] 2 3 eq_refl).
  - split; [reflexivity|]. split; discriminate.
  - apply zero_controller_ok.
  - reflexivity.
  - reflexivity.
  - reflexivity.
  - lia.
Defined.

Lemma rollout_causal_witness :
  exists self,
    __init__ demo_xbar false None None (qc 1) = Ok self
    /\ exists w x_log u_log c1 x_log' u_log' c2 sx su,
         slice1 0 2 (zeros [2; 3; 4]) = Ok w
         /\ rollout self zero_controller (zeros [2; 3; 4]) false (0, 0)
            = (Ok (x_log, None, u_log), c1)
         /\ rollout self zero_controller w false (0, 0) = (Ok (x_log', None, u_log'), c2)
         /\ slice1 0 2 x_log = Ok sx /\ same_values sx x_log'
         /\ slice1 0 2 u_log = Ok su /\ same_values su u_log'.
Proof.
  eexists. split; [reflexivity|].
  apply (@rollout_causal Qc Qc_Scalar (nat * nat) demo_xbar false None None
           (qc 1) _ zero_controller (zeros [2; 3; 4]) false (0, 0) 2 3 2 eq_refl).
  - split; [reflexivity|]. split; discriminate.
  - apply zero_controller_ok.
  - reflexivity.
  - reflexivity.
  - reflexivity.
  - lia.
  - lia.
Defined.

Lemma zero_controller_entrywise (n i : nat) :
  i < n -> entrywise n i zero_controller (fun _ _ => True).
Proof.
  intros Hi. split; [trivial|].
  intros t x xi c ci _ (Hx & _ & Hxi & _).
  split; [|trivial].
  unfold zero_controller. cbn [call fst]. rewrite Hx, Hxi. cbn [hd].
  repeat split; cbn [shape data zeros fresh].
  - rewrite repeat_length. unfold size_of; simpl; lia.
  - replace (size_of [n; 1; 2]) with (n * 2) by (unfold size_of; simpl; lia).
    rewrite skipn_repeat', firstn_repeat' by nia. reflexivity.
Defined.

Lemma rollout_entry_independent_witness :
  exists self,
    __init__ demo_xbar false None None (qc 1) = Ok self
    /\ exists xl ul c' xli uli ci',
         rollout self zero_controller (zeros [3; 2; 4]) false (0, 0)
         = (Ok (xl, None, ul), c')
         /\ rollout self zero_controller (select0 2 (zeros [3; 2; 4])) false (0, 0)
            = (Ok (xli, None, uli), ci')
         /\ same_values (select0 2 xl) xli /\ same_values (select0 2 ul) uli.
Proof.
  eexists. split; [reflexivity|].
  apply (@rollout_entry_independent Qc Qc_Scalar (nat * nat) demo_xbar false None None
           (qc 1) _ zero_controller (fun _ _ => True) (zeros [3; 2; 4]) false
           (0, 0) (0, 0) 3 2 2 eq_refl).
  - split; [reflexivity|]. split; discriminate.
  - apply zero_controller_ok.
  - apply zero_controller_ok.
  - apply zero_controller_entrywise. lia.
  - exact I.
  - reflexivity.
  - reflexivity.
  - reflexivity.
  - lia.
  - lia.
Defined.

Lemma forward_any_shape_witness :
  exists self,
    __init__ demo_xbar false None None (qc 1) = Ok self
    /\ noiseless_forward self 0 (fresh [2; 4] (concat demo_states))
                         (fresh [4] (concat demo_inputs))
       = noiseless_forward self 0 (fresh [2; 1; 4] (concat demo_states))
                           (fresh [2; 1; 2] (concat demo_inputs))
    /\ forward self 0 (fresh [2; 4] (concat demo_states))
                      (fresh [4] (concat demo_inputs))
                      (fresh [8] (concat demo_noise_rows))
       = forward self 0 (fresh [2; 1; 4] (concat demo_states))
                        (fresh [2; 1; 2] (concat demo_inputs))
                        (fresh [2; 1; 4] (concat demo_noise_rows)).
Proof.
  eexists. split; [reflexivity|].
  apply (@forward_any_shape Qc Qc_Scalar demo_xbar false None None (qc 1) _ 0 2 2 2
           [2; 4] [4] [8] (concat demo_states) (concat demo_inputs)
           (concat demo_noise_rows) eq_refl eq_refl eq_refl eq_refl eq_refl eq_refl
           eq_refl eq_refl).
Defined.

Lemma rollout_rejects_tall_u_init_witness :
  exists self,
    __init__ demo_xbar true None (Some (zeros [2; 2])) (qc 1) = Ok self
    /\ rollout self zero_controller (zeros [2; 3; 4]) false (0, 0)
       = (Raise RuntimeError, reset zero_controller (0, 0)).
Proof.
  eexists. split; [reflexivity|].
  apply (@rollout_rejects_tall_u_init Qc Qc_Scalar (nat * nat) demo_xbar true None
           (zeros [2; 2]) (qc 1) _ zero_controller (zeros [2; 3; 4]) false (0, 0)
           2 3 2 eq_refl eq_refl).
  - discriminate.
  - reflexivity.
  - reflexivity.
  - lia.
  - reflexivity.
  - reflexivity.
  - reflexivity.
  - lia.
  - lia.
Defined.
